(** * Image recompression engine: a shallow embedding of [image_compressor.py]

    The development follows the class [ImageCompressor] method by method.
    Every method is a Rocq function with the source's name; the collaborators
    the class calls but does not define (Pillow, [os], [shutil], [pathlib],
    the builtin [int]) are the fields of three interfaces, [Python],
    [Pillow] and [Platform].

    Modelling conventions.
    - Python exceptions are values of [exn]; code that may raise returns
      [result].  Only subclasses of [Exception] are modelled, so a clause
      [except Exception] catches every [exn].
    - A Python [float] is the rational number it denotes, and every float
      operation is the exact operation followed by [rnd64], rounding to the
      nearest number with a 53-bit significand, ties to even, as IEEE
      binary64 does.  The exponent range is not bounded: overflow and
      subnormal numbers are outside the model.  Module [Binary64] checks
      [rnd64] against Rocq's primitive binary64 numbers.
    - Logging is observational and is left out.
    - The file system is a value of type [world] threaded through the calls
      that touch it.

    The last part of the definitions embeds [FFmpegManager] of
    [ffmpeg_manager.py] in the same way: the search for a working executable,
    the download with resumption and the scan of the archive. *)

From Stdlib Require Import ZArith QArith Qround Qminmax Qpower Lia Lqa List String Ascii Bool.
From Stdlib Require Import Floats.
From stdpp Require Import base option gmap strings pretty.
Import ListNotations.

Local Open Scope string_scope.
Local Open Scope Z_scope.

(** ** Exceptions and fallible computations *)

(** The subclasses of [Exception] the engine and its collaborators raise.
    [FileNotFoundError], [PermissionError] and Pillow's
    [UnidentifiedImageError] are subclasses of [OSError]; [OSError] itself
    stands for every other subclass of it. *)
Inductive exn : Type :=
  | FileNotFoundError
  | PermissionError
  | OSError
  | UnidentifiedImageError
  | DecompressionBombError
  | ValueError
  | TypeError
  | IndexError
  | ZeroDivisionError
  | OverflowError
  | MemoryError
  | RuntimeError.

#[global] Instance exn_eq_dec : EqDecision exn.
Proof. solve_decision. Defined.

(** [isinstance(e, OSError)] *)
Definition is_OSError (e : exn) : bool :=
  match e with
  | FileNotFoundError | PermissionError | OSError | UnidentifiedImageError => true
  | _ => false
  end.

(** [isinstance(e, ValueError)] *)
Definition is_ValueError (e : exn) : bool :=
  match e with
  | ValueError => true
  | _ => false
  end.

Inductive result (A : Type) : Type :=
  | Ok (a : A)
  | Raise (e : exn).
Arguments Ok {A} a.
Arguments Raise {A} e.

#[global] Instance result_ret : MRet result := fun _ a => Ok a.
#[global] Instance result_bind : MBind result := fun _ _ f m =>
  match m with
  | Ok a => f a
  | Raise e => Raise e
  end.

(** ** Python values and numbers *)

(** Values a configuration provider can hand out. *)
Inductive pyval : Type :=
  | PyNone
  | PyBool (b : bool)
  | PyInt (z : Z)
  | PyFloat (q : Q)
  | PyStr (s : string).

(** The part of the Python runtime the engine relies on: the builtin [int]. *)
Class Python := {
  py_int : pyval → result Z;
}.

(** [round(x)] on a float: the nearest integer, ties to the even one. *)
Definition py_round (x : Q) : Z :=
  let n := Qnum x in
  let d := Zpos (Qden x) in
  let f := n / d in
  match 2 * (n mod d) ?= d with
  | Lt => f
  | Gt => f + 1
  | Eq => if Z.even f then f else f + 1
  end.

(** The exponent [e] of the unit in the last place of a positive [x]:
    [2^52 <= x / 2^e < 2^53]. *)
Definition ulp_exponent (x : Q) : Z :=
  let k := Z.log2 (Qnum x) - Z.log2 (Z.pos (Qden x)) in
  (if Qle_bool (2 ^ k) x then k else k - 1) - 52.

(** The binary64 number nearest to a positive [x], ties to even. *)
Definition rnd64_pos (x : Q) : Q :=
  let e := ulp_exponent x in
  Qred (inject_Z (py_round (x / 2 ^ e)) * 2 ^ e).

(** Rounding to binary64. *)
Definition rnd64 (x : Q) : Q :=
  match Qnum x with
  | 0 => 0%Q
  | Z.pos _ => rnd64_pos x
  | Z.neg _ => Qred (- rnd64_pos (- x))
  end.

(** The unit roundoff of binary64, [2^-53]. *)
Definition unit_roundoff : Q := 1 # 9007199254740992.

(** [float(z)] *)
Definition py_float (z : Z) : Q := rnd64 (inject_Z z).

(** [a + b], [a * b] and [a / b] on floats, the last for a divisor that is
    not zero. *)
Definition py_fadd (a b : Q) : Q := rnd64 (a + b).
Definition py_fmul (a b : Q) : Q := rnd64 (a * b).
Definition fdiv (a b : Q) : Q := rnd64 (a / b).

(** [a / b] on floats. *)
Definition py_fdiv (a b : Q) : result Q :=
  if Qeq_bool b 0 then Raise ZeroDivisionError else Ok (fdiv a b).

(** [a / b] on integers: true division, the quotient rounded once. *)
Definition py_truediv (a b : Z) : result Q :=
  if b =? 0 then Raise ZeroDivisionError
  else Ok (rnd64 (inject_Z a / inject_Z b)).

(** [a < b] on floats. *)
Definition py_lt (a b : Q) : bool :=
  Qnum a * Zpos (Qden b) <? Qnum b * Zpos (Qden a).

(** [min(a, b)]: the first argument unless the second is strictly smaller. *)
Definition py_min (a b : Q) : Q :=
  if py_lt b a then b else a.

(** [int(x)] on a float: truncation towards zero. *)
Definition py_int_of_float (x : Q) : Z :=
  Z.quot (Qnum x) (Zpos (Qden x)).

(** ** Images *)

(** A decoded raster: Pillow's [mode] string, [size], the [info] dictionary
    and the pixels in the order of [getdata()], each pixel the tuple of its
    band values. *)
Record image : Type := Image {
  mode : string;
  size : Z * Z;
  info : gmap string pyval;
  data : list (list Z);
}.

Inductive resample : Type := NEAREST | BILINEAR | LANCZOS.
Inductive dither : Type := NONE | FLOYDSTEINBERG.
Inductive quantize_method : Type := MEDIANCUT | FASTOCTREE.

(** The Pillow operations whose result depends on the codec or on the
    resampling and quantization algorithms. *)
Class Pillow := {
  (** [img.convert(mode)] *)
  pil_convert : image → string → result image;
  (** [img.convert('P', palette=Image.ADAPTIVE, colors=c, dither=d)] *)
  pil_convert_adaptive : image → Z → dither → result image;
  (** [img.quantize(colors=c, method=m, dither=d)] *)
  pil_quantize : image → Z → quantize_method → dither → result image;
  (** [img.resize(size, filter)] *)
  pil_resize : image → Z * Z → resample → result image;
  (** [Image.alpha_composite(dst, src)] *)
  pil_alpha_composite : image → image → result image;
  (** [background.paste(src, mask=mask)], returning the new background *)
  pil_paste : image → image → image → result image;
}.

(** [Image.new(mode, size, color)] *)
Definition Image_new (m : string) (sz : Z * Z) (color : list Z) : image :=
  {| mode := m;
     size := sz;
     info := ∅;
     data := replicate (Z.to_nat (fst sz * snd sz)) color |}.

(** [img.getbands().index(band)] for the modes whose name spells the bands. *)
Fixpoint band_index (m : string) (band : ascii) : option nat :=
  match m with
  | EmptyString => None
  | String c rest =>
      if Ascii.eqb c band then Some 0%nat
      else S <$> band_index rest band
  end.

(** [img.getchannel(band)] *)
Definition getchannel (img : image) (band : ascii) : result image :=
  match band_index (mode img) band with
  | None => Raise ValueError
  | Some i =>
      match mapM (λ px : list Z, (λ v, [v]) <$> px !! i) (data img) with
      | None => Raise ValueError
      | Some d => Ok {| mode := "L"; size := size img; info := ∅; data := d |}
      end
  end.

(** [band.getextrema()] of a single-band image; Pillow answers [None] for an
    image without pixels. *)
Definition getextrema (band : image) : option (Z * Z) :=
  match concat (data band) with
  | [] => None
  | v :: vs => Some (foldr Z.min v vs, foldr Z.max v vs)
  end.

(** [img.getcolors(maxcolors)]: the distinct colours of the raster, or
    [None] when there are more than [maxcolors]; the counts are left out. *)
Definition getcolors (img : image) (maxcolors : Z) : option (list (list Z)) :=
  let colors := remove_dups (data img) in
  if Z.of_nat (length colors) >? maxcolors then None else Some colors.

(** [img.split()[-1]]: the last band as an image of its own. *)
Definition split_last (img : image) : result image :=
  match mapM (λ px : list Z, (λ v, [v]) <$> last px) (data img) with
  | None => Raise IndexError
  | Some d => Ok {| mode := "L"; size := size img; info := ∅; data := d |}
  end.

(** ** Configuration *)

(** The four options the engine reads; [None] is an absent key, for which
    [config.get(key, default)] answers the default.  [photo_quality] is kept
    as an arbitrary value because the engine coerces it itself; the size
    limits and the preset are used as they come. *)
Record config : Type := Config {
  photo_quality : option pyval;
  max_photo_width : option Z;
  max_photo_height : option Z;
  image_preset : option string;
}.

Definition PRESET_CUSTOM : string := "自定义".
Definition PRESET_COMPRESSION_FIRST : string := "压缩优先".
Definition PRESET_CLARITY_FIRST : string := "清晰优先".

(** ** The engine: pure helpers *)

Section Engine.
Context {py : Python} {pil : Pillow}.

Definition _clamp_int (value : pyval) (min_value max_value : Z) : Z :=
  let value_int :=
    match py_int value with
    | Ok value_int => value_int
    | Raise _ => min_value
    end in
  Z.max min_value (Z.min max_value value_int).

(** [self._clamp_int(self.config.get('photo_quality', 85), 0, 100)], the
    value [compress] binds to [photo_quality]. *)
Definition effective_photo_quality (cfg : config) : Z :=
  _clamp_int (default (PyInt 85) (photo_quality cfg)) 0 100.

Definition _get_image_preset (cfg : config) : string :=
  let preset := default PRESET_CUSTOM (image_preset cfg) in
  if bool_decide (preset ∈ [PRESET_CUSTOM; PRESET_COMPRESSION_FIRST; PRESET_CLARITY_FIRST])
  then preset
  else PRESET_CUSTOM.

Definition _resize_if_needed (img : image) (max_width max_height : Z) : result image :=
  let '(width, height) := size img in
  if (width >? max_width) || (height >? max_height) then
    rw ← py_truediv max_width width;
    rh ← py_truediv max_height height;
    let ratio := py_min rw rh in
    let new_width := py_int_of_float (py_fmul (py_float width) ratio) in
    let new_height := py_int_of_float (py_fmul (py_float height) ratio) in
    pil_resize img (new_width, new_height) LANCZOS
  else Ok img.

(** ['transparency' in img.info] *)
Definition has_transparency (img : image) : bool :=
  bool_decide (is_Some (info img !! "transparency")).

Definition _convert_for_jpeg (img : image) : result image :=
  if String.eqb (mode img) "RGB" then Ok img
  else if bool_decide (mode img ∈ ["RGBA"; "LA"])
          || (String.eqb (mode img) "P" && has_transparency img) then
    rgba ← pil_convert img "RGBA";
    let background := Image_new "RGB" (size rgba) [255; 255; 255] in
    mask ← split_last rgba;
    pil_paste background rgba mask
  else pil_convert img "RGB".

(** The [try] block of [_convert_for_png24]: the extrema of the alpha band,
    or [(0, 255)] when reading them raises (unpacking the [None] that an
    image without pixels yields raises [TypeError]). *)
Definition alpha_extrema (rgba : image) : Z * Z :=
  match getchannel rgba "A" with
  | Ok alpha =>
      match getextrema alpha with
      | Some extrema => extrema
      | None => (0, 255)
      end
  | Raise _ => (0, 255)
  end.

(** The test that sends an image to the alpha branch of [_convert_for_png24]. *)
Definition carries_transparency (img : image) : bool :=
  bool_decide (mode img ∈ ["RGBA"; "LA"])
  || (String.eqb (mode img) "P" && has_transparency img)
  || has_transparency img.

Definition _convert_for_png24 (img : image) : result image :=
  if String.eqb (mode img) "RGB" then Ok img
  else if carries_transparency img then
    rgba ← pil_convert img "RGBA";
    let '(alpha_min, alpha_max) := alpha_extrema rgba in
    if (alpha_min =? 255) && (alpha_max =? 255) then pil_convert rgba "RGB"
    else
      let background := Image_new "RGBA" (size rgba) [255; 255; 255; 255] in
      composited ← pil_alpha_composite background rgba;
      pil_convert composited "RGB"
  else pil_convert img "RGB".

Definition _should_quantize_png (img : image) : bool :=
  if String.eqb (mode img) "P" then false
  else
    match (if bool_decide (mode img ∈ ["RGB"; "RGBA"]) then Ok img
           else pil_convert img "RGBA") with
    | Raise _ => false
    | Ok check_img =>
        match getcolors check_img 257 with
        | None => false
        | Some colors =>
            let color_count := Z.of_nat (length colors) in
            color_count <=? 256
        end
    end.

Definition _maybe_quantize_png (img : image) (colors : Z) (dither_mode : dither) : image :=
  if String.eqb (mode img) "P" then img
  else
    match (if bool_decide (mode img ∈ ["RGB"; "RGBA"]) then Ok img
           else pil_convert img "RGBA") with
    | Raise _ => img
    | Ok img =>
        match pil_convert_adaptive img colors dither_mode with
        | Ok quantized => quantized
        | Raise _ =>
            let method := if String.eqb (mode img) "RGB" then MEDIANCUT else FASTOCTREE in
            match pil_quantize img colors method dither_mode with
            | Ok quantized => quantized
            | Raise _ => img
            end
        end
    end.

Definition _prepare_compare_images (original_img png8_img : image) : result (image * image) :=
  let max_sample := 256 in
  a ← (if negb (String.eqb (mode original_img) "RGBA")
       then pil_convert original_img "RGBA" else Ok original_img);
  b ← (if negb (String.eqb (mode png8_img) "RGBA")
       then pil_convert png8_img "RGBA" else Ok png8_img);
  b ← (if bool_decide (size a ≠ size b) then pil_resize b (size a) NEAREST else Ok b);
  let '(width, height) := size a in
  if (width >? max_sample) || (height >? max_sample) then
    rw ← py_fdiv (py_float max_sample) (py_float width);
    rh ← py_fdiv (py_float max_sample) (py_float height);
    let ratio := py_min rw rh in
    let new_width := Z.max 1 (py_int_of_float (py_fmul (py_float width) ratio)) in
    let new_height := Z.max 1 (py_int_of_float (py_fmul (py_float height) ratio)) in
    a ← pil_resize a (new_width, new_height) BILINEAR;
    b ← pil_resize b (new_width, new_height) BILINEAR;
    Ok (a, b)
  else Ok (a, b).

(** [p[i]] on a pixel tuple *)
Definition band (p : list Z) (i : nat) : result Z :=
  match p !! i with
  | Some v => Ok v
  | None => Raise IndexError
  end.

(** The loop [for i in range(total)] of [_compute_image_diff_stats], with
    [total = min(len(data_a), len(data_b))]: it walks both pixel lists in
    step and threads [sum_abs] and [high_count]. *)
Fixpoint diff_loop (data_a data_b : list (list Z)) (sum_abs high_count : Z)
  : result (Z * Z) :=
  match data_a, data_b with
  | pa :: data_a, pb :: data_b =>
      a0 ← band pa 0; b0 ← band pb 0;
      let dr := Z.abs (a0 - b0) in
      a1 ← band pa 1; b1 ← band pb 1;
      let dg := Z.abs (a1 - b1) in
      a2 ← band pa 2; b2 ← band pb 2;
      let db := Z.abs (a2 - b2) in
      a3 ← band pa 3; b3 ← band pb 3;
      let da := Z.abs (a3 - b3) in
      let sum_abs := sum_abs + (dr + dg + db + da) in
      let high_count :=
        if (dr >? 24) || (dg >? 24) || (db >? 24) || (da >? 24)
        then high_count + 1 else high_count in
      diff_loop data_a data_b sum_abs high_count
  | _, _ => Ok (sum_abs, high_count)
  end.

Definition _compute_image_diff_stats (img_a_rgba img_b_rgba : image) : result (Q * Q) :=
  let data_a := data img_a_rgba in
  let data_b := data img_b_rgba in
  let total := Z.min (Z.of_nat (length data_a)) (Z.of_nat (length data_b)) in
  if total <=? 0 then Ok (0%Q, 0%Q)
  else
    '(sum_abs, high_count) ← diff_loop data_a data_b 0 0;
    mae ← py_fdiv (py_float sum_abs) (py_float (total * 4));
    high_pct ← py_fdiv (py_fmul (py_float high_count) 100) (py_float total);
    Ok (mae, high_pct).

(** The dictionary [_should_accept_png8] returns. *)
Record decision : Type := Decision {
  accept : bool;
  mae : Q;
  high_pct : Q;
}.

(** The two calls inside the [try] block of [_should_accept_png8]. *)
Definition compare_images (original_img png8_img : image) : result (Q * Q) :=
  '(original_rgba, png8_rgba) ← _prepare_compare_images original_img png8_img;
  _compute_image_diff_stats original_rgba png8_rgba.

Definition _should_accept_png8 (original_img png8_img : image) : decision :=
  match compare_images original_img png8_img with
  | Ok (mae, high_pct) =>
      let accept := true in
      let accept := if py_lt 6 mae then false else accept in
      let accept := if py_lt 2 high_pct then false else accept in
      {| accept := accept; mae := mae; high_pct := high_pct |}
  | Raise _ =>
      {| accept := false; mae := 999; high_pct := 100 |}
  end.

End Engine.

(** ** The engine: encoding and the file system *)

(** The keyword arguments of [img.save(path, ...)]; [None] is an argument
    that is not passed. *)
Record save_options : Type := SaveOptions {
  opt_quality : option Z;
  opt_optimize : option bool;
  opt_progressive : option bool;
  opt_method : option Z;
  opt_compress_level : option Z;
}.

Definition no_options : save_options :=
  {| opt_quality := None; opt_optimize := None; opt_progressive := None;
     opt_method := None; opt_compress_level := None |}.

(** The operating system, [pathlib], [shutil] and Pillow's codecs.  [world]
    is the state of the file system. *)
Class Platform := {
  world : Type;
  (** [str(Path(p).resolve())] *)
  path_resolve : world → string → result string;
  os_path_isfile : world → string → bool;
  os_path_dirname : string → string;
  os_path_splitext : string → string * string;
  (** [os.makedirs(d, exist_ok=True)] *)
  os_makedirs : world → string → world * result unit;
  shutil_copy2 : world → string → string → world * result unit;
  (** [Image.open(p)] *)
  Image_open : world → string → result image;
  (** [img.save(p, **options)] *)
  Image_save : world → image → string → save_options → world * result unit;
}.

(** [s.lower()] on ASCII letters. *)
Definition lower_ascii (c : ascii) : ascii :=
  let n := nat_of_ascii c in
  if (65 <=? n)%nat && (n <=? 90)%nat then ascii_of_nat (n + 32) else c.

Fixpoint str_lower (s : string) : string :=
  match s with
  | EmptyString => EmptyString
  | String c rest => String (lower_ascii c) (str_lower rest)
  end.

(** [sub in s] *)
Definition str_contains (sub s : string) : bool :=
  match String.index 0 sub s with
  | Some _ => true
  | None => false
  end.

Section Compressor.
Context {py : Python} {pil : Pillow} {os : Platform}.

Definition _normalize_path (w : world) (path : string) : result (option string) :=
  if String.eqb path "" then Ok None
  else
    match path_resolve w path with
    | Ok path_str =>
        if str_contains ".." path_str || String.prefix "\\" path_str
        then Ok None
        else Ok (Some path_str)
    | Raise e =>
        if is_ValueError e || is_OSError e then Ok None else Raise e
    end.

(** The keyword arguments of the JPEG encode. *)
Definition jpeg_options (quality : Z) : save_options :=
  {| opt_quality := Some quality; opt_optimize := Some true;
     opt_progressive := Some true; opt_method := None;
     opt_compress_level := None |}.

Definition _save_jpeg (w : world) (img : image) (target_path : string)
    (photo_quality : Z) (image_preset : string) : world * result unit :=
  let quality :=
    if String.eqb image_preset PRESET_COMPRESSION_FIRST then Z.min photo_quality 75
    else if String.eqb image_preset PRESET_CLARITY_FIRST then Z.max photo_quality 92
    else photo_quality in
  match _convert_for_jpeg img with
  | Ok save_img => Image_save w save_img target_path (jpeg_options quality)
  | Raise e => (w, Raise e)
  end.

(** The last two lines of [_save_jpeg], the conversion and the encode, at a
    given quality. *)
Definition jpeg_encode (w : world) (img : image) (target_path : string) (quality : Z)
  : world * result unit :=
  match _convert_for_jpeg img with
  | Ok save_img => Image_save w save_img target_path (jpeg_options quality)
  | Raise e => (w, Raise e)
  end.

Definition _save_webp (w : world) (img : image) (target_path : string)
    (photo_quality : Z) (image_preset : string) : world * result unit :=
  let quality :=
    if String.eqb image_preset PRESET_COMPRESSION_FIRST then Z.min photo_quality 70
    else if String.eqb image_preset PRESET_CLARITY_FIRST then Z.max photo_quality 90
    else photo_quality in
  Image_save w img target_path
    {| opt_quality := Some quality; opt_optimize := None;
       opt_progressive := None; opt_method := Some 6;
       opt_compress_level := None |}.

(** The keyword arguments of the PNG encode. *)
Definition png_options (compress_level : Z) : save_options :=
  {| opt_quality := None; opt_optimize := Some true; opt_progressive := None;
     opt_method := None; opt_compress_level := Some compress_level |}.

(** [int(round(16 + (photo_quality / 70.0) * (256 - 16)))] followed by
    [max(16, min(256, colors))]. *)
Definition png_colors (photo_quality : Z) : Z :=
  let colors :=
    py_round (py_fadd (py_float 16)
                (py_fmul (fdiv (py_float photo_quality) 70) (py_float (256 - 16)))) in
  Z.max 16 (Z.min 256 colors).

Definition _save_png (w : world) (img : image) (target_path : string)
    (photo_quality : Z) (image_preset : string) : world * result unit :=
  if String.eqb image_preset PRESET_CLARITY_FIRST then
    Image_save w img target_path (png_options 6)
  else if String.eqb image_preset PRESET_COMPRESSION_FIRST then
    match _convert_for_png24 img with
    | Ok save_img => Image_save w save_img target_path (png_options 9)
    | Raise e => (w, Raise e)
    end
  else if photo_quality >=? 90 then
    Image_save w img target_path (png_options 6)
  else if photo_quality >=? 70 then
    Image_save w img target_path (png_options 9)
  else
    let colors := png_colors photo_quality in
    let save_img := _maybe_quantize_png img colors NONE in
    Image_save w save_img target_path (png_options 9).

Definition _save_image (w : world) (img : image) (target_path target_ext : string)
    (photo_quality : Z) (image_preset : string) : world * result unit :=
  if bool_decide (target_ext ∈ [".jpg"; ".jpeg"]) then
    _save_jpeg w img target_path photo_quality image_preset
  else if String.eqb target_ext ".png" then
    _save_png w img target_path photo_quality image_preset
  else if String.eqb target_ext ".webp" then
    _save_webp w img target_path photo_quality image_preset
  else
    Image_save w img target_path
      {| opt_quality := None; opt_optimize := Some true; opt_progressive := None;
         opt_method := None; opt_compress_level := None |}.

(** The body of the [try] block of [compress]: the world it leaves and either
    the value it returns or the exception that leaves it. *)
Definition compress_try (cfg : config) (w : world) (source_path target_path : string)
  : world * result bool :=
  match _normalize_path w source_path with
  | Raise e => (w, Raise e)
  | Ok normalized_source =>
      match normalized_source with
      | None => (w, Raise FileNotFoundError)
      | Some normalized_source =>
          if String.eqb normalized_source "" || negb (os_path_isfile w normalized_source)
          then (w, Raise FileNotFoundError)
          else
            match _normalize_path w (os_path_dirname target_path) with
            | Raise e => (w, Raise e)
            | Ok None => (w, Raise ValueError)
            | Ok (Some normalized_target) =>
                if String.eqb normalized_target "" then (w, Raise ValueError)
                else
                  let target_dir := os_path_dirname target_path in
                  match os_makedirs w target_dir with
                  | (w, Raise e) => (w, Raise e)
                  | (w, Ok _) =>
                      let photo_quality := effective_photo_quality cfg in
                      let max_width := default 2000 (max_photo_width cfg) in
                      let max_height := default 2000 (max_photo_height cfg) in
                      let image_preset := _get_image_preset cfg in
                      let target_ext := str_lower (snd (os_path_splitext target_path)) in
                      match Image_open w normalized_source with
                      | Raise e => (w, Raise e)
                      | Ok img =>
                          match _resize_if_needed img max_width max_height with
                          | Raise e => (w, Raise e)
                          | Ok img =>
                              match _save_image w img target_path target_ext
                                      photo_quality image_preset with
                              | (w, Raise e) => (w, Raise e)
                              | (w, Ok _) => (w, Ok true)
                              end
                          end
                      end
                  end
            end
      end
  end.

(** The handler every [except] clause of [compress] runs: copy the source
    over the target, answer [False]; an error of the copy is raised again. *)
Definition copy_original (w : world) (source_path target_path : string)
  : world * result bool :=
  match shutil_copy2 w source_path target_path with
  | (w, Ok _) => (w, Ok false)
  | (w, Raise copy_error) => (w, Raise copy_error)
  end.

Definition compress (cfg : config) (w : world) (source_path target_path : string)
  : world * result bool :=
  match compress_try cfg w source_path target_path with
  | (w, Ok r) => (w, Ok r)
  | (w, Raise e) =>
      if is_OSError e then
        copy_original w source_path target_path
      else if is_ValueError e
              || bool_decide (e = UnidentifiedImageError)
              || bool_decide (e = DecompressionBombError) then
        copy_original w source_path target_path
      else
        copy_original w source_path target_path
  end.

End Compressor.

(** ** A small executable instance of the interfaces

    [Model] stands in for the Python runtime, Pillow and the operating
    system when the engine is run inside Rocq, and shows that the laws
    assumed of them in the properties below can be met.  It is not a model
    of Pillow's codecs: a file holds either raw bytes or an image together
    with the options it was saved with. *)

Module Model.

Definition digit (c : ascii) : option Z :=
  let n := nat_of_ascii c in
  if (48 <=? n)%nat && (n <=? 57)%nat then Some (Z.of_nat n - 48) else None.

Fixpoint parse_digits (s : string) (acc : Z) : option Z :=
  match s with
  | EmptyString => Some acc
  | String c rest => d ← digit c; parse_digits rest (10 * acc + d)
  end.

(** [int(s)] for an optional minus sign followed by decimal digits. *)
Definition int_of_str (s : string) : result Z :=
  match s with
  | EmptyString => Raise ValueError
  | String "-" EmptyString => Raise ValueError
  | String "-" rest =>
      match parse_digits rest 0 with
      | Some z => Ok (- z)
      | None => Raise ValueError
      end
  | _ =>
      match parse_digits s 0 with
      | Some z => Ok z
      | None => Raise ValueError
      end
  end.

Definition int (v : pyval) : result Z :=
  match v with
  | PyNone => Raise TypeError
  | PyBool b => Ok (if b then 1 else 0)
  | PyInt z => Ok z
  | PyFloat q => Ok (py_int_of_float q)
  | PyStr s => int_of_str s
  end.

Definition python : Python := {| py_int := int |}.

(** Mode conversions between [RGB] and [RGBA]; a conversion to the image's
    own mode is a copy. *)
Definition convert (img : image) (m : string) : result image :=
  if String.eqb m (mode img) then Ok img
  else if String.eqb (mode img) "RGBA" && String.eqb m "RGB" then
    Ok {| mode := "RGB"; size := size img; info := info img;
          data := take 3 <$> data img |}
  else if String.eqb (mode img) "RGB" && String.eqb m "RGBA" then
    Ok {| mode := "RGBA"; size := size img; info := info img;
          data := (λ px : list Z, (px ++ [255])%list) <$> data img |}
  else Raise ValueError.

(** The "over" operator on one pixel, for an opaque destination. *)
Definition over (dst src : list Z) : list Z :=
  match src with
  | [sr; sg; sb; sa] =>
      if sa =? 0 then dst
      else
        match dst with
        | [dr; dg; db; da] =>
            [(sr * sa + dr * (255 - sa)) / 255;
             (sg * sa + dg * (255 - sa)) / 255;
             (sb * sa + db * (255 - sa)) / 255;
             255]
        | _ => dst
        end
  | _ => dst
  end.

Definition alpha_composite (dst src : image) : result image :=
  if bool_decide (size dst = size src) then
    Ok {| mode := mode dst; size := size dst; info := info dst;
          data := zip_with over (data dst) (data src) |}
  else Raise ValueError.

(** Resizing fills the new raster with the first pixel of the old one. *)
Definition resize (img : image) (sz : Z * Z) (filter : resample) : result image :=
  if (0 <? fst sz) && (0 <? snd sz) then
    Ok {| mode := mode img; size := sz; info := info img;
          data := replicate (Z.to_nat (fst sz * snd sz))
                    (default [0; 0; 0; 0] (head (data img))) |}
  else Raise ValueError.

(** Quantization maps every pixel to palette entry 0. *)
Definition quantize (img : image) (colors : Z) : result image :=
  if (1 <=? colors) && (colors <=? 256) then
    Ok {| mode := "P"; size := size img; info := info img;
          data := (λ _, [0]) <$> data img |}
  else Raise ValueError.

Definition paste (background src mask : image) : result image :=
  if bool_decide (size background = size src) then
    Ok {| mode := mode background; size := size background; info := info background;
          data := zip_with over (data background)
                    (zip_with (λ px a : list Z, (take 3 px ++ a)%list) (data src) (data mask)) |}
  else Raise ValueError.

Definition pillow : Pillow :=
  {| pil_convert := convert;
     pil_convert_adaptive := λ img colors _, quantize img colors;
     pil_quantize := λ img colors _ _, quantize img colors;
     pil_resize := resize;
     pil_alpha_composite := alpha_composite;
     pil_paste := paste |}.

Inductive file : Type :=
  | Bytes (content : list Z)
  | Encoded (img : image) (options : save_options).

(** [rsplit c s]: the parts of [s] before and after the last [c]. *)
Fixpoint rsplit (c : ascii) (s : string) : option (string * string) :=
  match s with
  | EmptyString => None
  | String x rest =>
      match rsplit c rest with
      | Some (before, after) => Some (String x before, after)
      | None => if Ascii.eqb x c then Some (EmptyString, rest) else None
      end
  end.

Definition dirname (p : string) : string :=
  match rsplit "/" p with
  | Some (before, _) => before
  | None => ""
  end.

Definition splitext (p : string) : string * string :=
  match rsplit "." p with
  | Some (before, after) => (before, String "." after)
  | None => (p, "")
  end.

Definition copy2 (w : gmap string file) (src dst : string)
  : gmap string file * result unit :=
  match w !! src with
  | None => (w, Raise FileNotFoundError)
  | Some f => (<[dst := f]> w, Ok ())
  end.

Definition open (w : gmap string file) (p : string) : result image :=
  match w !! p with
  | None => Raise FileNotFoundError
  | Some (Bytes _) => Raise UnidentifiedImageError
  | Some (Encoded img _) => Ok img
  end.

Definition platform : Platform :=
  {| world := gmap string file;
     path_resolve := λ _ p, Ok p;
     os_path_isfile := λ w p, bool_decide (is_Some (w !! p));
     os_path_dirname := dirname;
     os_path_splitext := splitext;
     os_makedirs := λ w _, (w, Ok ());
     shutil_copy2 := copy2;
     Image_open := open;
     Image_save := λ w img p options, (<[p := Encoded img options]> w, Ok ()) |}.

(** A 2x1 opaque RGBA raster, the same raster with a clear alpha band, and a
    palette raster. *)
Definition opaque_rgba : image :=
  {| mode := "RGBA"; size := (2, 1); info := ∅;
     data := [[10; 20; 30; 255]; [40; 50; 60; 255]] |}.

Definition clear_rgba : image :=
  {| mode := "RGBA"; size := (2, 1); info := ∅;
     data := [[10; 20; 30; 0]; [40; 50; 60; 0]] |}.

Definition palette_image : image :=
  {| mode := "P"; size := (2, 1); info := ∅; data := [[0]; [1]] |}.

Definition rgb_image : image :=
  {| mode := "RGB"; size := (2, 1); info := ∅;
     data := [[10; 20; 30]; [40; 50; 60]] |}.

(** The header of a 4000x3000 raster; the pixels are left out. *)
Definition large_image : image :=
  {| mode := "RGB"; size := (4000, 3000); info := ∅; data := [] |}.

(** A file system with one encoded image and one file that is not an image. *)
Definition disk : gmap string file :=
  {[ "in/photo.png" := Encoded opaque_rgba no_options;
     "in/notes.txt" := Bytes [104; 105] ]}.

Definition settings : config :=
  {| photo_quality := Some (PyInt 60); max_photo_width := None;
     max_photo_height := None; image_preset := None |}.

(** Settings whose quality is not a number. *)
Definition broken_settings : config :=
  {| photo_quality := Some (PyStr "abc"); max_photo_width := None;
     max_photo_height := None; image_preset := None |}.

End Model.

(** ** What the properties assume of Pillow and of the platform *)

(** An [RGBA] raster: every pixel has its four bands. *)
Definition rgba_image (img : image) : Prop :=
  mode img = "RGBA" ∧ Forall (λ px : list Z, length px = 4%nat) (data img).

(** The raster has as many pixels as its size says. *)
Definition full_raster (img : image) : Prop :=
  length (data img) = Z.to_nat (fst (size img) * snd (size img)).

(** Every pixel has alpha [a]. *)
Definition uniform_alpha (a : Z) (img : image) : Prop :=
  Forall (λ px : list Z, px !! 3%nat = Some a) (data img).

(** [convert] to the image's own mode returns a copy. *)
Definition convert_same_mode (pil : Pillow) : Prop :=
  ∀ img, pil_convert img (mode img) = Ok img.

(** [convert('RGB')] of an [RGBA] image keeps the colour bands and drops
    the alpha band. *)
Definition convert_drops_alpha (pil : Pillow) : Prop :=
  ∀ img, mode img = "RGBA" →
    ∃ out, pil_convert img "RGB" = Ok out
           ∧ mode out = "RGB" ∧ size out = size img
           ∧ data out = take 3 <$> data img.

(** Compositing a fully transparent image over [dst] leaves [dst]: the
    "over" operator weighs the source by its alpha. *)
Definition composite_clear_source (pil : Pillow) : Prop :=
  ∀ dst src,
    mode dst = "RGBA" → mode src = "RGBA" → size dst = size src →
    length (data dst) = length (data src) → uniform_alpha 0 src →
    pil_alpha_composite dst src = Ok dst.

(** What [resize] returns has the size it was asked for. *)
Definition resize_gives_size (pil : Pillow) : Prop :=
  ∀ img sz filter out, pil_resize img sz filter = Ok out → size out = sz.

(** [resize] to a size with positive sides succeeds and keeps the bands. *)
Definition resize_keeps_rgba (pil : Pillow) : Prop :=
  ∀ img sz filter, rgba_image img → 0 < fst sz → 0 < snd sz →
    ∃ out, pil_resize img sz filter = Ok out ∧ rgba_image out.

(** ** Rocq's primitive binary64 numbers

    The expressions of the engine that round, written with the primitive
    floating-point operations of the kernel, to compare [rnd64] with. *)

Module Binary64.

(** The rational a finite binary64 number denotes. *)
Definition exact (x : float) : option Q :=
  match Prim2SF x with
  | S754_zero _ => Some 0%Q
  | S754_finite s m e =>
      Some (Qred ((if s then -1 else 1) * inject_Z (Z.pos m) * 2 ^ e))
  | _ => None
  end.

(** [denotes x q]: [x] is finite and its value is [q]. *)
Definition denotes (x : float) (q : Q) : bool :=
  match exact x with
  | Some r => Qeq_bool r q
  | None => false
  end.

(** [float(z)] for [0 <= z < 2^63] *)
Definition of_int (z : Z) : float := PrimFloat.of_uint63 (Uint63.of_Z z).

(** [16 + (photo_quality / 70.0) * (256 - 16)] *)
Definition colors_expr (photo_quality : Z) : float :=
  (16 + (of_int photo_quality / 70) * 240)%float.

(** [side * (bound / side)] *)
Definition scaled_side (side bound : Z) : float :=
  (of_int side * (of_int bound / of_int side))%float.

End Binary64.

(** ** The sides the engine asks [resize] for

    The size [_resize_if_needed] computes, as the code computes it: the
    conversions, the two quotients and the two products each rounded to
    binary64. *)
Definition binary64_resize_dims (width height max_width max_height : Z) : Z * Z :=
  let ratio := Qmin (rnd64 (inject_Z max_width / inject_Z width))
                    (rnd64 (inject_Z max_height / inject_Z height)) in
  (Qfloor (rnd64 (rnd64 (inject_Z width) * ratio)),
   Qfloor (rnd64 (rnd64 (inject_Z height) * ratio))).

(** ** The spec's formulas, in its own words *)

(** [clamp(x, lo, hi)] *)
Definition clamp (x lo hi : Z) : Z := Z.max lo (Z.min hi x).

(** The nearest integer. *)
Definition round_nearest (x : Q) : Z := Qfloor (x + (1 # 2)).

(** §4.6: [colors = clamp(round(16 + (quality/70)*(256-16)), 16, 256)]. *)
Definition spec_png_colors (quality : Z) : Z :=
  clamp (round_nearest (16 + (inject_Z quality / 70) * (256 - 16))) 16 256.

(** §4.2: [ratio = min(maxWidth/width, maxHeight/height)],
    [newWidth = floor(width*ratio)], [newHeight = floor(height*ratio)],
    over the rationals. *)
Definition spec_ratio (width height maxWidth maxHeight : Z) : Q :=
  Qmin (inject_Z maxWidth / inject_Z width) (inject_Z maxHeight / inject_Z height).

Definition spec_resize_dims (width height maxWidth maxHeight : Z) : Z * Z :=
  let ratio := spec_ratio width height maxWidth maxHeight in
  (Qfloor (inject_Z width * ratio), Qfloor (inject_Z height * ratio)).

(** ** Quantities the properties speak of *)

(** Options an encoder can be asked for: a quality between 0 and 100, the
    compress levels 6 and 9, the method 6. *)
Definition sane_options (o : save_options) : Prop :=
  (∀ q, opt_quality o = Some q → 0 ≤ q ≤ 100)
  ∧ (∀ l, opt_compress_level o = Some l → l = 6 ∨ l = 9)
  ∧ (∀ m, opt_method o = Some m → m = 6).

(** The per-pixel quantities [_compute_image_diff_stats] accumulates, for
    two pixels of four bands: the sum of the absolute band differences and
    whether one of them exceeds 24. *)
Definition band_diff (pa pb : list Z) (i : nat) : Z :=
  Z.abs (nth i pa 0 - nth i pb 0).

Definition pixel_diff (pa pb : list Z) : Z :=
  band_diff pa pb 0 + band_diff pa pb 1 + band_diff pa pb 2 + band_diff pa pb 3.

Definition pixel_high (pa pb : list Z) : bool :=
  existsb (λ i, band_diff pa pb i >? 24) [0; 1; 2; 3]%nat.

(** Their totals over the pixels two rasters have in common. *)
Fixpoint total_diff (data_a data_b : list (list Z)) : Z :=
  match data_a, data_b with
  | pa :: data_a, pb :: data_b => pixel_diff pa pb + total_diff data_a data_b
  | _, _ => 0
  end.

Fixpoint high_pixels (data_a data_b : list (list Z)) : Z :=
  match data_a, data_b with
  | pa :: data_a, pb :: data_b =>
      (if pixel_high pa pb then 1 else 0) + high_pixels data_a data_b
  | _, _ => 0
  end.

(** A raster of four 8-bit bands. *)
Definition eight_bit_rgba (d : list (list Z)) : Prop :=
  Forall (λ px : list Z, length px = 4%nat ∧ Forall (λ v, 0 ≤ v ≤ 255) px) d.

(** The number of pixels compared. *)
Definition common_pixels (data_a data_b : list (list Z)) : Z :=
  Z.min (Z.of_nat (length data_a)) (Z.of_nat (length data_b)).

(** ** The FFmpeg manager: [ffmpeg_manager.py]

    The manager looks for a working [ffmpeg] executable and downloads one
    with resumption.  Its file system is a finite map from the paths of
    regular files to their contents; the network has a state of its own,
    since the same request can be answered differently at different times.
    Both are threaded through the calls. *)

Abbreviation bytes := (list Z).
Abbreviation files := (gmap string bytes).

(** An HTTP response: its headers and what the successive calls
    [resp.read(n)] give, a chunk or an exception.  Past the end of the list
    the stream is at its end and [read] returns [b'']. *)
Record response : Type := Response {
  getheader : string → option string;
  body : list (result bytes);
}.

(** What the manager asks of the machine it runs on. *)
Class Host := {
  net : Type;
  sys_platform : string;
  (** [os.sep] *)
  os_sep : string;
  (** [self.default_ffmpeg_path], the [ffmpeg.exe] of the application's
      [bin] directory *)
  default_ffmpeg_path : string;
  (** [shutil.which(cmd)] *)
  shutil_which : files → string → option string;
  (** [subprocess.run(args, timeout=5)]: the return code of the process,
      or the exception the call raises (no such program, a timeout) *)
  subprocess_run : files → list string → result Z;
  (** [urllib.request.urlopen(Request(url, headers=headers), timeout=15)] *)
  urlopen : net → string → gmap string string → net * result response;
  (** The exceptions [os.path.getsize(path)], [open(path, mode)] and
      [f.write(chunk)] raise, if they do. *)
  getsize_error : files → string → option exn;
  open_error : files → string → option exn;
  write_error : files → string → bytes → option exn;
}.

(** [os.path.isfile] and [os.path.exists] on a file system of regular files *)
Definition os_isfile (fs : files) (path : string) : bool :=
  bool_decide (is_Some (fs !! path)).

(** The truth value of an optional string: [None] and [''] are false. *)
Definition str_truthy (s : option string) : bool :=
  match s with
  | Some s => negb (String.eqb s "")
  | None => false
  end.

Section Manager.
Context {py : Python} {host : Host}.

Definition _test_ffmpeg (fs : files) (ffmpeg_path : string) : bool :=
  match subprocess_run fs [ffmpeg_path; "-version"] with
  | Ok returncode => returncode =? 0
  | Raise _ => false
  end.

Definition common_paths : list string :=
  ["C:\ffmpeg\bin\ffmpeg.exe";
   "C:\Program Files\ffmpeg\bin\ffmpeg.exe";
   "C:\Program Files (x86)\ffmpeg\bin\ffmpeg.exe"].

Definition check_ffmpeg (fs : files) (config_path : option string) : bool * option string :=
  if str_truthy config_path && os_isfile fs (default "" config_path)
     && _test_ffmpeg fs (default "" config_path)
  then (true, config_path)
  else if os_isfile fs default_ffmpeg_path && _test_ffmpeg fs default_ffmpeg_path
  then (true, Some default_ffmpeg_path)
  else
    let ffmpeg_in_path := shutil_which fs "ffmpeg" in
    if str_truthy ffmpeg_in_path && _test_ffmpeg fs (default "" ffmpeg_in_path)
    then (true, ffmpeg_in_path)
    else
      match (if String.eqb sys_platform "win32"
             then find (λ path, os_isfile fs path && _test_ffmpeg fs path) common_paths
             else None) with
      | Some path => (true, Some path)
      | None => (false, None)
      end.

(** The first lines of [_download_with_resume]: the size of what is already
    at [dst]. *)
Definition existing_size (fs : files) (dst : string) : Z :=
  match fs !! dst with
  | Some content =>
      match getsize_error fs dst with
      | None => Z.of_nat (length content)
      | Some _ => 0
      end
  | None => 0
  end.

Definition request_headers (existing : Z) : gmap string string :=
  if existing >? 0 then {[ "Range" := "bytes=" +:+ pretty existing +:+ "-" ]} else ∅.

(** [total], the parsed [Content-Length] header. *)
Definition content_length (resp : response) : option Z :=
  let total := getheader resp "Content-Length" in
  if str_truthy total then
    match py_int (PyStr (default "" total)) with
    | Ok total => Some total
    | Raise _ => None
    end
  else None.

(** [open(dst, mode)] with mode ['ab'] when [append], else ['wb']. *)
Definition open_for_writing (fs : files) (dst : string) (append : bool) : result files :=
  match open_error fs dst with
  | Some e => Raise e
  | None =>
      Ok (if append then <[dst := default [] (fs !! dst)]> fs else <[dst := []]> fs)
  end.

(** The loop [while True] of [_download_with_resume].  [reports] lists the
    calls made to the progress callback, oldest first; what the callback
    raises is dropped. *)
Fixpoint download_loop (dst : string) (progress_callback : option (Z → Z → result unit))
    (total_all : option Z) (chunks : list (result bytes))
    (fs : files) (downloaded : Z) (reports : list (Z * Z))
  : files * list (Z * Z) * result unit :=
  match chunks with
  | [] => (fs, reports, Ok tt)
  | Raise e :: _ => (fs, reports, Raise e)
  | Ok chunk :: chunks =>
      if bool_decide (chunk = []) then (fs, reports, Ok tt)
      else
        match write_error fs dst chunk with
        | Some e => (fs, reports, Raise e)
        | None =>
            let fs := <[dst := (default [] (fs !! dst) ++ chunk)%list]> fs in
            let downloaded := downloaded + Z.of_nat (length chunk) in
            let reports :=
              match progress_callback, total_all with
              | Some callback, Some total_all =>
                  if total_all =? 0 then reports
                  else
                    match callback downloaded total_all with
                    | Ok _ => (reports ++ [(downloaded, total_all)])%list
                    | Raise _ => (reports ++ [(downloaded, total_all)])%list
                    end
              | _, _ => reports
              end in
            download_loop dst progress_callback total_all chunks fs downloaded reports
        end
  end.

(** The file system and the network [_download_with_resume] leaves, the
    calls it made to the progress callback, and the value it returns. *)
Definition _download_with_resume (fs : files) (nt : net) (url dst : string)
    (progress_callback : option (Z → Z → result unit))
  : files * net * list (Z * Z) * bool :=
  let existing := existing_size fs dst in
  let headers := request_headers existing in
  match urlopen nt url headers with
  | (nt, Raise _) => (fs, nt, [], false)
  | (nt, Ok resp) =>
      let total := content_length resp in
      let total_all := (λ total, existing + total) <$> total in
      let downloaded := existing in
      match open_for_writing fs dst (existing >? 0) with
      | Raise _ => (fs, nt, [], false)
      | Ok fs =>
          match download_loop dst progress_callback total_all (body resp)
                  fs downloaded [] with
          | (fs, reports, Ok _) => (fs, nt, reports, true)
          | (fs, reports, Raise _) => (fs, nt, reports, false)
          end
      end
  end.

(** An entry of a ZIP archive, [zipfile.ZipInfo] with the data it names. *)
Record zip_info : Type := ZipInfo {
  filename : string;
  file_data : bytes;
}.

(** [s.replace('\\', sep)] *)
Fixpoint replace_backslash (sep s : string) : string :=
  match s with
  | EmptyString => EmptyString
  | String c rest =>
      (if Ascii.eqb c "\" then sep else String c EmptyString) +:+ replace_backslash sep rest
  end.

(** [s.endswith(suffix)] *)
Definition endswith (s suffix : string) : bool :=
  String.prefix (String.rev suffix) (String.rev s).

Definition names_ffmpeg (file_info : zip_info) : bool :=
  endswith (replace_backslash os_sep (filename file_info)) "ffmpeg.exe".

Definition names_ffprobe (file_info : zip_info) : bool :=
  endswith (replace_backslash os_sep (filename file_info)) "ffprobe.exe".

(** The loop over [zip_ref.filelist] that opens [_extract_ffmpeg_from_zip]:
    the entries it leaves in [ffmpeg_found] and [ffprobe_found]. *)
Fixpoint find_executables (filelist : list zip_info)
    (ffmpeg_found ffprobe_found : option zip_info) : option zip_info * option zip_info :=
  match filelist with
  | [] => (ffmpeg_found, ffprobe_found)
  | file_info :: filelist =>
      if names_ffmpeg file_info then
        find_executables filelist (Some file_info) ffprobe_found
      else if names_ffprobe file_info then
        find_executables filelist ffmpeg_found (Some file_info)
      else find_executables filelist ffmpeg_found ffprobe_found
  end.

(** The test [download_ffmpeg] makes on a cached archive before it asks
    [_extract_ffmpeg_from_zip] to unpack it. *)
Definition archive_has_ffmpeg (filelist : list zip_info) : bool :=
  let names := (λ i, replace_backslash os_sep (filename i)) <$> filelist in
  existsb (λ n, endswith n "ffmpeg.exe") names.

End Manager.

(** The running totals after each chunk of a transfer that starts at
    [downloaded]. *)
Fixpoint progress_points (downloaded : Z) (chunks : list bytes) : list Z :=
  match chunks with
  | [] => []
  | chunk :: chunks =>
      let downloaded := downloaded + Z.of_nat (length chunk) in
      downloaded :: progress_points downloaded chunks
  end.

(** The calls a transfer of [chunks] makes to the progress callback. *)
Definition progress_reports (progress_callback : option (Z → Z → result unit))
    (total_all : option Z) (downloaded : Z) (chunks : list bytes) : list (Z * Z) :=
  match progress_callback, total_all with
  | Some _, Some total_all =>
      if total_all =? 0 then []
      else (λ downloaded, (downloaded, total_all)) <$> progress_points downloaded chunks
  | _, _ => []
  end.

(** No call on the file at [dst] fails. *)
Definition disk_accepts {host : Host} (dst : string) : Prop :=
  ∀ fs, getsize_error fs dst = None ∧ open_error fs dst = None
        ∧ ∀ chunk, write_error fs dst chunk = None.

(** The places [check_ffmpeg] looks at, in its order, each with whether the
    path must name a file, and what makes one of them usable. *)
Definition candidates {host : Host} (fs : files) (config_path : option string)
  : list (string * bool) :=
  ((if str_truthy config_path then [(default "" config_path, true)] else [])
   ++ [(default_ffmpeg_path, true)]
   ++ (if str_truthy (shutil_which fs "ffmpeg")
       then [(default "" (shutil_which fs "ffmpeg"), false)] else [])
   ++ (if String.eqb sys_platform "win32"
       then (λ path, (path, true)) <$> common_paths else []))%list.

Definition usable {host : Host} (fs : files) (candidate : string * bool) : bool :=
  (negb (snd candidate) || os_isfile fs (fst candidate))
  && _test_ffmpeg fs (fst candidate).

(** ** A small machine for the manager, and more sample data

    [Machine] stands in for the host of the manager when it is run inside
    Rocq, as [Model] does for the engine. *)

Module Machine.

(** A program runs when its file holds the single byte 1; another file
    exits with code 1, and a program that is not there cannot be started. *)
Definition run (fs : files) (args : list string) : result Z :=
  match args with
  | program :: _ =>
      match fs !! program with
      | Some [1] => Ok 0
      | Some _ => Ok 1
      | None => Raise FileNotFoundError
      end
  | [] => Raise ValueError
  end.

(** The network is the list of the answers the server gives to the coming
    requests, each a function of the request's headers.  A server that has
    run out of answers refuses the connection. *)
Definition open_url (nt : list (gmap string string → result response))
    (url : string) (headers : gmap string string)
  : list (gmap string string → result response) * result response :=
  match nt with
  | [] => ([], Raise OSError)
  | answer :: nt => (nt, answer headers)
  end.

Definition host : Host :=
  {| net := list (gmap string string → result response);
     sys_platform := "win32";
     os_sep := "\";
     default_ffmpeg_path := "bin\ffmpeg.exe";
     shutil_which := λ _ _, None;
     subprocess_run := run;
     urlopen := open_url;
     getsize_error := λ _ _, None;
     open_error := λ _ _, None;
     write_error := λ _ _ _, None |}.

(** A response with a [Content-Length] header and a body. *)
Definition answer (total : string) (chunks : list (result bytes)) : response :=
  {| getheader := λ name, if String.eqb name "Content-Length" then Some total else None;
     body := chunks |}.

(** A server that drops the connection after three bytes of five and
    serves the rest to a request for the range from byte 3. *)
Definition flaky_server : list (gmap string string → result response) :=
  [λ _, Ok (answer "5" [Ok [1; 2]; Ok [3]; Raise OSError]);
   λ headers,
     if bool_decide (headers !! "Range" = Some "bytes=3-")
     then Ok (answer "2" [Ok [4; 5]])
     else Raise ValueError].

(** A server that delivers five bytes in two chunks. *)
Definition steady_server : list (gmap string string → result response) :=
  [λ _, Ok (answer "5" [Ok [1; 2]; Ok [3; 4; 5]])].

(** A file system where the bundled executable is broken and the one
    under [C:\ffmpeg] works. *)
Definition tools : files :=
  {[ "bin\ffmpeg.exe" := [0]; "C:\ffmpeg\bin\ffmpeg.exe" := [1] ]}.

(** A Pillow without quantizers. *)
Definition bare_pillow : Pillow :=
  {| pil_convert := Model.convert;
     pil_convert_adaptive := λ _ _ _, Raise ValueError;
     pil_quantize := λ _ _ _ _, Raise ValueError;
     pil_resize := Model.resize;
     pil_alpha_composite := Model.alpha_composite;
     pil_paste := Model.paste |}.

(** [Model.opaque_rgba] with one band of one pixel 30 levels off. *)
Definition tinted_rgba : image :=
  {| mode := "RGBA"; size := (2, 1); info := ∅;
     data := [[10; 20; 30; 255]; [40; 50; 90; 255]] |}.

(** What a path can name on a POSIX system, as far as the engine can tell
    the kinds apart: a regular file, or a character device such as
    [/dev/null], which is no regular file and reads as an empty one. *)
Inductive entry : Type :=
  | Regular (f : Model.file)
  | Device.

(** [shutil.copy2]: a device is read to its end, which comes at once. *)
Definition posix_copy2 (w : gmap string entry) (src dst : string)
  : gmap string entry * result unit :=
  match w !! src with
  | None => (w, Raise FileNotFoundError)
  | Some (Regular f) => (<[dst := Regular f]> w, Ok ())
  | Some Device => (<[dst := Regular (Model.Bytes [])]> w, Ok ())
  end.

Definition posix_open (w : gmap string entry) (p : string) : result image :=
  match w !! p with
  | None => Raise FileNotFoundError
  | Some (Regular (Model.Encoded img _)) => Ok img
  | Some _ => Raise UnidentifiedImageError
  end.

Definition posix : Platform :=
  {| world := gmap string entry;
     path_resolve := λ _ p, Ok p;
     os_path_isfile := λ w p, match w !! p with Some (Regular _) => true | _ => false end;
     os_path_dirname := Model.dirname;
     os_path_splitext := Model.splitext;
     os_makedirs := λ w _, (w, Ok ());
     shutil_copy2 := posix_copy2;
     Image_open := posix_open;
     Image_save := λ w img p options, (<[p := Regular (Model.Encoded img options)]> w, Ok ()) |}.

(** A file system with nothing but [/dev/null]. *)
Definition devices : gmap string entry := {[ "/dev/null" := Device ]}.

(** The header of a 2105x1000 raster; the pixels are left out. *)
Definition header_2105 : image :=
  {| mode := "RGB"; size := (2105, 1000); info := ∅; data := [] |}.

(** The header of a 1000x400 RGBA raster; the pixels are left out. *)
Definition wide_rgba : image :=
  {| mode := "RGBA"; size := (1000, 400); info := ∅; data := [] |}.

End Machine.

(** * Properties *)

(** ** Rounding *)

Lemma py_round_error (y : Q) :
  (y - (1 # 2) <= inject_Z (py_round y) <= y + (1 # 2))%Q.
Proof.
  destruct y as [n d]. unfold py_round. simpl.
  pose proof (Z.div_mod n (Z.pos d) ltac:(lia)) as Hdm.
  pose proof (Z.mod_pos_bound n (Z.pos d) ltac:(lia)) as Hr.
  set (f := n / Z.pos d) in *. set (r := n mod Z.pos d) in *.
  assert (Hcases : ∀ m : Z,
            (m = f ∧ 2 * r ≤ Z.pos d) ∨ (m = f + 1 ∧ Z.pos d ≤ 2 * r) →
            ((n # d) - (1 # 2) <= inject_Z m <= (n # d) + (1 # 2))%Q).
  { intros m Hm. unfold Qle, Qminus, Qplus, Qopp, inject_Z. simpl.
    rewrite !Pos2Z.inj_mul. nia. }
  apply Hcases.
  destruct (Z.compare_spec (2 * r) (Z.pos d)); [destruct (Z.even f) | |]; lia.
Qed.

Lemma two_pow_pos (e : Z) : (0 < 2 ^ e)%Q.
Proof. apply Qpower_0_lt. reflexivity. Qed.

(** [n/d] lies above [2^(log2 n - log2 d - 1)]. *)
Lemma log2_quotient_lower (n d : positive) :
  (2 ^ (Z.log2 (Z.pos n) - Z.log2 (Z.pos d) - 1) <= Z.pos n # d)%Q.
Proof.
  pose proof (Z.log2_spec (Z.pos n) ltac:(lia)) as [Hn _].
  pose proof (Z.log2_spec (Z.pos d) ltac:(lia)) as [_ Hd].
  pose proof (Z.log2_nonneg (Z.pos n)) as Ha.
  pose proof (Z.log2_nonneg (Z.pos d)) as Hb.
  set (a := Z.log2 (Z.pos n)) in *. set (b := Z.log2 (Z.pos d)) in *.
  replace (a - b - 1) with (a - Z.succ b) by lia.
  rewrite Qpower_minus by discriminate.
  change (2%Q) with (inject_Z 2). rewrite <- !Zpower_Qpower by lia.
  apply Qle_shift_div_r.
  - change 0%Q with (inject_Z 0). rewrite <- Zlt_Qlt. lia.
  - unfold Qle, Qmult, inject_Z. simpl. nia.
Qed.

(** The significand of a positive number, scaled by its ulp, is at least
    [2^52]. *)
Lemma ulp_exponent_spec (x : Q) :
  (0 < x)%Q → (2 ^ 52 * 2 ^ ulp_exponent x <= x)%Q.
Proof.
  intros Hx. unfold ulp_exponent.
  set (k := Z.log2 (Qnum x) - Z.log2 (Z.pos (Qden x))).
  rewrite <- Qpower_plus by discriminate.
  destruct (Qle_bool (2 ^ k) x) eqn:Htest.
  - apply Qle_bool_iff in Htest. replace (52 + (k - 52)) with k by lia. exact Htest.
  - replace (52 + (k - 1 - 52)) with (k - 1) by lia. unfold k.
    destruct x as [n d]. unfold Qlt in Hx. simpl in Hx.
    destruct n as [| n | n]; try lia. apply log2_quotient_lower.
Qed.

(** [n/d] lies below [2^(log2 n - log2 d + 1)]. *)
Lemma log2_quotient_upper (n d : positive) :
  (Z.pos n # d < 2 ^ (Z.log2 (Z.pos n) - Z.log2 (Z.pos d) + 1))%Q.
Proof.
  pose proof (Z.log2_spec (Z.pos n) ltac:(lia)) as [_ Hn].
  pose proof (Z.log2_spec (Z.pos d) ltac:(lia)) as [Hd _].
  pose proof (Z.log2_nonneg (Z.pos n)) as Ha.
  pose proof (Z.log2_nonneg (Z.pos d)) as Hb.
  set (a := Z.log2 (Z.pos n)) in *. set (b := Z.log2 (Z.pos d)) in *.
  replace (a - b + 1) with (Z.succ a - b) by lia.
  rewrite Qpower_minus by discriminate.
  change (2%Q) with (inject_Z 2). rewrite <- !Zpower_Qpower by lia.
  apply Qlt_shift_div_l.
  - change 0%Q with (inject_Z 0). rewrite <- Zlt_Qlt. lia.
  - unfold Qlt, Qmult, inject_Z. simpl. nia.
Qed.

(** The significand of a positive number, scaled by its ulp, is below
    [2^53]: the rounding keeps 53 bits and no more. *)
Lemma ulp_exponent_upper (x : Q) :
  (0 < x)%Q → (x < 2 ^ 53 * 2 ^ ulp_exponent x)%Q.
Proof.
  intros Hx. unfold ulp_exponent.
  set (k := Z.log2 (Qnum x) - Z.log2 (Z.pos (Qden x))).
  rewrite <- Qpower_plus by discriminate.
  destruct (Qle_bool (2 ^ k) x) eqn:Htest.
  - replace (53 + (k - 52)) with (k + 1) by lia. unfold k.
    destruct x as [n d]. unfold Qlt in Hx. simpl in Hx.
    destruct n as [| n | n]; try lia. apply log2_quotient_upper.
  - replace (53 + (k - 1 - 52)) with k by lia.
    apply Qnot_le_lt. intros Hle. apply Qle_bool_iff in Hle. congruence.
Qed.

Lemma rnd64_pos_error (x : Q) :
  (0 < x)%Q →
  (x * (1 - unit_roundoff) <= rnd64_pos x <= x * (1 + unit_roundoff))%Q.
Proof.
  intros Hx. unfold rnd64_pos. rewrite Qred_correct.
  pose proof (ulp_exponent_spec x Hx) as He.
  pose proof (two_pow_pos (ulp_exponent x)) as Hp.
  set (p := (2 ^ ulp_exponent x)%Q) in *.
  assert (Hp0 : ¬ (p == 0)%Q) by (intros Hz; rewrite Hz in Hp; exact (Qlt_irrefl _ Hp)).
  set (y := (x / p)%Q).
  assert (Hxy : (x == y * p)%Q) by (unfold y; field; exact Hp0).
  assert (Hy : (2 ^ 52 <= y)%Q) by (unfold y; apply Qle_shift_div_l; assumption).
  change (2 ^ 52)%Q with 4503599627370496%Q in Hy.
  pose proof (py_round_error y) as [Hlo Hhi].
  set (m := inject_Z (py_round y)) in *.
  assert (Hm : (y * (1 - unit_roundoff) <= m <= y * (1 + unit_roundoff))%Q)
    by (unfold unit_roundoff; split; lra).
  destruct Hm as [Hm1 Hm2].
  assert (Elo : (x * (1 - unit_roundoff) == y * (1 - unit_roundoff) * p)%Q)
    by (rewrite Hxy; ring).
  assert (Ehi : (x * (1 + unit_roundoff) == y * (1 + unit_roundoff) * p)%Q)
    by (rewrite Hxy; ring).
  rewrite Elo, Ehi.
  split; apply Qmult_le_compat_r; first [assumption | apply Qlt_le_weak, Hp].
Qed.

Lemma rnd64_zero (x : Q) : (x == 0)%Q → rnd64 x = 0%Q.
Proof.
  destruct x as [n d]. unfold Qeq, rnd64. simpl. intros Hn.
  replace n with 0 by lia. reflexivity.
Qed.

(** Rounding moves a number that is not negative by at most the unit
    roundoff, relatively. *)
Lemma rnd64_error (x : Q) :
  (0 <= x)%Q →
  (x * (1 - unit_roundoff) <= rnd64 x <= x * (1 + unit_roundoff))%Q.
Proof.
  intros Hx. destruct x as [n d]. unfold rnd64. simpl.
  destruct n as [| n | n].
  - split; unfold Qle; simpl; lia.
  - apply rnd64_pos_error. reflexivity.
  - unfold Qle in Hx. simpl in Hx. lia.
Qed.

Lemma rnd64_positive (x : Q) : (0 < x)%Q → (0 < rnd64 x)%Q.
Proof.
  intros Hx. destruct (rnd64_error x (Qlt_le_weak _ _ Hx)) as [Hlo _].
  apply Qlt_le_trans with (x * (1 - unit_roundoff))%Q; [| exact Hlo].
  apply Qmult_lt_0_compat; [exact Hx | reflexivity].
Qed.

Lemma rnd64_nonneg (x : Q) : (0 <= x)%Q → (0 <= rnd64 x)%Q.
Proof.
  intros Hx. destruct (rnd64_error x Hx) as [Hlo _].
  apply Qle_trans with (x * (1 - unit_roundoff))%Q; [| exact Hlo].
  apply Qmult_le_0_compat; [exact Hx | discriminate].
Qed.

Lemma py_lt_spec (a b : Q) : py_lt a b = true ↔ (a < b)%Q.
Proof. unfold py_lt, Qlt. apply Z.ltb_lt. Qed.

Lemma py_lt_false (a b : Q) : py_lt a b = false ↔ (b <= a)%Q.
Proof. unfold py_lt, Qle. rewrite Z.ltb_ge. reflexivity. Qed.

Lemma py_min_Qmin (a b : Q) : py_min a b = Qmin a b.
Proof.
  unfold py_min, Qmin, GenericMinMax.gmin.
  destruct (py_lt b a) eqn:Hlt.
  - apply py_lt_spec in Hlt. apply Qgt_alt in Hlt. rewrite Hlt. reflexivity.
  - apply py_lt_false in Hlt.
    destruct (a ?= b)%Q eqn:Hcmp; [reflexivity | reflexivity |].
    exfalso. exact (proj1 (Qle_alt a b) Hlt Hcmp).
Qed.

Lemma py_int_of_float_floor (x : Q) : (0 <= x)%Q → py_int_of_float x = Qfloor x.
Proof.
  destruct x as [n d]. unfold py_int_of_float, Qfloor, Qle. simpl. intros Hn.
  apply Z.quot_div_nonneg; lia.
Qed.

Lemma inject_Z_pos (z : Z) : 0 < z → (0 < inject_Z z)%Q.
Proof. unfold Qlt. simpl. lia. Qed.

Lemma inject_Z_nonneg (z : Z) : 0 ≤ z → (0 <= inject_Z z)%Q.
Proof. unfold Qle. simpl. lia. Qed.

Lemma py_float_positive (z : Z) : 0 < z → (0 < py_float z)%Q.
Proof. intros Hz. apply rnd64_positive, inject_Z_pos, Hz. Qed.

(** A check that holds on every element of a range holds on each. *)
Lemma forallb_seqZ (P : Z → bool) (lo n x : Z) :
  forallb P (seqZ lo n) = true → lo ≤ x < lo + n → P x = true.
Proof.
  intros Hall Hx. rewrite forallb_forall in Hall.
  apply Hall, list_elem_of_In, elem_of_seqZ, Hx.
Qed.

(** ** Encoding parameters *)

Lemma rnd64_nonpos (x : Q) : (x <= 0)%Q → (rnd64 x <= 0)%Q.
Proof.
  intros Hx. destruct x as [n d]. unfold rnd64. simpl.
  destruct n as [| n | n].
  - apply Qle_refl.
  - unfold Qle in Hx. simpl in Hx. lia.
  - rewrite Qred_correct.
    destruct (rnd64_pos_error (- (Z.neg n # d)) ltac:(reflexivity)) as [Hlo _].
    assert (H0 : (0 <= - (Z.neg n # d) * (1 - unit_roundoff))%Q)
      by (apply Qmult_le_0_compat; discriminate).
    lra.
Qed.

(** Rounding keeps a number that is at most 16 below 16.5. *)
Lemma rnd64_below (x : Q) : (x <= 16)%Q → (rnd64 x < 33 # 2)%Q.
Proof.
  intros Hx. destruct (Qlt_le_dec 0 x) as [Hpos | Hneg].
  - destruct (rnd64_error x (Qlt_le_weak _ _ Hpos)) as [_ Hhi].
    unfold unit_roundoff in Hhi. lra.
  - pose proof (rnd64_nonpos x Hneg). lra.
Qed.

Lemma Qmult_nonpos_nonneg (a b : Q) : (a <= 0)%Q → (0 <= b)%Q → (a * b <= 0)%Q.
Proof.
  destruct a as [n d], b as [m e]. unfold Qle, Qmult. simpl. nia.
Qed.

(** Below quality 0 the computed palette size is the lower clamp bound. *)
Lemma png_colors_negative (q : Z) : q < 0 → png_colors q = 16.
Proof.
  intros Hq. unfold png_colors.
  assert (Ha : (py_float q <= 0)%Q).
  { apply rnd64_nonpos. unfold Qle. simpl. lia. }
  assert (Hb : (fdiv (py_float q) 70 <= 0)%Q).
  { apply rnd64_nonpos, Qmult_nonpos_nonneg; [exact Ha | discriminate]. }
  assert (Hc : (py_fmul (fdiv (py_float q) 70) (py_float (256 - 16)) <= 0)%Q).
  { apply rnd64_nonpos, Qmult_nonpos_nonneg; [exact Hb | discriminate]. }
  set (c := py_fmul _ _) in *.
  assert (Hd : (py_fadd (py_float 16) c < 33 # 2)%Q).
  { apply rnd64_below. change (py_float 16) with 16%Q. lra. }
  set (d := py_fadd _ _) in *.
  destruct (py_round_error d) as [_ Hround].
  assert (Hr : (inject_Z (py_round d) < inject_Z 17)%Q).
  { change (inject_Z 17) with 17%Q. lra. }
  rewrite <- Zlt_Qlt in Hr. lia.
Qed.

Lemma spec_png_colors_negative (q : Z) : q < 0 → spec_png_colors q = 16.
Proof.
  intros Hq. unfold spec_png_colors, clamp, round_nearest.
  set (x := (16 + inject_Z q / 70 * (256 - 16) + (1 # 2))%Q).
  assert (Hx : (x < 16)%Q).
  { unfold x, Qlt, Qdiv, Qplus, Qminus, Qmult, Qinv, Qopp, inject_Z. simpl. lia. }
  pose proof (Qfloor_le x) as Hfloor.
  assert (Hr : (inject_Z (Qfloor x) < inject_Z 16)%Q).
  { change (inject_Z 16) with 16%Q. lra. }
  rewrite <- Zlt_Qlt in Hr. lia.
Qed.

(** The palette size the code computes in binary64 is the one the spec's
    formula gives in exact arithmetic: below 0 both are 16, and from 0 to
    100 the two are evaluated side by side. *)
Lemma png_colors_spec (q : Z) : q ≤ 100 → png_colors q = spec_png_colors q.
Proof.
  intros Hq. destruct (Z.lt_ge_cases q 0) as [Hneg | Hpos].
  - rewrite png_colors_negative, spec_png_colors_negative by exact Hneg. reflexivity.
  - apply Z.eqb_eq.
    apply (forallb_seqZ (λ q, png_colors q =? spec_png_colors q) 0 101); [| lia].
    vm_compute. reflexivity.
Qed.

Section Encoding.
Context {pil : Pillow} {os : Platform}.

(** C1. Under the preset Custom the PNG encode uses compress level 6 and the
    image as it is when the quality is at least 90, compress level 9 and the
    image as it is when the quality is between 70 and 89, and below 70
    compress level 9 and the outcome of the palette quantization attempt with
    [clamp(round(16 + (q/70)*(256-16)), 16, 256)] colours and no dithering. *)
Theorem save_png_custom (w : world) (img : image) (target_path : string) (q : Z) :
  (90 ≤ q →
     _save_png w img target_path q PRESET_CUSTOM
     = Image_save w img target_path (png_options 6))
  ∧ (70 ≤ q < 90 →
     _save_png w img target_path q PRESET_CUSTOM
     = Image_save w img target_path (png_options 9))
  ∧ (q < 70 →
     _save_png w img target_path q PRESET_CUSTOM
     = Image_save w (_maybe_quantize_png img (spec_png_colors q) NONE)
         target_path (png_options 9)).
Proof.
  unfold _save_png.
  change (String.eqb PRESET_CUSTOM PRESET_CLARITY_FIRST) with false.
  change (String.eqb PRESET_CUSTOM PRESET_COMPRESSION_FIRST) with false.
  cbv iota.
  destruct (Z.geb_spec q 90) as [H90 | H90];
    destruct (Z.geb_spec q 70) as [H70 | H70];
    repeat split; intros; first [reflexivity | lia | idtac].
  rewrite png_colors_spec by lia. reflexivity.
Qed.

(** C5. The JPEG encode runs at quality [min(q, 75)] under CompressionFirst,
    [max(q, 92)] under ClarityFirst and [q] under Custom; so quality 95
    becomes 75 under CompressionFirst and 50 becomes 92 under ClarityFirst. *)
Theorem save_jpeg_quality (w : world) (img : image) (target_path : string) (q : Z) :
  _save_jpeg w img target_path q PRESET_COMPRESSION_FIRST
    = jpeg_encode w img target_path (Z.min q 75)
  ∧ _save_jpeg w img target_path q PRESET_CLARITY_FIRST
    = jpeg_encode w img target_path (Z.max q 92)
  ∧ _save_jpeg w img target_path q PRESET_CUSTOM
    = jpeg_encode w img target_path q
  ∧ _save_jpeg w img target_path 95 PRESET_COMPRESSION_FIRST
    = jpeg_encode w img target_path 75
  ∧ _save_jpeg w img target_path 50 PRESET_CLARITY_FIRST
    = jpeg_encode w img target_path 92.
Proof. repeat split; reflexivity. Qed.

End Encoding.

(** ** Quality, quantization and the acceptance decision *)

Section Decisions.
Context {py : Python} {pil : Pillow}.

(** C10. Whatever value is configured for [photo_quality], the quality
    [compress] works with is an integer between 0 and 100; a value that
    [int] rejects gives 0, the lower bound, and not the default 85. *)
Theorem effective_photo_quality_range (cfg : config) :
  0 ≤ effective_photo_quality cfg ≤ 100
  ∧ (∀ v e, photo_quality cfg = Some v → py_int v = Raise e →
       effective_photo_quality cfg = 0 ∧ effective_photo_quality cfg ≠ 85).
Proof.
  unfold effective_photo_quality, _clamp_int. split; [lia |].
  intros v e Hv He. rewrite Hv. simpl. rewrite He. split; lia.
Qed.

(** C8. Quantizing an image that is already in palette mode returns the
    image itself, whatever the colour count and the dither mode. *)
Theorem maybe_quantize_png_palette (img : image) (colors : Z) (dither_mode : dither) :
  mode img = "P" → _maybe_quantize_png img colors dither_mode = img.
Proof. unfold _maybe_quantize_png. intros ->. reflexivity. Qed.

(** C2. The decision accepts exactly when the mean absolute error is at
    most 6.0 and the high-difference percentage is at most 2.0; it reports
    the statistics the comparison computed, and when the comparison raises
    it is the rejection with [mae = 999.0] and [high_pct = 100.0]. *)
Theorem should_accept_png8_decision (original_img png8_img : image) :
  let d := _should_accept_png8 original_img png8_img in
  (accept d = true ↔ (mae d <= 6)%Q ∧ (high_pct d <= 2)%Q)
  ∧ (∀ m h, compare_images original_img png8_img = Ok (m, h) →
       mae d = m ∧ high_pct d = h)
  ∧ (∀ e, compare_images original_img png8_img = Raise e →
       d = {| accept := false; mae := 999; high_pct := 100 |}).
Proof.
  unfold _should_accept_png8.
  destruct (compare_images original_img png8_img) as [[m h] | e]; simpl.
  - split; [| split; [intros ? ? [= <- <-]; done | intros ? [=]]].
    destruct (py_lt 6 m) eqn:Hm, (py_lt 2 h) eqn:Hh;
      try apply py_lt_spec in Hm; try apply py_lt_false in Hm;
      try apply py_lt_spec in Hh; try apply py_lt_false in Hh; simpl;
      split; try discriminate; try tauto;
      intros [Hm' Hh']; exfalso;
      first [exact (Qlt_not_le _ _ Hm Hm') | exact (Qlt_not_le _ _ Hh Hh')].
  - split; [| split; [intros ? ? [=] | reflexivity]].
    split; [discriminate |]. intros [Hm _]. exfalso. revert Hm. apply Qlt_not_le. reflexivity.
Qed.

End Decisions.

(** ** Resizing *)

Lemma py_truediv_nonzero (a b : Z) :
  b ≠ 0 → py_truediv a b = Ok (rnd64 (inject_Z a / inject_Z b)).
Proof. intros Hb. unfold py_truediv. destruct (Z.eqb_spec b 0); [contradiction | reflexivity]. Qed.

(** Scaling a positive side [s] by a ratio that is at most the rounded
    [m/s] and not negative gives, after the roundings of the conversion, the
    quotient and the product, a length between 0 and [m]. *)
Lemma scaled_side_bound (s m : Z) (ratio : Q) :
  0 < s → 0 ≤ m ≤ 2 ^ 51 →
  (0 <= ratio)%Q → (ratio <= rnd64 (inject_Z m / inject_Z s))%Q →
  (0 <= py_fmul (py_float s) ratio)%Q ∧ Qfloor (py_fmul (py_float s) ratio) ≤ m.
Proof.
  intros Hs [Hm0 Hm1] Hr Hle.
  pose proof (inject_Z_pos s Hs) as HS.
  pose proof (inject_Z_nonneg m Hm0) as HM.
  assert (HM1 : (inject_Z m <= 2251799813685248)%Q)
    by (change 2251799813685248%Q with (inject_Z (2 ^ 51)); rewrite <- Zle_Qle; exact Hm1).
  set (S := inject_Z s) in *. set (M := inject_Z m) in *.
  set (u := unit_roundoff).
  assert (Hu : (0 <= 1 + u)%Q) by discriminate.
  assert (HS0 : ¬ (S == 0)%Q) by (intros Hz; rewrite Hz in HS; exact (Qlt_irrefl _ HS)).
  assert (Hq : (0 <= M / S)%Q)
    by (apply Qle_shift_div_l; [exact HS | rewrite Qmult_0_l; exact HM]).
  destruct (rnd64_error (M / S) Hq) as [_ HR].
  destruct (rnd64_error S (Qlt_le_weak _ _ HS)) as [_ HF].
  fold (py_float s) in HF. fold u in HR, HF.
  assert (HF0 : (0 <= py_float s)%Q) by (apply rnd64_nonneg, Qlt_le_weak, HS).
  assert (Hprod0 : (0 <= py_float s * ratio)%Q) by (apply Qmult_le_0_compat; assumption).
  assert (Hprod : (py_float s * ratio <= M * (1 + u) * (1 + u))%Q).
  { apply Qle_trans with (py_float s * (M / S * (1 + u)))%Q.
    - rewrite !(Qmult_comm (py_float s)).
      apply Qmult_le_compat_r; [| exact HF0].
      apply Qle_trans with (rnd64 (M / S)); assumption.
    - apply Qle_trans with (S * (1 + u) * (M / S * (1 + u)))%Q.
      + apply Qmult_le_compat_r; [exact HF |].
        apply Qmult_le_0_compat; assumption.
      + apply Qle_lteq. right. field. exact HS0. }
  destruct (rnd64_error _ Hprod0) as [_ Hrnd]. fold u in Hrnd.
  assert (Hfinal : (py_fmul (py_float s) ratio < M + 1)%Q).
  { unfold py_fmul. apply Qle_lt_trans with (M * (1 + u) * (1 + u) * (1 + u))%Q.
    - apply Qle_trans with (py_float s * ratio * (1 + u))%Q; [exact Hrnd |].
      apply Qmult_le_compat_r; assumption.
    - unfold u, unit_roundoff. lra. }
  split; [apply rnd64_nonneg, Hprod0 |].
  pose proof (Qfloor_le (py_fmul (py_float s) ratio)) as Hfloor.
  assert (Hlt : (inject_Z (Qfloor (py_fmul (py_float s) ratio)) < inject_Z (m + 1))%Q).
  { rewrite inject_Z_plus. apply Qle_lt_trans with (py_fmul (py_float s) ratio); assumption. }
  rewrite <- Zlt_Qlt in Hlt. lia.
Qed.

(** The call [_resize_if_needed] ends in when the image does not fit. *)
Lemma resize_if_needed_call {pil : Pillow} (img : image) (max_width max_height : Z) :
  let width := fst (size img) in
  let height := snd (size img) in
  ¬ (width ≤ max_width ∧ height ≤ max_height) →
  0 < width → 0 < height → 0 ≤ max_width → 0 ≤ max_height →
  _resize_if_needed img max_width max_height
  = pil_resize img (binary64_resize_dims width height max_width max_height) LANCZOS.
Proof.
  unfold _resize_if_needed. destruct (size img) as [width height]. cbn [fst snd].
  intros Hbig Hw Hh Hmw Hmh.
  assert (Hbranch : (width >? max_width) || (height >? max_height) = true).
  { destruct (Z.gtb_spec width max_width), (Z.gtb_spec height max_height);
      simpl; first [reflexivity | lia]. }
  rewrite Hbranch, !py_truediv_nonzero by lia. cbn [mbind result_bind].
  rewrite py_min_Qmin.
  set (ratio := Qmin (rnd64 (inject_Z max_width / inject_Z width))
                     (rnd64 (inject_Z max_height / inject_Z height))).
  assert (Hpos : (0 <= ratio)%Q).
  { unfold ratio. apply Q.min_glb; apply rnd64_nonneg, Qle_shift_div_l;
      first [apply inject_Z_pos; assumption
            | rewrite Qmult_0_l; apply inject_Z_nonneg; lia]. }
  assert (Hside : ∀ s, 0 < s → (0 <= py_fmul (py_float s) ratio)%Q).
  { intros s Hs. apply rnd64_nonneg, Qmult_le_0_compat; [| exact Hpos].
    apply rnd64_nonneg, inject_Z_nonneg. lia. }
  rewrite !py_int_of_float_floor by (apply Hside; assumption).
  reflexivity.
Qed.

(** ** Flattening to 24-bit RGB *)

Lemma getextrema_replicate (n : nat) (a : Z) (m : string) (sz : Z * Z) (i : gmap string pyval) :
  getextrema {| mode := m; size := sz; info := i; data := replicate (S n) [a] |}
  = Some (a, a).
Proof.
  unfold getextrema. simpl. f_equal.
  assert (Hmin : ∀ k, foldr Z.min a (concat (replicate k [a])) = a)
    by (induction k as [| k IH]; simpl; [reflexivity | rewrite IH; lia]).
  assert (Hmax : ∀ k, foldr Z.max a (concat (replicate k [a])) = a)
    by (induction k as [| k IH]; simpl; [reflexivity | rewrite IH; lia]).
  rewrite Hmin, Hmax. reflexivity.
Qed.

Lemma mapM_uniform_band (a : Z) (d : list (list Z)) :
  Forall (λ px : list Z, px !! 3%nat = Some a) d →
  mapM (λ px : list Z, (λ v, [v]) <$> px !! 3%nat) d = Some (replicate (length d) [a]).
Proof.
  induction 1 as [| px d Hpx _ IH]; [reflexivity |].
  simpl. rewrite Hpx. simpl. rewrite IH. reflexivity.
Qed.

(** The extrema the engine reads from a raster whose alpha is [a]
    everywhere: [(a, a)], or the fallback [(0, 255)] when there is no pixel. *)
Lemma alpha_extrema_uniform (a : Z) (img : image) :
  mode img = "RGBA" → uniform_alpha a img →
  alpha_extrema img = match data img with [] => (0, 255) | _ => (a, a) end.
Proof.
  intros Hmode Hall. unfold alpha_extrema, getchannel. rewrite Hmode. simpl.
  rewrite (mapM_uniform_band a) by exact Hall.
  destruct (data img) as [| px d]; [reflexivity |].
  simpl length. rewrite getextrema_replicate. reflexivity.
Qed.

Lemma foldr_min_max_bounds (v : Z) (vs : list Z) :
  Forall (λ x, foldr Z.min v vs ≤ x ≤ foldr Z.max v vs) (v :: vs).
Proof.
  induction vs as [| y vs IH]; simpl.
  - constructor; [lia | constructor].
  - inversion IH as [| ? ? Hv Hvs]; subst.
    constructor; [lia |]. constructor; [lia |].
    eapply List.Forall_impl; [| exact Hvs]. intros x Hx. cbv beta in Hx. lia.
Qed.

(** The alpha values [getchannel('A')] reads are those of the pixels. *)
Lemma mapM_band_values (d : list (list Z)) (d' : list (list Z)) :
  mapM (λ px : list Z, (λ v, [v]) <$> px !! 3%nat) d = Some d' →
  Forall2 (λ (px : list Z) a, px !! 3%nat = Some a) d (concat d').
Proof.
  revert d'. induction d as [| px d IH]; intros d' H.
  - injection H as <-. constructor.
  - simpl in H. destruct (px !! 3%nat) as [a |] eqn:Hpx; [| discriminate].
    simpl in H. destruct (mapM _ d) as [r |] eqn:Hr; [| discriminate].
    injection H as <-. simpl. constructor; [exact Hpx | apply IH; reflexivity].
Qed.

(** Extrema of (255, 255) are read off a raster only when it has a pixel
    and every pixel has alpha 255. *)
Lemma alpha_extrema_opaque (img : image) :
  mode img = "RGBA" → alpha_extrema img = (255, 255) →
  uniform_alpha 255 img ∧ data img ≠ [].
Proof.
  intros Hmode. unfold alpha_extrema, getchannel. rewrite Hmode. simpl.
  destruct (mapM _ (data img)) as [d' |] eqn:Hd'; [| discriminate].
  apply mapM_band_values in Hd'. unfold getextrema. simpl.
  destruct (concat d') as [| v vs] eqn:Hc; [discriminate |].
  intros [= Hmin Hmax].
  pose proof (foldr_min_max_bounds v vs) as Hb. rewrite Hmin, Hmax in Hb.
  split.
  - unfold uniform_alpha.
    assert (Hall : Forall (λ a, a = 255) (v :: vs))
      by (eapply List.Forall_impl; [| exact Hb]; intros x Hx; cbv beta in Hx; lia).
    clear Hb Hmin Hmax. revert Hd' Hall. generalize (v :: vs). generalize (data img).
    induction 1 as [| px a d l Hpx _ IH]; intros Hall; [constructor |].
    inversion Hall; subst. constructor; [exact Hpx | apply IH; assumption].
  - intros Hnil. rewrite Hnil in Hd'. inversion Hd'.
Qed.

Section Flatten.
Context {pil : Pillow}.

Lemma convert_for_png24_alpha (img rgba : image) :
  mode img ≠ "RGB" → carries_transparency img = true →
  pil_convert img "RGBA" = Ok rgba →
  _convert_for_png24 img =
    if bool_decide (alpha_extrema rgba = (255, 255)) then pil_convert rgba "RGB"
    else
      composited ← pil_alpha_composite
                     (Image_new "RGBA" (size rgba) [255; 255; 255; 255]) rgba;
      pil_convert composited "RGB".
Proof.
  intros Hmode Hcarries Hconv. unfold _convert_for_png24.
  apply String.eqb_neq in Hmode. rewrite Hmode, Hcarries, Hconv. simpl.
  destruct (alpha_extrema rgba) as [lo hi].
  case_bool_decide as Hext.
  - injection Hext as -> ->. reflexivity.
  - destruct (Z.eqb_spec lo 255) as [-> | Hlo], (Z.eqb_spec hi 255) as [-> | Hhi];
      first [reflexivity | contradiction].
Qed.

Lemma rgba_carries_transparency (img : image) :
  mode img = "RGBA" → mode img ≠ "RGB" ∧ carries_transparency img = true.
Proof.
  intros Hmode. unfold carries_transparency. rewrite Hmode. split; [discriminate | reflexivity].
Qed.

(** C6. A true-RGB image passes through unchanged.  An image that carries
    transparency is converted to RGBA.  When that raster has a pixel and
    every pixel has alpha 255, the result is its direct RGB conversion,
    which for an RGBA image keeps the original colour bands.  When it has
    no pixel or a pixel whose alpha is not 255, it is composited over an
    opaque white RGBA background and converted to RGB.  In particular an
    RGBA image whose alpha is 0 everywhere comes out solid white. *)
Theorem convert_for_png24_cases (img : image) :
  (mode img = "RGB" → _convert_for_png24 img = Ok img)
  ∧ (∀ rgba, mode img ≠ "RGB" → carries_transparency img = true →
       pil_convert img "RGBA" = Ok rgba → mode rgba = "RGBA" →
       (uniform_alpha 255 rgba → data rgba ≠ [] →
          _convert_for_png24 img = pil_convert rgba "RGB")
       ∧ (¬ (uniform_alpha 255 rgba ∧ data rgba ≠ []) →
          _convert_for_png24 img =
            composited ← pil_alpha_composite
                           (Image_new "RGBA" (size rgba) [255; 255; 255; 255]) rgba;
            pil_convert composited "RGB"))
  ∧ (convert_same_mode pil → convert_drops_alpha pil →
     mode img = "RGBA" → uniform_alpha 255 img → data img ≠ [] →
       ∃ out, _convert_for_png24 img = Ok out
              ∧ mode out = "RGB" ∧ size out = size img
              ∧ data out = take 3 <$> data img)
  ∧ (convert_same_mode pil → convert_drops_alpha pil → composite_clear_source pil →
     mode img = "RGBA" → full_raster img → uniform_alpha 0 img →
       ∃ out, _convert_for_png24 img = Ok out
              ∧ mode out = "RGB" ∧ size out = size img
              ∧ data out = replicate (length (data img)) [255; 255; 255]).
Proof.
  assert (Hopaque : ∀ rgba, mode rgba = "RGBA" → uniform_alpha 255 rgba → data rgba ≠ [] →
                    alpha_extrema rgba = (255, 255)).
  { intros rgba Hm Hu Hne. rewrite (alpha_extrema_uniform 255 rgba Hm Hu).
    destruct (data rgba); [contradiction | reflexivity]. }
  split; [| split; [| split]].
  - intros Hmode. unfold _convert_for_png24. rewrite Hmode. reflexivity.
  - intros rgba Hmode Hcarries Hconv Hrgba.
    rewrite (convert_for_png24_alpha img rgba Hmode Hcarries Hconv).
    split.
    + intros Hu Hne. rewrite bool_decide_eq_true_2 by (apply Hopaque; assumption).
      reflexivity.
    + intros Hnot. rewrite bool_decide_eq_false_2; [reflexivity |].
      intros Hext. apply Hnot, alpha_extrema_opaque; assumption.
  - intros Hsame Hdrop Hmode Hu Hne.
    destruct (rgba_carries_transparency img Hmode) as [Hnrgb Hcarries].
    assert (Hconv : pil_convert img "RGBA" = Ok img) by (rewrite <- Hmode; apply Hsame).
    rewrite (convert_for_png24_alpha img img Hnrgb Hcarries Hconv).
    rewrite bool_decide_eq_true_2 by (apply Hopaque; assumption).
    exact (Hdrop img Hmode).
  - intros Hsame Hdrop Hclear Hmode Hfull Hzero.
    destruct (rgba_carries_transparency img Hmode) as [Hne Hcarries].
    assert (Hconv : pil_convert img "RGBA" = Ok img) by (rewrite <- Hmode; apply Hsame).
    rewrite (convert_for_png24_alpha img img Hne Hcarries Hconv).
    rewrite bool_decide_eq_false_2.
    2:{ rewrite (alpha_extrema_uniform 0 img Hmode Hzero). destruct (data img); discriminate. }
    set (background := Image_new "RGBA" (size img) [255; 255; 255; 255]).
    rewrite (Hclear background img); [| reflexivity | exact Hmode | reflexivity | | exact Hzero].
    2:{ unfold background, Image_new. simpl. rewrite length_replicate. symmetry. exact Hfull. }
    simpl. destruct (Hdrop background eq_refl) as (out & Hout & Hm & Hs & Hd).
    exists out. split; [exact Hout |]. split; [exact Hm |]. split; [exact Hs |].
    rewrite Hd. unfold background, Image_new. simpl.
    rewrite fmap_replicate. rewrite <- Hfull. reflexivity.
Qed.

End Flatten.

(** ** Comparing an image with itself *)

Lemma band_four (px : list Z) (i : nat) :
  length px = 4%nat → (i < 4)%nat → ∃ v, band px i = Ok v.
Proof.
  intros Hlen Hi. unfold band.
  destruct (px !! i) as [v |] eqn:Hpx; [eauto |].
  apply lookup_ge_None in Hpx. lia.
Qed.

Lemma diff_loop_self (d : list (list Z)) (sum_abs high_count : Z) :
  Forall (λ px : list Z, length px = 4%nat) d →
  diff_loop d d sum_abs high_count = Ok (sum_abs, high_count).
Proof.
  intros Hd. revert sum_abs high_count.
  induction Hd as [| px d Hpx _ IH]; intros sum_abs high_count; [reflexivity |].
  simpl.
  destruct (band_four px 0 Hpx ltac:(lia)) as [v0 ->].
  destruct (band_four px 1 Hpx ltac:(lia)) as [v1 ->].
  destruct (band_four px 2 Hpx ltac:(lia)) as [v2 ->].
  destruct (band_four px 3 Hpx ltac:(lia)) as [v3 ->].
  simpl. rewrite !Z.sub_diag. simpl. rewrite Z.add_0_r. apply IH.
Qed.

Lemma py_fdiv_nonzero (a b : Q) : ¬ (b == 0)%Q → py_fdiv a b = Ok (fdiv a b).
Proof.
  intros Hb. unfold py_fdiv.
  destruct (Qeq_bool b 0) eqn:Hq; [| reflexivity].
  apply Qeq_bool_eq in Hq. contradiction.
Qed.

Lemma py_fdiv_by_float (a : Q) (z : Z) :
  0 < z → py_fdiv a (py_float z) = Ok (fdiv a (py_float z)).
Proof.
  intros Hz. apply py_fdiv_nonzero. intros Hzero.
  pose proof (py_float_positive z Hz) as Hpos.
  rewrite Hzero in Hpos. exact (Qlt_irrefl _ Hpos).
Qed.

Lemma fdiv_zero (b : Q) : fdiv 0 b = 0%Q.
Proof. unfold fdiv. apply rnd64_zero. unfold Qdiv. apply Qmult_0_l. Qed.

Section SelfComparison.
Context {pil : Pillow}.

Lemma compute_image_diff_stats_self (img : image) :
  Forall (λ px : list Z, length px = 4%nat) (data img) →
  _compute_image_diff_stats img img = Ok (0%Q, 0%Q).
Proof.
  intros Hd. unfold _compute_image_diff_stats. rewrite Z.min_id.
  destruct (Z.leb_spec (Z.of_nat (length (data img))) 0) as [Hle | Hgt]; [reflexivity |].
  rewrite (diff_loop_self _ 0 0 Hd). simpl.
  change (py_float 0) with 0%Q. change (py_fmul 0 100) with 0%Q.
  rewrite !py_fdiv_by_float by lia. simpl.
  rewrite !fdiv_zero. reflexivity.
Qed.

Lemma prepare_compare_images_self (img : image) :
  resize_keeps_rgba pil → rgba_image img →
  0 < fst (size img) → 0 < snd (size img) →
  ∃ a, _prepare_compare_images img img = Ok (a, a) ∧ rgba_image a.
Proof.
  intros Hresize Hrgba Hw Hh. pose proof Hrgba as [Hmode _].
  unfold _prepare_compare_images. rewrite Hmode. simpl.
  rewrite bool_decide_eq_false_2 by (intros Hne; apply Hne; reflexivity). simpl.
  destruct (size img) as [width height]. simpl in Hw, Hh.
  destruct ((width >? 256) || (height >? 256)); [| eauto].
  rewrite !py_fdiv_by_float by assumption. simpl.
  match goal with
  | |- context [pil_resize img ?sz BILINEAR] =>
      destruct (Hresize img sz BILINEAR Hrgba) as (a & -> & Ha); [simpl; lia .. |]
  end.
  simpl. eauto.
Qed.

(** C9. The statistics of an RGBA image against itself are [mae = 0.0] and
    [high_pct = 0.0], and the decision on that pair is to accept.  The
    image has positive sides, as every image Pillow decodes has, and
    Pillow's [resize] is taken to succeed on RGBA images. *)
Theorem self_comparison_accepts (img : image) :
  rgba_image img →
  _compute_image_diff_stats img img = Ok (0%Q, 0%Q)
  ∧ (resize_keeps_rgba pil → 0 < fst (size img) → 0 < snd (size img) →
     _should_accept_png8 img img = {| accept := true; mae := 0; high_pct := 0 |}).
Proof.
  intros Hrgba. split.
  - apply compute_image_diff_stats_self, Hrgba.
  - intros Hresize Hw Hh.
    destruct (prepare_compare_images_self img Hresize Hrgba Hw Hh) as (a & Hprep & Ha).
    unfold _should_accept_png8, compare_images. rewrite Hprep. simpl.
    rewrite compute_image_diff_stats_self by apply Ha. reflexivity.
Qed.

End SelfComparison.

(** ** The fallback of [compress] *)

Section Fallback.
Context {py : Python} {pil : Pillow} {os : Platform}.

(** Whatever exception leaves the [try] block, the handler that runs is the
    copy of the original. *)
Lemma compress_handler (cfg : config) (w w1 : world) (source_path target_path : string)
    (e : exn) :
  compress_try cfg w source_path target_path = (w1, Raise e) →
  compress cfg w source_path target_path = copy_original w1 source_path target_path.
Proof.
  intros Htry. unfold compress. rewrite Htry.
  destruct (is_OSError e); [reflexivity |].
  destruct (is_ValueError e || bool_decide (e = UnidentifiedImageError)
            || bool_decide (e = DecompressionBombError)); reflexivity.
Qed.

(** The [try] block returns nothing but [True]. *)
Lemma compress_try_returns_true (cfg : config) (w w1 : world)
    (source_path target_path : string) (r : bool) :
  compress_try cfg w source_path target_path = (w1, Ok r) → r = true.
Proof.
  unfold compress_try. intros Htry.
  repeat match type of Htry with
         | context [match ?x with _ => _ end] => destruct x
         end;
    congruence.
Qed.

(** C4. Once the paths are accepted and the target directory is made,
    [compress] ends in one of two ways.  It returns [True] when the image is
    opened, resized and saved without an exception.  When opening, resizing
    or saving raises, whatever the exception, it calls
    [shutil.copy2(source, target)] on the file system the failed step left
    and returns [False] if the copy succeeds; it raises only when the copy
    raises, and then it raises the copy's exception. *)
Theorem compress_fallback (cfg : config) (w w1 : world)
    (source_path target_path normalized_source normalized_target : string) :
  _normalize_path w source_path = Ok (Some normalized_source) →
  normalized_source ≠ "" → os_path_isfile w normalized_source = true →
  _normalize_path w (os_path_dirname target_path) = Ok (Some normalized_target) →
  normalized_target ≠ "" →
  os_makedirs w (os_path_dirname target_path) = (w1, Ok ()) →
  let fallback (w' : world) : world * result bool :=
    match shutil_copy2 w' source_path target_path with
    | (w2, Ok _) => (w2, Ok false)
    | (w2, Raise copy_error) => (w2, Raise copy_error)
    end in
  compress cfg w source_path target_path
  = match Image_open w1 normalized_source with
    | Raise _ => fallback w1
    | Ok img =>
        match _resize_if_needed img (default 2000 (max_photo_width cfg))
                (default 2000 (max_photo_height cfg)) with
        | Raise _ => fallback w1
        | Ok img =>
            match _save_image w1 img target_path
                    (str_lower (snd (os_path_splitext target_path)))
                    (effective_photo_quality cfg) (_get_image_preset cfg) with
            | (w2, Ok _) => (w2, Ok true)
            | (w2, Raise _) => fallback w2
            end
        end
    end.
Proof.
  intros Hsrc Hne Hfile Hdst Hnt Hmk fallback.
  assert (Hfb : ∀ w' e, compress_try cfg w source_path target_path = (w', Raise e) →
                        compress cfg w source_path target_path = fallback w').
  { intros w' e Htry. rewrite (compress_handler _ _ _ _ _ _ Htry).
    unfold copy_original, fallback.
    destruct (shutil_copy2 w' source_path target_path) as [w2 [[] | ce]]; reflexivity. }
  assert (Htry : compress_try cfg w source_path target_path
                 = match Image_open w1 normalized_source with
                   | Raise e => (w1, Raise e)
                   | Ok img =>
                       match _resize_if_needed img (default 2000 (max_photo_width cfg))
                               (default 2000 (max_photo_height cfg)) with
                       | Raise e => (w1, Raise e)
                       | Ok img =>
                           match _save_image w1 img target_path
                                   (str_lower (snd (os_path_splitext target_path)))
                                   (effective_photo_quality cfg) (_get_image_preset cfg) with
                           | (w2, Ok _) => (w2, Ok true)
                           | (w2, Raise e) => (w2, Raise e)
                           end
                       end
                   end).
  { unfold compress_try. rewrite Hsrc, Hfile, Hdst, Hmk.
    apply String.eqb_neq in Hne, Hnt. rewrite Hne, Hnt. reflexivity. }
  destruct (Image_open w1 normalized_source) as [img | e]; [| exact (Hfb _ _ Htry)].
  destruct (_resize_if_needed img _ _) as [img' | e]; [| exact (Hfb _ _ Htry)].
  destruct (_save_image w1 img' _ _ _ _) as [w2 [[] | e]]; [| exact (Hfb _ _ Htry)].
  unfold compress. rewrite Htry. reflexivity.
Qed.

(** C7. When the resolved source path names no regular file, [compress]
    decodes nothing and does what the copy of the original does.  So when
    there is nothing at the source path to copy, that is when
    [shutil.copy2] raises [FileNotFoundError] and writes nothing, [compress]
    raises [FileNotFoundError] instead of returning, and the file system is
    left as it was: no target file is created. *)
Theorem compress_missing_source (cfg : config) (w : world)
    (source_path target_path : string) :
  (∀ normalized_source,
     _normalize_path w source_path = Ok (Some normalized_source) →
     os_path_isfile w normalized_source = false) →
  compress cfg w source_path target_path = copy_original w source_path target_path
  ∧ (shutil_copy2 w source_path target_path = (w, Raise FileNotFoundError) →
     compress cfg w source_path target_path = (w, Raise FileNotFoundError)).
Proof.
  intros Hmissing.
  assert (Htry : ∃ e, compress_try cfg w source_path target_path = (w, Raise e)).
  { unfold compress_try.
    destruct (_normalize_path w source_path) as [[normalized |] | e] eqn:Hn; [| eauto ..].
    rewrite (Hmissing normalized eq_refl), orb_true_r. eauto. }
  destruct Htry as [e Htry].
  assert (Hc : compress cfg w source_path target_path
               = copy_original w source_path target_path)
    by exact (compress_handler _ _ _ _ _ _ Htry).
  split; [exact Hc |].
  intros Hcopy. rewrite Hc. unfold copy_original. rewrite Hcopy. reflexivity.
Qed.

End Fallback.

(** ** The model meets the laws *)

Lemma model_convert_same_mode : convert_same_mode Model.pillow.
Proof.
  intros img. simpl. unfold Model.convert. rewrite String.eqb_refl. reflexivity.
Qed.

Lemma model_convert_drops_alpha : convert_drops_alpha Model.pillow.
Proof.
  intros img Hmode. simpl. unfold Model.convert. rewrite Hmode. simpl.
  eexists. split; [reflexivity |]. repeat split.
Qed.

Lemma zip_with_over_clear (dst src : list (list Z)) :
  length dst = length src →
  Forall (λ px : list Z, px !! 3%nat = Some 0) src →
  zip_with Model.over dst src = dst.
Proof.
  intros Hlen Hclear. revert dst Hlen.
  induction Hclear as [| px src Hpx _ IH]; intros [| d dst] Hlen;
    try discriminate; [reflexivity |].
  simpl. f_equal; [| apply IH; simpl in Hlen; lia].
  unfold Model.over.
  destruct px as [| sr [| sg [| sb [| sa [| ? ?]]]]]; try reflexivity.
  injection Hpx as ->. reflexivity.
Qed.

Lemma model_composite_clear_source : composite_clear_source Model.pillow.
Proof.
  intros dst src _ _ Hsize Hlen Hclear. simpl. unfold Model.alpha_composite.
  rewrite bool_decide_eq_true_2 by exact Hsize.
  rewrite (zip_with_over_clear _ _ Hlen Hclear). destruct dst; reflexivity.
Qed.

Lemma model_resize_keeps_rgba : resize_keeps_rgba Model.pillow.
Proof.
  intros img sz filter [Hmode Hdata] Hw Hh. simpl. unfold Model.resize.
  rewrite (proj2 (Z.ltb_lt 0 (fst sz)) Hw), (proj2 (Z.ltb_lt 0 (snd sz)) Hh). simpl.
  eexists. split; [reflexivity |]. split; [exact Hmode |]. simpl.
  apply Forall_replicate.
  destruct Hdata as [| px d Hpx _]; [reflexivity | exact Hpx].
Qed.

Lemma model_resize_gives_size : resize_gives_size Model.pillow.
Proof.
  intros img sz filter out. simpl. unfold Model.resize.
  destruct (_ && _); [| discriminate]. intros [= <-]. reflexivity.
Qed.

(** ** The properties at work on the model *)

Lemma save_png_custom_witness :
  60 < 70
  ∧ _save_png (pil:=Model.pillow) (os:=Model.platform)
      Model.disk Model.opaque_rgba "out/photo.png" 60 PRESET_CUSTOM
    = Image_save (Platform:=Model.platform) Model.disk
        (_maybe_quantize_png (pil:=Model.pillow) Model.opaque_rgba (spec_png_colors 60) NONE)
        "out/photo.png" (png_options 9).
Proof.
  split; [lia |].
  apply (save_png_custom (pil:=Model.pillow) (os:=Model.platform)). lia.
Defined.

Lemma effective_photo_quality_range_witness :
  photo_quality Model.broken_settings = Some (PyStr "abc")
  ∧ py_int (Python:=Model.python) (PyStr "abc") = Raise ValueError
  ∧ effective_photo_quality (py:=Model.python) Model.broken_settings = 0.
Proof.
  split; [reflexivity |]. split; [reflexivity |].
  apply (effective_photo_quality_range (py:=Model.python) Model.broken_settings)
    with (v := PyStr "abc") (e := ValueError); reflexivity.
Defined.

Lemma maybe_quantize_png_palette_witness :
  mode Model.palette_image = "P"
  ∧ _maybe_quantize_png (pil:=Model.pillow) Model.palette_image 64 NONE
    = Model.palette_image.
Proof.
  split; [reflexivity |].
  apply (maybe_quantize_png_palette (pil:=Model.pillow)). reflexivity.
Defined.

Lemma should_accept_png8_decision_witness :
  compare_images (pil:=Model.pillow) Model.opaque_rgba Model.clear_rgba
    = Ok ((255 # 4)%Q, 100%Q)
  ∧ mae (_should_accept_png8 (pil:=Model.pillow) Model.opaque_rgba Model.clear_rgba)
    = (255 # 4)%Q
  ∧ compare_images (pil:=Model.pillow) Model.palette_image Model.opaque_rgba
    = Raise ValueError
  ∧ _should_accept_png8 (pil:=Model.pillow) Model.palette_image Model.opaque_rgba
    = {| accept := false; mae := 999; high_pct := 100 |}.
Proof.
  split; [vm_compute; reflexivity |]. split.
  - apply (proj1 (proj2 (should_accept_png8_decision (pil:=Model.pillow)
                           Model.opaque_rgba Model.clear_rgba)) (255 # 4)%Q 100%Q).
    vm_compute. reflexivity.
  - split; [vm_compute; reflexivity |].
    apply (proj2 (proj2 (should_accept_png8_decision (pil:=Model.pillow)
                           Model.palette_image Model.opaque_rgba)) ValueError).
    vm_compute. reflexivity.
Defined.

Lemma convert_for_png24_cases_witness :
  (mode Model.opaque_rgba = "RGBA" ∧ uniform_alpha 255 Model.opaque_rgba
   ∧ data Model.opaque_rgba ≠ []
   ∧ ∃ out, _convert_for_png24 (pil:=Model.pillow) Model.opaque_rgba = Ok out
            ∧ mode out = "RGB" ∧ size out = size Model.opaque_rgba
            ∧ data out = take 3 <$> data Model.opaque_rgba)
  ∧ (mode Model.clear_rgba = "RGBA" ∧ uniform_alpha 0 Model.clear_rgba
     ∧ ∃ out, _convert_for_png24 (pil:=Model.pillow) Model.clear_rgba = Ok out
              ∧ mode out = "RGB" ∧ size out = (2, 1)
              ∧ data out = [[255; 255; 255]; [255; 255; 255]]).
Proof.
  assert (Hopaque : uniform_alpha 255 Model.opaque_rgba) by (repeat constructor).
  assert (Hclear : uniform_alpha 0 Model.clear_rgba) by (repeat constructor).
  split.
  - split; [reflexivity |]. split; [exact Hopaque |]. split; [discriminate |].
    apply (proj1 (proj2 (proj2 (convert_for_png24_cases (pil:=Model.pillow)
                                  Model.opaque_rgba)))
             model_convert_same_mode model_convert_drops_alpha eq_refl Hopaque).
    discriminate.
  - split; [reflexivity |]. split; [exact Hclear |].
    apply (proj2 (proj2 (proj2 (convert_for_png24_cases (pil:=Model.pillow)
                                  Model.clear_rgba)))
             model_convert_same_mode model_convert_drops_alpha model_composite_clear_source
             eq_refl eq_refl Hclear).
Defined.

Lemma self_comparison_accepts_witness :
  rgba_image Model.opaque_rgba
  ∧ _compute_image_diff_stats Model.opaque_rgba Model.opaque_rgba = Ok (0%Q, 0%Q)
  ∧ _should_accept_png8 (pil:=Model.pillow) Model.opaque_rgba Model.opaque_rgba
    = {| accept := true; mae := 0; high_pct := 0 |}.
Proof.
  assert (Hrgba : rgba_image Model.opaque_rgba) by (split; [reflexivity | repeat constructor]).
  split; [exact Hrgba |].
  destruct (self_comparison_accepts (pil:=Model.pillow) Model.opaque_rgba Hrgba)
    as [Hstats Haccept].
  split; [exact Hstats |].
  apply Haccept; [exact model_resize_keeps_rgba | simpl; lia | simpl; lia].
Defined.

Lemma compress_fallback_witness :
  _normalize_path (os:=Model.platform) Model.disk "in/notes.txt" = Ok (Some "in/notes.txt")
  ∧ os_path_isfile (Platform:=Model.platform) Model.disk "in/notes.txt" = true
  ∧ _normalize_path (os:=Model.platform) Model.disk
      (os_path_dirname (Platform:=Model.platform) "out/notes.png") = Ok (Some "out")
  ∧ Image_open (Platform:=Model.platform) Model.disk "in/notes.txt"
    = Raise UnidentifiedImageError
  ∧ compress (py:=Model.python) (pil:=Model.pillow) (os:=Model.platform)
      Model.settings Model.disk "in/notes.txt" "out/notes.png"
    = (<["out/notes.png" := Model.Bytes [104; 105]]> Model.disk, Ok false).
Proof.
  split; [reflexivity |]. split; [reflexivity |]. split; [reflexivity |].
  split; [reflexivity |].
  rewrite (compress_fallback (py:=Model.python) (pil:=Model.pillow) (os:=Model.platform)
             Model.settings Model.disk Model.disk "in/notes.txt" "out/notes.png"
             "in/notes.txt" "out");
    [| reflexivity | discriminate | reflexivity | reflexivity | discriminate | reflexivity].
  vm_compute. reflexivity.
Defined.

Lemma compress_missing_source_witness :
  (∀ normalized_source,
     _normalize_path (os:=Model.platform) Model.disk "in/missing.png"
     = Ok (Some normalized_source) →
     os_path_isfile (Platform:=Model.platform) Model.disk normalized_source = false)
  ∧ shutil_copy2 (Platform:=Model.platform) Model.disk "in/missing.png" "out/missing.png"
    = (Model.disk, Raise FileNotFoundError)
  ∧ compress (py:=Model.python) (pil:=Model.pillow) (os:=Model.platform)
      Model.settings Model.disk "in/missing.png" "out/missing.png"
    = (Model.disk, Raise FileNotFoundError).
Proof.
  assert (Hmissing : ∀ normalized_source,
            _normalize_path (os:=Model.platform) Model.disk "in/missing.png"
            = Ok (Some normalized_source) →
            os_path_isfile (Platform:=Model.platform) Model.disk normalized_source = false).
  { intros normalized_source [= <-]. reflexivity. }
  split; [exact Hmissing |]. split; [reflexivity |].
  apply (proj2 (compress_missing_source (py:=Model.python) (pil:=Model.pillow)
                  (os:=Model.platform) Model.settings Model.disk
                  "in/missing.png" "out/missing.png" Hmissing)).
  reflexivity.
Defined.

(** [/dev/null] is no regular file, yet [compress] returns [False] and
    creates the target: the fallback copies what the source reads as. *)
Lemma compress_missing_source_counterexample :
  os_path_isfile (Platform:=Machine.posix) Machine.devices "/dev/null" = false
  ∧ compress (py:=Model.python) (pil:=Model.pillow) (os:=Machine.posix)
      Model.settings Machine.devices "/dev/null" "out/null.png"
    = (<["out/null.png" := Machine.Regular (Model.Bytes [])]> Machine.devices, Ok false).
Proof. split; vm_compute; reflexivity. Qed.

(** Two runs of [compress] on the model: an image is encoded again, with a
    palette at quality 60; a file that is not an image is copied. *)
Example compress_reencodes :
  compress (py:=Model.python) (pil:=Model.pillow) (os:=Model.platform)
    Model.settings Model.disk "in/photo.png" "out/photo.png"
  = (<["out/photo.png" :=
         Model.Encoded
           {| mode := "P"; size := (2, 1); info := ∅; data := [[0]; [0]] |}
           (png_options 9)]> Model.disk,
     Ok true).
Proof. vm_compute. reflexivity. Qed.

Example compress_copies_what_it_cannot_decode :
  compress (py:=Model.python) (pil:=Model.pillow) (os:=Model.platform)
    Model.settings Model.disk "in/notes.txt" "out/notes.png"
  = (<["out/notes.png" := Model.Bytes [104; 105]]> Model.disk, Ok false).
Proof. vm_compute. reflexivity. Qed.

(** ** [rnd64] against the primitive binary64 numbers *)

(** The palette-size expression has the same value under the kernel's
    binary64 operations as in the model, at every quality. *)
Lemma binary64_colors (q : Z) :
  0 ≤ q ≤ 100 →
  Binary64.denotes (Binary64.colors_expr q)
    (py_fadd (py_float 16) (py_fmul (fdiv (py_float q) 70) (py_float (256 - 16))))
  = true.
Proof.
  intros Hq.
  apply (forallb_seqZ
           (λ q, Binary64.denotes (Binary64.colors_expr q)
                   (py_fadd (py_float 16)
                      (py_fmul (fdiv (py_float q) 70) (py_float (256 - 16)))))
           0 101); [| lia].
  vm_compute. reflexivity.
Qed.

(** So has the side scaled to the default bound, for every side up to 4000. *)
Lemma binary64_scaled_side (side : Z) :
  1 ≤ side ≤ 4000 →
  Binary64.denotes (Binary64.scaled_side side 2000)
    (py_fmul (py_float side) (rnd64 (inject_Z 2000 / inject_Z side)))
  = true.
Proof.
  intros Hside.
  apply (forallb_seqZ
           (λ side, Binary64.denotes (Binary64.scaled_side side 2000)
                      (py_fmul (py_float side) (rnd64 (inject_Z 2000 / inject_Z side))))
           1 4000); [| lia].
  vm_compute. reflexivity.
Qed.

(** The rounded product can fall just below the bound: a side of 2105
    scaled to 2000 comes out as 1999, where the exact formula gives 2000. *)
Example resize_2105_by_1000 :
  binary64_resize_dims 2105 1000 2000 2000 = (1999, 950)
  ∧ spec_resize_dims 2105 1000 2000 2000 = (2000, 950).
Proof. split; vm_compute; reflexivity. Qed.

(** A side can come out as 0, for which [resize] has no image to give: a
    3000x1 raster bounded by 2000x2000 is asked to become 2000x0. *)
Example resize_3000_by_1 : binary64_resize_dims 3000 1 2000 2000 = (2000, 0).
Proof. vm_compute. reflexivity. Qed.

(** * Further properties

    What follows goes beyond the statements above: more of what the engine
    and the FFmpeg manager do, read off the code. *)

(** ** More on rounding: values, not representations, and order *)

Lemma py_round_Qeq (x y : Q) : (x == y)%Q → py_round x = py_round y.
Proof.
  destruct x as [a b], y as [c d]. unfold Qeq, py_round. simpl. intros Heq.
  assert (Hdiv : a / Z.pos b = c / Z.pos d).
  { rewrite <- (Z.div_mul_cancel_r a (Z.pos b) (Z.pos d)) by lia.
    rewrite Heq, (Z.mul_comm (Z.pos b) (Z.pos d)).
    apply Z.div_mul_cancel_r; lia. }
  assert (Hmod : (a mod Z.pos b) * Z.pos d = (c mod Z.pos d) * Z.pos b).
  { rewrite <- !Z.mul_mod_distr_r by lia.
    rewrite Heq. f_equal. lia. }
  assert (Hcmp : (2 * (a mod Z.pos b) ?= Z.pos b) = (2 * (c mod Z.pos d) ?= Z.pos d)).
  { rewrite (Zmult_compare_compat_r (2 * (a mod Z.pos b)) (Z.pos b) (Z.pos d)) by lia.
    rewrite (Zmult_compare_compat_r (2 * (c mod Z.pos d)) (Z.pos d) (Z.pos b)) by lia.
    f_equal; lia. }
  rewrite Hcmp, Hdiv. reflexivity.
Qed.

Lemma py_round_inject_Z (k : Z) : py_round (inject_Z k) = k.
Proof.
  unfold py_round, inject_Z. simpl. rewrite Z.div_1_r, Z.mod_1_r. reflexivity.
Qed.

Lemma py_round_mono (x y : Q) : (x <= y)%Q → py_round x ≤ py_round y.
Proof.
  intros Hxy.
  destruct (Z.le_gt_cases (py_round x) (py_round y)) as [Hle | Hgt]; [exact Hle |].
  destruct (py_round_error x) as [_ Hx]. destruct (py_round_error y) as [Hy _].
  assert (Hstep : (inject_Z (py_round y) + 1 <= inject_Z (py_round x))%Q).
  { change 1%Q with (inject_Z 1). rewrite <- inject_Z_plus, <- Zle_Qle. lia. }
  assert (Heq : (x == y)%Q) by (apply Qle_antisym; [exact Hxy | lra]).
  rewrite (py_round_Qeq x y Heq) in Hgt. lia.
Qed.

Lemma two_pow_exponent_lt (a b : Z) : (2 ^ a < 2 ^ b)%Q → a < b.
Proof. intros H. apply (Qpower_lt_compat_l_inv 2 a b H). reflexivity. Qed.

(** The ulp exponent of the smaller of two positive numbers is the smaller. *)
Lemma ulp_exponent_mono (x y : Q) :
  (0 < x)%Q → (x <= y)%Q → ulp_exponent x ≤ ulp_exponent y.
Proof.
  intros Hx Hxy.
  pose proof (ulp_exponent_spec x Hx) as Hlo.
  pose proof (ulp_exponent_upper y (Qlt_le_trans _ _ _ Hx Hxy)) as Hhi.
  rewrite <- Qpower_plus in Hlo, Hhi by discriminate.
  assert (Hlt : (2 ^ (52 + ulp_exponent x) < 2 ^ (53 + ulp_exponent y))%Q).
  { eapply Qle_lt_trans; [exact Hlo |]. eapply Qle_lt_trans; [exact Hxy | exact Hhi]. }
  apply two_pow_exponent_lt in Hlt. lia.
Qed.

Lemma ulp_exponent_Qeq (x y : Q) :
  (0 < x)%Q → (x == y)%Q → ulp_exponent x = ulp_exponent y.
Proof.
  intros Hx Hxy.
  assert (Hy : (0 < y)%Q) by (rewrite <- Hxy; exact Hx).
  pose proof (ulp_exponent_mono x y Hx ltac:(rewrite Hxy; apply Qle_refl)).
  pose proof (ulp_exponent_mono y x Hy ltac:(rewrite Hxy; apply Qle_refl)).
  lia.
Qed.

(** The rounded significand of a positive number has 53 bits. *)
Lemma significand_bounds (x : Q) :
  (0 < x)%Q →
  2 ^ 52 ≤ py_round (x / 2 ^ ulp_exponent x) ≤ 2 ^ 53.
Proof.
  intros Hx.
  pose proof (ulp_exponent_spec x Hx) as Hlo.
  pose proof (ulp_exponent_upper x Hx) as Hhi.
  pose proof (two_pow_pos (ulp_exponent x)) as Hp.
  set (p := (2 ^ ulp_exponent x)%Q) in *.
  split.
  - rewrite <- (py_round_inject_Z (2 ^ 52)). apply py_round_mono.
    apply Qle_shift_div_l; [exact Hp | exact Hlo].
  - rewrite <- (py_round_inject_Z (2 ^ 53)). apply py_round_mono.
    apply Qlt_le_weak, Qlt_shift_div_r; [exact Hp | exact Hhi].
Qed.

Lemma rnd64_pos_Qeq (x y : Q) : (0 < x)%Q → (x == y)%Q → rnd64_pos x = rnd64_pos y.
Proof.
  intros Hx Hxy. unfold rnd64_pos.
  rewrite (ulp_exponent_Qeq x y Hx Hxy).
  apply Qred_complete.
  rewrite (py_round_Qeq (x / 2 ^ ulp_exponent y) (y / 2 ^ ulp_exponent y))
    by (rewrite Hxy; reflexivity).
  reflexivity.
Qed.

Lemma rnd64_pos_mono (x y : Q) :
  (0 < x)%Q → (x <= y)%Q → (rnd64_pos x <= rnd64_pos y)%Q.
Proof.
  intros Hx Hxy.
  assert (Hy : (0 < y)%Q) by (eapply Qlt_le_trans; eauto).
  pose proof (ulp_exponent_mono x y Hx Hxy) as He.
  unfold rnd64_pos. rewrite !Qred_correct.
  destruct (Z.eq_dec (ulp_exponent x) (ulp_exponent y)) as [Heq | Hne].
  - rewrite Heq.
    apply Qmult_le_compat_r; [| apply Qlt_le_weak, two_pow_pos].
    rewrite <- Zle_Qle. apply py_round_mono.
    apply Qmult_le_compat_r; [exact Hxy |].
    apply Qlt_le_weak, Qinv_lt_0_compat, two_pow_pos.
  - destruct (significand_bounds x Hx) as [_ Hmx].
    destruct (significand_bounds y Hy) as [Hmy _].
    apply Qle_trans with (inject_Z (2 ^ 53) * 2 ^ ulp_exponent x)%Q.
    { apply Qmult_le_compat_r; [| apply Qlt_le_weak, two_pow_pos].
      rewrite <- Zle_Qle. exact Hmx. }
    apply Qle_trans with (inject_Z (2 ^ 52) * 2 ^ ulp_exponent y)%Q.
    2:{ apply Qmult_le_compat_r; [| apply Qlt_le_weak, two_pow_pos].
        rewrite <- Zle_Qle. exact Hmy. }
    change (inject_Z (2 ^ 53)) with (2 ^ 53)%Q. change (inject_Z (2 ^ 52)) with (2 ^ 52)%Q.
    rewrite <- !Qpower_plus by discriminate.
    apply Qpower_le_compat_l; [lia | discriminate].
Qed.

Lemma Qnum_sign_pos (x : Q) : (0 < x)%Q ↔ 0 < Qnum x.
Proof. destruct x as [n d]. unfold Qlt. simpl. lia. Qed.

Lemma Qnum_sign_neg (x : Q) : (x < 0)%Q ↔ Qnum x < 0.
Proof. destruct x as [n d]. unfold Qlt. simpl. lia. Qed.

Lemma rnd64_of_pos (x : Q) : (0 < x)%Q → rnd64 x = rnd64_pos x.
Proof.
  intros Hx. apply Qnum_sign_pos in Hx. unfold rnd64.
  destruct (Qnum x); try lia. reflexivity.
Qed.

Lemma rnd64_of_neg (x : Q) : (x < 0)%Q → rnd64 x = Qred (- rnd64_pos (- x)).
Proof.
  intros Hx. apply Qnum_sign_neg in Hx. unfold rnd64.
  destruct (Qnum x); try lia. reflexivity.
Qed.

(** [rnd64] is a function of the value of its argument. *)
Lemma rnd64_Qeq (x y : Q) : (x == y)%Q → rnd64 x = rnd64 y.
Proof.
  intros Hxy.
  destruct (Q_dec x 0) as [[Hneg | Hpos] | Hzero].
  - rewrite (rnd64_of_neg x Hneg), (rnd64_of_neg y) by (rewrite <- Hxy; exact Hneg).
    rewrite (rnd64_pos_Qeq (- x) (- y)); [reflexivity | lra | rewrite Hxy; reflexivity].
  - rewrite (rnd64_of_pos x Hpos), (rnd64_of_pos y) by (rewrite <- Hxy; exact Hpos).
    apply rnd64_pos_Qeq; assumption.
  - rewrite (rnd64_zero x Hzero), (rnd64_zero y) by (rewrite <- Hxy; exact Hzero).
    reflexivity.
Qed.

(** [rnd64] keeps the order. *)
Lemma rnd64_mono (x y : Q) : (x <= y)%Q → (rnd64 x <= rnd64 y)%Q.
Proof.
  intros Hxy.
  destruct (Qlt_le_dec 0 x) as [Hx | Hx].
  - rewrite (rnd64_of_pos x Hx), (rnd64_of_pos y) by lra.
    apply rnd64_pos_mono; assumption.
  - destruct (Qlt_le_dec y 0) as [Hy | Hy].
    + rewrite (rnd64_of_neg x), (rnd64_of_neg y) by lra.
      rewrite !Qred_correct.
      assert (H : (rnd64_pos (- y) <= rnd64_pos (- x))%Q)
        by (apply rnd64_pos_mono; lra).
      lra.
    + apply Qle_trans with 0%Q; [apply rnd64_nonpos, Hx | apply rnd64_nonneg, Hy].
Qed.

(** Integers below [2^53] are binary64 numbers. *)
Lemma rnd64_inject_Z (z : Z) : 0 ≤ z < 2 ^ 53 → rnd64 (inject_Z z) = inject_Z z.
Proof.
  intros [Hz0 Hz1].
  destruct (Z.eq_dec z 0) as [-> | Hnz]; [reflexivity |].
  assert (Hpos : (0 < inject_Z z)%Q) by (apply inject_Z_pos; lia).
  rewrite (rnd64_of_pos _ Hpos). unfold rnd64_pos.
  pose proof (ulp_exponent_spec _ Hpos) as Hlo.
  set (e := ulp_exponent (inject_Z z)) in *.
  assert (He : e ≤ 0).
  { assert (Hlt : (2 ^ (52 + e) < 2 ^ 53)%Q).
    { rewrite Qpower_plus by discriminate.
      eapply Qle_lt_trans; [exact Hlo |].
      change (2 ^ 53)%Q with (inject_Z (2 ^ 53)). rewrite <- Zlt_Qlt. exact Hz1. }
    apply two_pow_exponent_lt in Hlt. lia. }
  assert (Hinv : (2 ^ e * inject_Z (2 ^ (- e)) == 1)%Q).
  { rewrite (Zpower_Qpower 2 (- e)) by lia. change (inject_Z 2) with 2%Q.
    rewrite <- Qpower_plus by discriminate. replace (e + - e) with 0 by lia. reflexivity. }
  assert (Hp0 : ¬ (2 ^ e == 0)%Q)
    by (intros Hzero; pose proof (two_pow_pos e) as Hp; rewrite Hzero in Hp;
        exact (Qlt_irrefl _ Hp)).
  assert (Hq : (inject_Z (2 ^ (- e)) == / 2 ^ e)%Q).
  { rewrite <- (Qmult_1_r (/ 2 ^ e)), <- Hinv. field. exact Hp0. }
  assert (Hy : (inject_Z z / 2 ^ e == inject_Z (z * 2 ^ (- e)))%Q).
  { rewrite inject_Z_mult, Hq. reflexivity. }
  rewrite (py_round_Qeq _ _ Hy), py_round_inject_Z.
  rewrite <- (Qcanon.Qred_identity (inject_Z z)) by (simpl; apply Z.gcd_1_r).
  apply Qred_complete.
  rewrite inject_Z_mult, <- Qmult_assoc, (Qmult_comm (inject_Z (2 ^ (- e)))), Hinv.
  apply Qmult_1_r.
Qed.

Lemma py_float_exact (z : Z) : 0 ≤ z < 2 ^ 53 → py_float z = inject_Z z.
Proof. apply rnd64_inject_Z. Qed.

Lemma py_float_mono (a b : Z) : a ≤ b → (py_float a <= py_float b)%Q.
Proof.
  intros H. unfold py_float. apply rnd64_mono. rewrite <- Zle_Qle. exact H.
Qed.

Lemma fdiv_mono (a b c : Q) : (0 < c)%Q → (a <= b)%Q → (fdiv a c <= fdiv b c)%Q.
Proof.
  intros Hc H. unfold fdiv. apply rnd64_mono.
  unfold Qdiv. apply Qmult_le_compat_r; [exact H |].
  apply Qlt_le_weak, Qinv_lt_0_compat, Hc.
Qed.

Lemma py_fmul_mono_r (a b c : Q) : (0 <= c)%Q → (a <= b)%Q → (py_fmul a c <= py_fmul b c)%Q.
Proof.
  intros Hc H. unfold py_fmul. apply rnd64_mono.
  apply Qmult_le_compat_r; assumption.
Qed.

Lemma py_fmul_mono_l (a b c : Q) : (0 <= c)%Q → (a <= b)%Q → (py_fmul c a <= py_fmul c b)%Q.
Proof.
  intros Hc H. unfold py_fmul. apply rnd64_mono.
  rewrite !(Qmult_comm c). apply Qmult_le_compat_r; assumption.
Qed.

Lemma py_fadd_mono_r (a b c : Q) : (a <= b)%Q → (py_fadd c a <= py_fadd c b)%Q.
Proof.
  intros H. unfold py_fadd. apply rnd64_mono.
  apply Qplus_le_compat; [apply Qle_refl | exact H].
Qed.

Lemma py_fmul_int (a b : Z) :
  0 ≤ a * b < 2 ^ 53 → py_fmul (inject_Z a) (inject_Z b) = inject_Z (a * b).
Proof.
  intros H. unfold py_fmul.
  rewrite <- inject_Z_mult. apply rnd64_inject_Z, H.
Qed.

Lemma Qdiv_le_int (n d k : Z) :
  0 < d → n ≤ k * d → (inject_Z n / inject_Z d <= inject_Z k)%Q.
Proof.
  intros Hd H. apply Qle_shift_div_r; [apply inject_Z_pos, Hd |].
  rewrite <- inject_Z_mult, <- Zle_Qle. exact H.
Qed.

Lemma Qdiv_ge_int (n d k : Z) :
  0 < d → k * d ≤ n → (inject_Z k <= inject_Z n / inject_Z d)%Q.
Proof.
  intros Hd H. apply Qle_shift_div_l; [apply inject_Z_pos, Hd |].
  rewrite <- inject_Z_mult, <- Zle_Qle. exact H.
Qed.

(** A quotient of integers that is at most an integer rounds to at most
    that integer, and one that is at least an integer to at least it. *)
Lemma rnd64_quotient_le (n d k : Z) :
  0 < d → 0 ≤ k < 2 ^ 53 → n ≤ k * d →
  (rnd64 (inject_Z n / inject_Z d) <= inject_Z k)%Q.
Proof.
  intros Hd Hk H. rewrite <- (rnd64_inject_Z k Hk).
  apply rnd64_mono, Qdiv_le_int; assumption.
Qed.

Lemma rnd64_quotient_ge (n d k : Z) :
  0 < d → 0 ≤ k < 2 ^ 53 → k * d ≤ n →
  (inject_Z k <= rnd64 (inject_Z n / inject_Z d))%Q.
Proof.
  intros Hd Hk H. rewrite <- (rnd64_inject_Z k Hk) at 1.
  apply rnd64_mono, Qdiv_ge_int; assumption.
Qed.

(** Comparing the rounded quotient of two integers with a small integer
    gives what comparing the exact quotient gives. *)
Lemma py_lt_rounded_quotient (k n d : Z) :
  0 ≤ k ≤ 256 → 0 < d ≤ 2 ^ 42 →
  py_lt (inject_Z k) (rnd64 (inject_Z n / inject_Z d)) = (k * d <? n).
Proof.
  intros Hk Hd. destruct (Z.ltb_spec (k * d) n) as [Hlt | Hge].
  - apply py_lt_spec.
    set (x := (inject_Z n / inject_Z d)%Q).
    set (δ := (/ inject_Z d)%Q).
    assert (Hd0 : (0 < inject_Z d)%Q) by (apply inject_Z_pos; lia).
    assert (Hδ : (0 < δ)%Q) by (apply Qinv_lt_0_compat, Hd0).
    assert (Hδd : (δ * inject_Z d == 1)%Q).
    { unfold δ. rewrite Qmult_comm. apply Qmult_inv_r. intros E. rewrite E in Hd0.
      exact (Qlt_irrefl _ Hd0). }
    assert (Hδ42 : (1 <= δ * 4398046511104)%Q).
    { rewrite <- Hδd. rewrite !(Qmult_comm δ).
      apply Qmult_le_compat_r; [| apply Qlt_le_weak, Hδ].
      change 4398046511104%Q with (inject_Z (2 ^ 42)). rewrite <- Zle_Qle. lia. }
    assert (Hx : (inject_Z k + δ <= x)%Q).
    { assert (E : (inject_Z k + δ == inject_Z (k * d + 1) / inject_Z d)%Q).
      { unfold δ. rewrite inject_Z_plus, inject_Z_mult. field.
        intros E. rewrite E in Hd0. exact (Qlt_irrefl _ Hd0). }
      rewrite E. unfold x, Qdiv. apply Qmult_le_compat_r; [| apply Qlt_le_weak, Hδ].
      rewrite <- Zle_Qle. lia. }
    assert (Hk0 : (0 <= inject_Z k)%Q) by (apply inject_Z_nonneg; lia).
    assert (Hk256 : (inject_Z k <= 256)%Q).
    { change 256%Q with (inject_Z 256). rewrite <- Zle_Qle. lia. }
    assert (Hx0 : (0 <= x)%Q) by lra.
    pose proof (rnd64_error x Hx0) as [Hlo _]. unfold unit_roundoff in Hlo.
    lra.
  - apply py_lt_false. apply rnd64_quotient_le; lia.
Qed.

(** Scaling a side [s] by a ratio between 0 and 1 gives at most [s]. *)
Lemma scaled_side_shrinks (s : Z) (ratio : Q) :
  0 < s < 2 ^ 53 → (0 <= ratio <= 1)%Q →
  0 ≤ py_int_of_float (py_fmul (py_float s) ratio) ≤ s.
Proof.
  intros Hs [Hr0 Hr1].
  rewrite py_float_exact by lia.
  assert (HS : (0 <= inject_Z s)%Q) by (apply inject_Z_nonneg; lia).
  assert (Hp0 : (0 <= py_fmul (inject_Z s) ratio)%Q).
  { apply rnd64_nonneg, Qmult_le_0_compat; assumption. }
  assert (Hp1 : (py_fmul (inject_Z s) ratio <= inject_Z s)%Q).
  { unfold py_fmul. rewrite <- (rnd64_inject_Z s) at 2 by lia.
    apply rnd64_mono. rewrite <- (Qmult_1_r (inject_Z s)) at 2.
    rewrite !(Qmult_comm (inject_Z s)). apply Qmult_le_compat_r; assumption. }
  rewrite py_int_of_float_floor by exact Hp0. split.
  - apply Z.le_trans with (Qfloor (inject_Z 0)); [rewrite Qfloor_Z; lia |].
    apply Qfloor_resp_le, Hp0.
  - apply Z.le_trans with (Qfloor (inject_Z s)); [| rewrite Qfloor_Z; lia].
    apply Qfloor_resp_le, Hp1.
Qed.

(** Scaling a side [s] by the rounded [m/s] loses less than one pixel of [m]. *)
Lemma scaled_side_lower (s m : Z) :
  0 < s < 2 ^ 53 → 0 ≤ m ≤ 2 ^ 51 →
  m - 1 ≤ py_int_of_float (py_fmul (py_float s) (rnd64 (inject_Z m / inject_Z s))).
Proof.
  intros Hs Hm.
  rewrite py_float_exact by lia.
  pose proof (inject_Z_pos s ltac:(lia)) as HS.
  pose proof (inject_Z_nonneg m ltac:(lia)) as HM.
  assert (HM1 : (inject_Z m <= 2251799813685248)%Q)
    by (change 2251799813685248%Q with (inject_Z (2 ^ 51)); rewrite <- Zle_Qle; lia).
  set (S := inject_Z s) in *. set (M := inject_Z m) in *.
  set (u := unit_roundoff).
  assert (HS0 : ¬ (S == 0)%Q) by (intros Hz; rewrite Hz in HS; exact (Qlt_irrefl _ HS)).
  assert (Hq : (0 <= M / S)%Q)
    by (apply Qle_shift_div_l; [exact HS | rewrite Qmult_0_l; exact HM]).
  destruct (rnd64_error (M / S) Hq) as [HR _]. fold u in HR.
  assert (Hr0 : (0 <= rnd64 (M / S))%Q) by (apply rnd64_nonneg, Hq).
  assert (Hprod0 : (0 <= S * rnd64 (M / S))%Q)
    by (apply Qmult_le_0_compat; [apply Qlt_le_weak, HS | exact Hr0]).
  assert (Hprod : (M * (1 - u) <= S * rnd64 (M / S))%Q).
  { apply Qle_trans with (S * (M / S * (1 - u)))%Q.
    - apply Qle_lteq. right. field. exact HS0.
    - rewrite !(Qmult_comm S). apply Qmult_le_compat_r; [exact HR | apply Qlt_le_weak, HS]. }
  destruct (rnd64_error _ Hprod0) as [Hrnd _]. fold u in Hrnd.
  assert (Hfinal : (M - 1 <= py_fmul S (rnd64 (M / S)))%Q).
  { unfold py_fmul. apply Qle_trans with (M * (1 - u) * (1 - u))%Q.
    - unfold u, unit_roundoff. lra.
    - apply Qle_trans with (S * rnd64 (M / S) * (1 - u))%Q; [| exact Hrnd].
      apply Qmult_le_compat_r; [exact Hprod | discriminate]. }
  assert (Hp0 : (0 <= py_fmul S (rnd64 (M / S)))%Q) by (apply rnd64_nonneg, Hprod0).
  rewrite py_int_of_float_floor by exact Hp0.
  apply Z.le_trans with (Qfloor (inject_Z (m - 1))); [rewrite Qfloor_Z; lia |].
  apply Qfloor_resp_le.
  unfold Qminus in Hfinal. unfold Z.sub. rewrite inject_Z_plus. exact Hfinal.
Qed.

(** The rounded [m/s] is at most 1 when [m <= s] and never negative. *)
Lemma rounded_ratio_range (s m : Z) :
  0 < s → 0 ≤ m → (0 <= rnd64 (inject_Z m / inject_Z s))%Q
  ∧ (m ≤ s → (rnd64 (inject_Z m / inject_Z s) <= 1)%Q).
Proof.
  intros Hs Hm. split.
  - apply (rnd64_quotient_ge _ _ 0); lia.
  - intros Hle. apply (rnd64_quotient_le _ _ 1); lia.
Qed.

(** ** Resizing against the exact formula *)

(** A rational is whole or at least [1/d] away from the integers around
    it, [d] being its denominator. *)
Lemma Qfloor_gap (x : Q) :
  (x == inject_Z (Qfloor x))%Q
  ∨ (inject_Z (Qfloor x) + (1 # Qden x) <= x
     ∧ x <= inject_Z (Qfloor x) + 1 - (1 # Qden x))%Q.
Proof.
  destruct x as [n p]. cbn [Qfloor Qden].
  pose proof (Z.div_mod n (Z.pos p) ltac:(lia)) as Hdm.
  pose proof (Z.mod_pos_bound n (Z.pos p) ltac:(lia)) as Hr.
  destruct (Z.eq_dec (n mod Z.pos p) 0) as [Hz | Hnz].
  - left. unfold Qeq, inject_Z. simpl. lia.
  - right. unfold Qle, Qplus, Qminus, Qopp, inject_Z. simpl. split; nia.
Qed.

Lemma Qfloor_at_least (k : Z) (x : Q) : (inject_Z k <= x)%Q → k ≤ Qfloor x.
Proof.
  intros H. apply Z.le_trans with (Qfloor (inject_Z k)); [rewrite Qfloor_Z; lia |].
  apply Qfloor_resp_le, H.
Qed.

Lemma Qfloor_below (k : Z) (x : Q) : (x < inject_Z k)%Q → Qfloor x < k.
Proof.
  intros H. destruct (Z.lt_ge_cases (Qfloor x) k) as [| Hge]; [assumption |].
  exfalso. pose proof (Qfloor_le x) as Hf.
  assert (Hk : (inject_Z k <= inject_Z (Qfloor x))%Q) by (rewrite <- Zle_Qle; exact Hge).
  lra.
Qed.

(** A value within [δ] of [x], with [δ] below the gap of [x], has the floor
    of [x] or one less, and the floor of [x] unless [x] is whole. *)
Lemma Qfloor_nearby (x y δ : Q) :
  (x - δ <= y <= x + δ)%Q → (0 <= δ)%Q → (δ * inject_Z (Z.pos (Qden x)) < 1)%Q →
  Qfloor x - 1 ≤ Qfloor y ≤ Qfloor x
  ∧ (¬ (x == inject_Z (Qfloor x))%Q → Qfloor y = Qfloor x).
Proof.
  intros [Hlo Hhi] Hδ Hgap.
  set (E := Qfloor x) in *.
  assert (Hd : (δ < 1 # Qden x)%Q).
  { apply Qlt_shift_div_l in Hgap; [| reflexivity].
    eapply Qlt_le_trans; [exact Hgap |]. apply Qle_lteq. right.
    unfold Qeq, Qdiv, Qmult, Qinv, inject_Z. simpl. lia. }
  assert (Hsmall : (1 # Qden x <= 1)%Q).
  { unfold Qle. simpl. lia. }
  assert (HE1 : (inject_Z (E - 1) == inject_Z E - 1)%Q).
  { unfold Z.sub. rewrite inject_Z_plus. reflexivity. }
  assert (HE2 : (inject_Z (E + 1) == inject_Z E + 1)%Q).
  { rewrite inject_Z_plus. reflexivity. }
  pose proof (Qfloor_le x) as Hfl. fold E in Hfl.
  pose proof (Qlt_floor x) as Hfu. fold E in Hfu. rewrite HE2 in Hfu.
  destruct (Qfloor_gap x) as [Hwhole | [Hg1 Hg2]]; fold E in Hwhole || fold E in Hg1, Hg2.
  - split; [| intros Hn; contradiction].
    split.
    + apply Qfloor_at_least. rewrite HE1. lra.
    + assert (Qfloor y < E + 1); [| lia]. apply Qfloor_below. rewrite HE2. lra.
  - assert (Heq : Qfloor y = E).
    { assert (E ≤ Qfloor y) by (apply Qfloor_at_least; lra).
      assert (Qfloor y < E + 1) by (apply Qfloor_below; rewrite HE2; lra).
      lia. }
    split; [lia | intros _; exact Heq].
Qed.

(** The minimum of two rounded numbers is the rounded minimum. *)
Lemma py_min_rnd64 (a b : Q) :
  (py_min (rnd64 a) (rnd64 b) == rnd64 (Qmin a b))%Q.
Proof.
  rewrite py_min_Qmin.
  destruct (Qlt_le_dec b a) as [Hlt | Hle].
  - rewrite (rnd64_Qeq (Qmin a b) b) by (apply Q.min_r, Qlt_le_weak, Hlt).
    apply Q.min_r, rnd64_mono, Qlt_le_weak, Hlt.
  - rewrite (rnd64_Qeq (Qmin a b) a) by (apply Q.min_l, Hle).
    apply Q.min_l, rnd64_mono, Hle.
Qed.

(** Scaling a side [s] by a rounded ratio [r] in binary64: the product is
    within [2^-26] of the exact one as long as that is at most [2^25]. *)
Lemma scaled_side_near (s : Z) (r : Q) :
  0 < s < 2 ^ 53 → (0 <= r)%Q → (inject_Z s * r <= 33554432)%Q →
  (inject_Z s * r - (1 # 67108864) <= py_fmul (py_float s) (rnd64 r)
   <= inject_Z s * r + (1 # 67108864))%Q.
Proof.
  intros Hs Hr Hx.
  rewrite py_float_exact by lia.
  assert (HS : (0 <= inject_Z s)%Q) by (apply inject_Z_nonneg; lia).
  set (S := inject_Z s) in *.
  destruct (rnd64_error r Hr) as [Hr1 Hr2]. unfold unit_roundoff in Hr1, Hr2.
  assert (Hrr : (0 <= rnd64 r)%Q) by (apply rnd64_nonneg, Hr).
  assert (Hy0 : (0 <= S * rnd64 r)%Q) by (apply Qmult_le_0_compat; assumption).
  assert (Hy1 : (S * r * (1 - (1 # 9007199254740992)) <= S * rnd64 r)%Q).
  { rewrite <- Qmult_assoc, !(Qmult_comm S). apply Qmult_le_compat_r; assumption. }
  assert (Hy2 : (S * rnd64 r <= S * r * (1 + (1 # 9007199254740992)))%Q).
  { rewrite <- Qmult_assoc, !(Qmult_comm S). apply Qmult_le_compat_r; assumption. }
  destruct (rnd64_error _ Hy0) as [Hp1 Hp2]. unfold unit_roundoff in Hp1, Hp2.
  assert (Hx0 : (0 <= S * r)%Q) by (apply Qmult_le_0_compat; assumption).
  unfold py_fmul. set (x := (S * r)%Q) in *. set (y := (S * rnd64 r)%Q) in *.
  split; lra.
Qed.

Lemma spec_ratio_den (s width height maxWidth maxHeight : Z) :
  0 < width → 0 < height →
  Z.pos (Qden (inject_Z s * spec_ratio width height maxWidth maxHeight))
  ≤ Z.max width height.
Proof.
  intros Hw Hh. destruct width as [| pw |]; try lia. destruct height as [| ph |]; try lia.
  unfold spec_ratio, Qmin, GenericMinMax.gmin.
  destruct (_ ?= _)%Q; unfold Qdiv, Qmult, Qinv, inject_Z; simpl; lia.
Qed.

Lemma spec_ratio_range (width height maxWidth maxHeight : Z) :
  0 < width → 0 < height → 0 ≤ maxWidth → 0 ≤ maxHeight →
  let ratio := spec_ratio width height maxWidth maxHeight in
  (0 <= ratio)%Q
  ∧ (inject_Z width * ratio <= inject_Z maxWidth)%Q
  ∧ (inject_Z height * ratio <= inject_Z maxHeight)%Q.
Proof.
  intros Hw Hh Hmw Hmh ratio.
  pose proof (inject_Z_pos width Hw) as HW. pose proof (inject_Z_pos height Hh) as HH.
  pose proof (inject_Z_nonneg maxWidth Hmw) as HMW.
  pose proof (inject_Z_nonneg maxHeight Hmh) as HMH.
  assert (Hrw : (0 <= inject_Z maxWidth / inject_Z width)%Q)
    by (apply Qle_shift_div_l; [exact HW | rewrite Qmult_0_l; exact HMW]).
  assert (Hrh : (0 <= inject_Z maxHeight / inject_Z height)%Q)
    by (apply Qle_shift_div_l; [exact HH | rewrite Qmult_0_l; exact HMH]).
  split; [apply Q.min_glb; assumption |]. split.
  - apply Qle_trans with (inject_Z width * (inject_Z maxWidth / inject_Z width))%Q.
    + rewrite !(Qmult_comm (inject_Z width)).
      apply Qmult_le_compat_r; [apply Q.le_min_l | apply Qlt_le_weak, HW].
    + apply Qle_lteq. right. apply Qmult_div_r.
      intros E. rewrite E in HW. exact (Qlt_irrefl _ HW).
  - apply Qle_trans with (inject_Z height * (inject_Z maxHeight / inject_Z height))%Q.
    + rewrite !(Qmult_comm (inject_Z height)).
      apply Qmult_le_compat_r; [apply Q.le_min_r | apply Qlt_le_weak, HH].
    + apply Qle_lteq. right. apply Qmult_div_r.
      intros E. rewrite E in HH. exact (Qlt_irrefl _ HH).
Qed.

(** A side scaled as the engine does against the side scaled exactly. *)
Lemma scaled_side_exact (s bound limit : Z) (r ratio : Q) :
  0 < s < 2 ^ 25 → 0 ≤ bound ≤ 2 ^ 25 → 0 < limit < 2 ^ 25 →
  (0 <= r)%Q → (inject_Z s * r <= inject_Z bound)%Q →
  Z.pos (Qden (inject_Z s * r)) ≤ limit →
  (ratio == rnd64 r)%Q →
  let new_side := py_int_of_float (py_fmul (py_float s) ratio) in
  Qfloor (inject_Z s * r) - 1 ≤ new_side ≤ Qfloor (inject_Z s * r)
  ∧ (¬ (inject_Z s * r == inject_Z (Qfloor (inject_Z s * r)))%Q →
     new_side = Qfloor (inject_Z s * r)).
Proof.
  intros Hs Hb Hl Hr Hx Hden Hratio new_side.
  assert (HB : (inject_Z bound <= 33554432)%Q)
    by (change 33554432%Q with (inject_Z (2 ^ 25)); rewrite <- Zle_Qle; lia).
  assert (Heq : py_fmul (py_float s) ratio = py_fmul (py_float s) (rnd64 r)).
  { unfold py_fmul. apply rnd64_Qeq. rewrite Hratio. reflexivity. }
  pose proof (scaled_side_near s r ltac:(lia) Hr ltac:(lra)) as Hnear.
  assert (Hpos : (0 <= py_fmul (py_float s) (rnd64 r))%Q).
  { apply rnd64_nonneg, Qmult_le_0_compat; apply rnd64_nonneg;
      [apply inject_Z_nonneg; lia | exact Hr]. }
  unfold new_side. rewrite Heq, py_int_of_float_floor by exact Hpos.
  apply (Qfloor_nearby _ _ (1 # 67108864)); [exact Hnear | discriminate |].
  apply Qlt_le_trans with ((1 # 67108864) * inject_Z (2 ^ 25))%Q; [| discriminate].
  apply Qmult_lt_l; [reflexivity |]. rewrite <- Zlt_Qlt. lia.
Qed.

Section ResizingExact.
Context {pil : Pillow}.

(** C3. An image that fits the bounds is returned as it is.  Otherwise
    the engine calls [resize], with the Lanczos filter, for a size neither
    side of which exceeds its bound (sides positive, bounds not negative and
    at most [2^51]), and what [resize] returns has that size.  For sides
    and bounds below [2^25] each new side is the [floor(side * ratio)] of
    the spec, with [ratio = min(maxWidth/width, maxHeight/height)] over the
    rationals, or one pixel less; it is one less only where [side * ratio]
    is a whole number, which rounding to binary64 can miss from below. *)
Theorem resize_if_needed_fits (img : image) (max_width max_height : Z) :
  let width := fst (size img) in
  let height := snd (size img) in
  (width ≤ max_width ∧ height ≤ max_height →
     _resize_if_needed img max_width max_height = Ok img)
  ∧ (¬ (width ≤ max_width ∧ height ≤ max_height) →
     0 < width → 0 < height →
     0 ≤ max_width ≤ 2 ^ 51 → 0 ≤ max_height ≤ 2 ^ 51 →
     ∃ new_width new_height,
       _resize_if_needed img max_width max_height
       = pil_resize img (new_width, new_height) LANCZOS
       ∧ new_width ≤ max_width ∧ new_height ≤ max_height
       ∧ (resize_gives_size pil →
          ∀ out, _resize_if_needed img max_width max_height = Ok out →
                 size out = (new_width, new_height))
       ∧ (width < 2 ^ 25 → height < 2 ^ 25 →
          max_width ≤ 2 ^ 25 → max_height ≤ 2 ^ 25 →
          let ratio := spec_ratio width height max_width max_height in
          let exact := spec_resize_dims width height max_width max_height in
          fst exact - 1 ≤ new_width ≤ fst exact
          ∧ snd exact - 1 ≤ new_height ≤ snd exact
          ∧ (¬ (inject_Z width * ratio == inject_Z (fst exact))%Q →
             new_width = fst exact)
          ∧ (¬ (inject_Z height * ratio == inject_Z (snd exact))%Q →
             new_height = snd exact))).
Proof.
  unfold _resize_if_needed. destruct (size img) as [width height]. cbn [fst snd].
  split.
  - intros [Hw Hh].
    destruct (Z.gtb_spec width max_width), (Z.gtb_spec height max_height);
      simpl; first [reflexivity | lia].
  - intros Hbig Hw Hh Hmw Hmh.
    assert (Hbranch : (width >? max_width) || (height >? max_height) = true).
    { destruct (Z.gtb_spec width max_width), (Z.gtb_spec height max_height);
        simpl; first [reflexivity | lia]. }
    rewrite Hbranch, !py_truediv_nonzero by lia. cbn [mbind result_bind].
    set (rw := rnd64 (inject_Z max_width / inject_Z width)).
    set (rh := rnd64 (inject_Z max_height / inject_Z height)).
    eexists _, _. split; [reflexivity |].
    assert (Hpos : (0 <= py_min rw rh)%Q).
    { rewrite py_min_Qmin. apply Q.min_glb; apply rnd64_nonneg, Qle_shift_div_l;
        first [apply inject_Z_pos; assumption
              | rewrite Qmult_0_l; apply inject_Z_nonneg; lia]. }
    assert (Hlw : (py_min rw rh <= rw)%Q) by (rewrite py_min_Qmin; apply Q.le_min_l).
    assert (Hlh : (py_min rw rh <= rh)%Q) by (rewrite py_min_Qmin; apply Q.le_min_r).
    destruct (scaled_side_bound width max_width _ Hw Hmw Hpos Hlw) as [Hw0 Hwb].
    destruct (scaled_side_bound height max_height _ Hh Hmh Hpos Hlh) as [Hh0 Hhb].
    split; [rewrite py_int_of_float_floor by exact Hw0; exact Hwb |].
    split; [rewrite py_int_of_float_floor by exact Hh0; exact Hhb |].
    split.
    + intros Hsize out Hout. exact (Hsize _ _ _ _ Hout).
    + intros Hw25 Hh25 Hmw25 Hmh25.
      set (ratio := spec_ratio width height max_width max_height).
      destruct (spec_ratio_range width height max_width max_height)
        as (Hr0 & Hxw & Hxh); [lia .. |]. fold ratio in Hr0, Hxw, Hxh.
      pose proof (spec_ratio_den width width height max_width max_height Hw Hh) as Hdw.
      pose proof (spec_ratio_den height width height max_width max_height Hw Hh) as Hdh.
      fold ratio in Hdw, Hdh.
      assert (Hratio : (py_min rw rh == rnd64 ratio)%Q) by apply py_min_rnd64.
      destruct (scaled_side_exact width max_width (Z.max width height) ratio (py_min rw rh))
        as [Hw1 Hw2]; [lia .. | exact Hr0 | exact Hxw | exact Hdw | exact Hratio |].
      destruct (scaled_side_exact height max_height (Z.max width height) ratio (py_min rw rh))
        as [Hh1 Hh2]; [lia .. | exact Hr0 | exact Hxh | exact Hdh | exact Hratio |].
      unfold spec_resize_dims. fold ratio. cbn [fst snd].
      split; [exact Hw1 |]. split; [exact Hh1 |]. split; assumption.
Qed.

End ResizingExact.

Lemma resize_if_needed_fits_witness :
  ¬ (4000 ≤ 2000 ∧ 3000 ≤ 2000)
  ∧ spec_resize_dims 4000 3000 2000 2000 = (2000, 1500)
  ∧ ∃ new_width new_height,
      _resize_if_needed (pil:=Model.pillow) Model.large_image 2000 2000
      = pil_resize (Pillow:=Model.pillow) Model.large_image
          (new_width, new_height) LANCZOS
      ∧ new_width ≤ 2000 ∧ new_height ≤ 2000
      ∧ 2000 - 1 ≤ new_width ≤ 2000 ∧ 1500 - 1 ≤ new_height ≤ 1500.
Proof.
  split; [lia |]. split; [vm_compute; reflexivity |].
  destruct (proj2 (resize_if_needed_fits (pil:=Model.pillow) Model.large_image 2000 2000))
    as (new_width & new_height & Hcall & Hw & Hh & _ & Hexact); [simpl; lia .. |].
  destruct Hexact as (Hew & Heh & _); [simpl; lia .. |].
  exists new_width, new_height.
  split; [exact Hcall |]. split; [exact Hw |]. split; [exact Hh |].
  split; [exact Hew | exact Heh].
Defined.

(** The claim of §4.2 read over the rationals fails on a 2105x1000 image
    bounded by 2000x2000: the exact formula gives a width of 2000, the
    engine asks for 1999. *)
Lemma resize_if_needed_fits_counterexample :
  ¬ (∀ (pil : Pillow), resize_gives_size pil →
     ∀ (img : image) (max_width max_height : Z),
       let width := fst (size img) in
       let height := snd (size img) in
       ¬ (width ≤ max_width ∧ height ≤ max_height) →
       0 < width → 0 < height → 0 ≤ max_width → 0 ≤ max_height →
       ∀ out, _resize_if_needed img max_width max_height = Ok out →
              size out = spec_resize_dims width height max_width max_height).
Proof.
  intros Hclaim.
  assert (Hcall : ∃ out, _resize_if_needed (pil:=Model.pillow) Machine.header_2105 2000 2000 = Ok out
                         ∧ size out = (1999, 950)).
  { rewrite (resize_if_needed_call (pil:=Model.pillow) Machine.header_2105 2000 2000)
      by (simpl; lia).
    replace (binary64_resize_dims (fst (size Machine.header_2105)) (snd (size Machine.header_2105)) 2000 2000)
      with (1999, 950) by (vm_compute; reflexivity).
    eexists. split; reflexivity. }
  destruct Hcall as (out & Hout & Hsize).
  specialize (Hclaim Model.pillow model_resize_gives_size Machine.header_2105 2000 2000).
  cbn zeta in Hclaim.
  assert (Hexact : size out = spec_resize_dims 2105 1000 2000 2000).
  { apply Hclaim; [simpl; lia .. | exact Hout]. }
  rewrite Hsize in Hexact. vm_compute in Hexact. discriminate.
Qed.

(** ** The helpers of the engine *)

Section Helpers.
Context {py : Python} {pil : Pillow} {os : Platform}.

(** X1. For bounds in order, [_clamp_int] answers a number between them:
    the value itself when [int] reads one in range, the nearer bound when
    it reads one outside.  For bounds out of order it answers the lower
    one, whatever the value. *)
Theorem clamp_int_between (value : pyval) (min_value max_value : Z) :
  (min_value ≤ max_value →
     min_value ≤ _clamp_int value min_value max_value ≤ max_value
     ∧ (∀ z, py_int value = Ok z → min_value ≤ z ≤ max_value →
          _clamp_int value min_value max_value = z)
     ∧ (∀ z, py_int value = Ok z → z < min_value →
          _clamp_int value min_value max_value = min_value)
     ∧ (∀ z, py_int value = Ok z → max_value < z →
          _clamp_int value min_value max_value = max_value))
  ∧ (max_value < min_value → _clamp_int value min_value max_value = min_value).
Proof.
  unfold _clamp_int. split.
  - intros Hle. split; [lia |]. repeat split; intros z -> Hz; lia.
  - lia.
Qed.

(** X2. [_get_image_preset] answers one of the three presets: the
    configured one when it is one of them, and the custom preset when it is
    another string or absent. *)
Theorem get_image_preset_known (cfg : config) :
  _get_image_preset cfg ∈ [PRESET_CUSTOM; PRESET_COMPRESSION_FIRST; PRESET_CLARITY_FIRST]
  ∧ (∀ p, image_preset cfg = Some p →
       p ∈ [PRESET_CUSTOM; PRESET_COMPRESSION_FIRST; PRESET_CLARITY_FIRST] →
       _get_image_preset cfg = p)
  ∧ (∀ p, image_preset cfg = Some p →
       p ∉ [PRESET_CUSTOM; PRESET_COMPRESSION_FIRST; PRESET_CLARITY_FIRST] →
       _get_image_preset cfg = PRESET_CUSTOM)
  ∧ (image_preset cfg = None → _get_image_preset cfg = PRESET_CUSTOM).
Proof.
  unfold _get_image_preset. repeat split.
  - case_bool_decide; [assumption |]. apply list_elem_of_here.
  - intros p -> Hp. simpl. rewrite bool_decide_eq_true_2 by exact Hp. reflexivity.
  - intros p -> Hp. simpl. rewrite bool_decide_eq_false_2 by exact Hp. reflexivity.
  - intros ->. reflexivity.
Qed.

(** X3. A path [_normalize_path] returns is the resolved form of a path
    that is not empty, holds no [..] and does not start with two
    backslashes.  The function raises only what [resolve] raises, and never
    a [ValueError] or an [OSError]; for the empty path it answers [None]. *)
Theorem normalize_path_safe (w : world) (path : string) :
  (∀ p, _normalize_path w path = Ok (Some p) →
     path ≠ "" ∧ path_resolve w path = Ok p
     ∧ str_contains ".." p = false ∧ String.prefix "\\" p = false)
  ∧ (∀ e, _normalize_path w path = Raise e →
       path_resolve w path = Raise e ∧ is_ValueError e = false ∧ is_OSError e = false)
  ∧ (path = "" → _normalize_path w path = Ok None).
Proof.
  unfold _normalize_path. split; [| split].
  - intros p. destruct (String.eqb_spec path ""); [discriminate |].
    destruct (path_resolve w path) as [p' | e]; [| destruct (_ || _); discriminate].
    destruct (str_contains ".." p') eqn:Hc, (String.prefix "\\" p') eqn:Hp;
      simpl; intros [=]; subst; auto.
  - intros e. destruct (String.eqb path ""); [discriminate |].
    destruct (path_resolve w path) as [p' | e']; [destruct (_ || _); discriminate |].
    destruct (is_ValueError e') eqn:Hv, (is_OSError e') eqn:Ho;
      simpl; intros [=]; subst; auto.
  - intros ->. reflexivity.
Qed.

(** X4. A preset that is neither the compression-first nor the
    clarity-first one is treated as the custom preset by the three
    encoders. *)
Theorem unknown_preset_is_custom (w : world) (img : image) (target_path : string)
    (photo_quality : Z) (image_preset : string) :
  image_preset ≠ PRESET_COMPRESSION_FIRST → image_preset ≠ PRESET_CLARITY_FIRST →
  _save_jpeg w img target_path photo_quality image_preset
    = _save_jpeg w img target_path photo_quality PRESET_CUSTOM
  ∧ _save_webp w img target_path photo_quality image_preset
    = _save_webp w img target_path photo_quality PRESET_CUSTOM
  ∧ _save_png w img target_path photo_quality image_preset
    = _save_png w img target_path photo_quality PRESET_CUSTOM.
Proof.
  intros Hc Hl. unfold _save_jpeg, _save_webp, _save_png.
  apply String.eqb_neq in Hc, Hl. rewrite Hc, Hl. auto.
Qed.

(** X5. For a quality between 0 and 100, whatever the extension and the
    preset, [_save_image] either raises before anything is written, the file
    system untouched, or ends in one call of [save] on the target path, whose
    outcome is its own, with a quality between 0 and 100, a compress level
    of 6 or 9 and the method 6 wherever it passes one. *)
Theorem save_image_sane_options (w w' : world) (img : image)
    (target_path target_ext : string) (photo_quality : Z) (image_preset : string)
    (r : result unit) :
  0 ≤ photo_quality ≤ 100 →
  _save_image w img target_path target_ext photo_quality image_preset = (w', r) →
  (w' = w ∧ ∃ e, r = Raise e)
  ∨ ∃ save_img options, Image_save w save_img target_path options = (w', r)
                        ∧ sane_options options.
Proof.
  intros Hq. unfold _save_image, _save_jpeg, _save_webp, _save_png.
  assert (Hs : ∀ l, l = 6 ∨ l = 9 → sane_options (png_options l)).
  { intros l Hl. split; [| split]; simpl; intros ?; inversion 1; subst; auto. }
  assert (Hj : ∀ q, 0 ≤ q ≤ 100 → sane_options (jpeg_options q)).
  { intros q Hq'. split; [| split]; simpl; intros ?; inversion 1; subst; lia. }
  repeat match goal with
  | |- context [if ?c then _ else _] => destruct c
  | |- context [match ?c with Ok _ => _ | Raise _ => _ end] => destruct c
  end;
  intros Hr;
  try (left; inversion Hr; subst; split; [reflexivity | eexists; reflexivity]);
  right; eexists _, _; (split; [exact Hr |]);
  try (apply Hs; auto); try (apply Hj; lia);
  (split; [| split]); simpl; intros ?; inversion 1; subst; lia.
Qed.

End Helpers.

(** ** Palettes and flattening *)

Section Palettes.
Context {pil : Pillow}.

Lemma png_colors_le (q1 q2 : Z) : q1 ≤ q2 → png_colors q1 ≤ png_colors q2.
Proof.
  intros H. unfold png_colors.
  apply Z.max_le_compat_l, Z.min_le_compat_l, py_round_mono, py_fadd_mono_r.
  apply py_fmul_mono_r; [vm_compute; discriminate |].
  apply fdiv_mono; [reflexivity |]. apply py_float_mono, H.
Qed.

(** X6. The number of palette colours asked for never goes down when
    the quality goes up, through all the roundings of the formula, and it
    stays between 16 and 256. *)
Theorem png_colors_monotone (q1 q2 : Z) :
  q1 ≤ q2 → 16 ≤ png_colors q1 ≤ png_colors q2 ∧ png_colors q2 ≤ 256.
Proof.
  intros H. split; [split |].
  - unfold png_colors. lia.
  - apply png_colors_le, H.
  - unfold png_colors. lia.
Qed.

(** X7. Below quality 70, where the custom preset quantizes, the number
    of colours is between 16 and 253: the upper clamp at 256 is never
    reached there. *)
Theorem png_colors_below_70 (q : Z) :
  q < 70 → 16 ≤ png_colors q ≤ 253.
Proof.
  intros H. split; [unfold png_colors; lia |].
  transitivity (png_colors 69); [apply png_colors_le; lia |].
  vm_compute. discriminate.
Qed.

(** X8. With no quantizer that works, [_maybe_quantize_png] gives back
    the image it was given when its mode is [P], [RGB] or [RGBA]; for
    another mode it gives back the [RGBA] conversion of the image, not the
    image itself, unless the conversion fails too. *)
Theorem maybe_quantize_png_without_quantizer (img : image) (colors : Z) (d : dither) :
  (∀ i c d, ∃ e, pil_convert_adaptive i c d = Raise e) →
  (∀ i c m d, ∃ e, pil_quantize i c m d = Raise e) →
  (mode img ∈ ["P"; "RGB"; "RGBA"] → _maybe_quantize_png img colors d = img)
  ∧ (mode img ∉ ["P"; "RGB"; "RGBA"] →
       _maybe_quantize_png img colors d
       = match pil_convert img "RGBA" with Ok rgba => rgba | Raise _ => img end).
Proof.
  intros Ha Hq. unfold _maybe_quantize_png. split; intros Hm.
  - destruct (String.eqb_spec (mode img) "P"); [reflexivity |].
    rewrite bool_decide_eq_true_2
      by (rewrite !elem_of_cons in Hm; rewrite !elem_of_cons; tauto).
    destruct (Ha img colors d) as [e ->].
    destruct (Hq img colors (if String.eqb (mode img) "RGB" then MEDIANCUT else FASTOCTREE) d)
      as [e' ->]. reflexivity.
  - destruct (String.eqb_spec (mode img) "P") as [HP |];
      [exfalso; apply Hm; rewrite HP; apply list_elem_of_here |].
    rewrite bool_decide_eq_false_2
      by (intros Hin; apply Hm, list_elem_of_further, Hin).
    destruct (pil_convert img "RGBA") as [rgba | e]; [| reflexivity].
    destruct (Ha rgba colors d) as [e ->].
    destruct (Hq rgba colors (if String.eqb (mode rgba) "RGB" then MEDIANCUT else FASTOCTREE) d)
      as [e' ->]. reflexivity.
Qed.

(** X9. An [RGB] or [RGBA] image is worth quantizing exactly when it
    has at most 256 distinct colours. *)
Theorem should_quantize_png_colour_count (img : image) :
  mode img ∈ ["RGB"; "RGBA"] →
  _should_quantize_png img = bool_decide (length (remove_dups (data img)) ≤ 256)%nat.
Proof.
  intros Hm. unfold _should_quantize_png, getcolors.
  destruct (String.eqb_spec (mode img) "P") as [HP |].
  { rewrite HP, !elem_of_cons in Hm. destruct Hm as [[=] | [[=] | Hm]]. inversion Hm. }
  rewrite bool_decide_eq_true_2 by exact Hm.
  destruct (Z.gtb_spec (Z.of_nat (length (remove_dups (data img)))) 257).
  - symmetry. apply bool_decide_eq_false_2. lia.
  - destruct (Z.leb_spec (Z.of_nat (length (remove_dups (data img)))) 256).
    + symmetry. apply bool_decide_eq_true_2. lia.
    + symmetry. apply bool_decide_eq_false_2. lia.
Qed.

(** X10. On an image that carries no transparency, the conversion for
    JPEG and the conversion for 24-bit PNG are the same. *)
Theorem convert_for_jpeg_png24_agree (img : image) :
  carries_transparency img = false →
  _convert_for_jpeg img = _convert_for_png24 img.
Proof.
  intros Hc. unfold _convert_for_jpeg, _convert_for_png24. rewrite Hc.
  destruct (String.eqb (mode img) "RGB"); [reflexivity |].
  unfold carries_transparency in Hc.
  apply orb_false_iff in Hc as [Hc _]. rewrite Hc. reflexivity.
Qed.

End Palettes.

(** ** The difference statistics *)

Lemma diff_loop_symmetric (data_a data_b : list (list Z)) (sum_abs high_count : Z) :
  diff_loop data_a data_b sum_abs high_count = diff_loop data_b data_a sum_abs high_count.
Proof.
  revert data_b sum_abs high_count.
  induction data_a as [| pa data_a IH]; intros [| pb data_b] s h; try reflexivity.
  cbn [diff_loop]. unfold band.
  destruct (pa !! 0%nat) as [a0 |], (pb !! 0%nat) as [b0 |],
           (pa !! 1%nat) as [a1 |], (pb !! 1%nat) as [b1 |],
           (pa !! 2%nat) as [a2 |], (pb !! 2%nat) as [b2 |],
           (pa !! 3%nat) as [a3 |], (pb !! 3%nat) as [b3 |]; try reflexivity.
  cbn -[Z.add Z.sub Z.abs Z.gtb]. rewrite IH.
  replace (Z.abs (b0 - a0)) with (Z.abs (a0 - b0)) by lia.
  replace (Z.abs (b1 - a1)) with (Z.abs (a1 - b1)) by lia.
  replace (Z.abs (b2 - a2)) with (Z.abs (a2 - b2)) by lia.
  replace (Z.abs (b3 - a3)) with (Z.abs (a3 - b3)) by lia.
  reflexivity.
Qed.

Lemma four_bands (px : list Z) :
  length px = 4%nat → ∃ r g b a, px = [r; g; b; a].
Proof.
  destruct px as [| r [| g [| b [| a [| ? ?]]]]]; try discriminate. eauto.
Qed.

Lemma diff_loop_totals (data_a data_b : list (list Z)) (sum_abs high_count : Z) :
  Forall (λ px : list Z, length px = 4%nat) data_a →
  Forall (λ px : list Z, length px = 4%nat) data_b →
  diff_loop data_a data_b sum_abs high_count
  = Ok (sum_abs + total_diff data_a data_b, high_count + high_pixels data_a data_b).
Proof.
  intros Ha. revert data_b sum_abs high_count.
  induction Ha as [| pa data_a Hpa Ha IH]; intros data_b s h Hb.
  - simpl. rewrite !Z.add_0_r. reflexivity.
  - destruct Hb as [| pb data_b Hpb Hb].
    + simpl. rewrite !Z.add_0_r. reflexivity.
    + destruct (four_bands _ Hpa) as (a0 & a1 & a2 & a3 & ->).
      destruct (four_bands _ Hpb) as (b0 & b1 & b2 & b3 & ->).
      cbn [diff_loop band lookup list_lookup mbind result_bind]. 
      cbn -[Z.add Z.sub Z.abs Z.gtb]. rewrite IH by exact Hb.
      cbn [total_diff high_pixels]. unfold pixel_high, pixel_diff, band_diff.
      cbn [existsb nth]. rewrite orb_false_r, !orb_assoc.
      destruct (_ || _); do 2 f_equal; lia.
Qed.

Lemma band_diff_range (pa pb : list Z) (i : nat) :
  Forall (λ v, 0 ≤ v ≤ 255) pa → Forall (λ v, 0 ≤ v ≤ 255) pb →
  0 ≤ band_diff pa pb i ≤ 255.
Proof.
  intros Ha Hb. unfold band_diff.
  assert (Hn : ∀ p, Forall (λ v, 0 ≤ v ≤ 255) p → 0 ≤ nth i p 0 ≤ 255).
  { intros p Hp. destruct (nth_in_or_default i p 0) as [Hin | ->]; [| lia].
    rewrite List.Forall_forall in Hp. apply Hp, Hin. }
  pose proof (Hn pa Ha). pose proof (Hn pb Hb). lia.
Qed.

Lemma totals_range (data_a data_b : list (list Z)) :
  eight_bit_rgba data_a → eight_bit_rgba data_b →
  0 ≤ total_diff data_a data_b ≤ 1020 * common_pixels data_a data_b
  ∧ 0 ≤ high_pixels data_a data_b ≤ common_pixels data_a data_b.
Proof.
  unfold common_pixels. intros Ha. revert data_b.
  induction Ha as [| pa data_a [_ Hpa] Ha IH]; intros data_b Hb.
  - simpl. lia.
  - destruct Hb as [| pb data_b [_ Hpb] Hb]; [simpl; lia |].
    specialize (IH data_b Hb). cbn [total_diff high_pixels length].
    unfold pixel_diff.
    pose proof (band_diff_range pa pb 0 Hpa Hpb).
    pose proof (band_diff_range pa pb 1 Hpa Hpb).
    pose proof (band_diff_range pa pb 2 Hpa Hpb).
    pose proof (band_diff_range pa pb 3 Hpa Hpb).
    destruct (pixel_high pa pb); lia.
Qed.

Lemma eight_bit_four_bands (d : list (list Z)) :
  eight_bit_rgba d → Forall (λ px : list Z, length px = 4%nat) d.
Proof. intros H. eapply List.Forall_impl; [| exact H]. intros px [Hl _]. exact Hl. Qed.

Lemma pixel_diff_zero (pa pb : list Z) :
  length pa = 4%nat → length pb = 4%nat → (pixel_diff pa pb = 0 ↔ pa = pb).
Proof.
  intros Ha Hb.
  destruct (four_bands _ Ha) as (a0 & a1 & a2 & a3 & ->).
  destruct (four_bands _ Hb) as (b0 & b1 & b2 & b3 & ->).
  unfold pixel_diff, band_diff. cbn [nth]. split.
  - intros H. repeat f_equal; lia.
  - intros [= -> -> -> ->]. lia.
Qed.

Lemma pixel_diff_nonneg (pa pb : list Z) : 0 ≤ pixel_diff pa pb.
Proof. unfold pixel_diff, band_diff. lia. Qed.

Lemma total_diff_nonneg (data_a data_b : list (list Z)) : 0 ≤ total_diff data_a data_b.
Proof.
  revert data_b. induction data_a as [| pa data_a IH]; intros [| pb data_b]; simpl; try lia.
  pose proof (pixel_diff_nonneg pa pb). specialize (IH data_b). lia.
Qed.

Lemma total_diff_zero (data_a data_b : list (list Z)) :
  Forall (λ px : list Z, length px = 4%nat) data_a →
  Forall (λ px : list Z, length px = 4%nat) data_b →
  total_diff data_a data_b = 0
  ↔ take (length data_b) data_a = take (length data_a) data_b.
Proof.
  intros Ha. revert data_b.
  induction Ha as [| pa data_a Hpa Ha IH]; intros data_b Hb.
  - simpl. rewrite take_nil. tauto.
  - destruct Hb as [| pb data_b Hpb Hb]; [simpl; tauto |].
    cbn [total_diff length take].
    pose proof (pixel_diff_nonneg pa pb). pose proof (total_diff_nonneg data_a data_b).
    specialize (IH data_b Hb). split.
    + intros H1. assert (Hp : pixel_diff pa pb = 0) by lia.
      apply pixel_diff_zero in Hp; [| assumption ..]. subst pb. f_equal. apply IH. lia.
    + intros [= -> Ht]. apply IH in Ht.
      assert (pixel_diff pb pb = 0) by (apply pixel_diff_zero; auto). lia.
Qed.

Lemma high_pixels_le_total_diff (data_a data_b : list (list Z)) :
  0 ≤ high_pixels data_a data_b ≤ total_diff data_a data_b.
Proof.
  revert data_b. induction data_a as [| pa data_a IH]; intros [| pb data_b]; simpl; try lia.
  specialize (IH data_b). unfold pixel_high, pixel_diff. cbn [existsb].
  assert (Hb : ∀ i, 0 ≤ band_diff pa pb i) by (intros i; unfold band_diff; lia).
  pose proof (Hb 0%nat). pose proof (Hb 1%nat). pose proof (Hb 2%nat). pose proof (Hb 3%nat).
  destruct (Z.gtb_spec (band_diff pa pb 0) 24), (Z.gtb_spec (band_diff pa pb 1) 24),
           (Z.gtb_spec (band_diff pa pb 2) 24), (Z.gtb_spec (band_diff pa pb 3) 24);
    cbn [orb]; lia.
Qed.

Section Statistics.
Context {py : Python} {pil : Pillow}.

(** X11. The statistics do not depend on the order of the two images,
    errors included. *)
Theorem compute_image_diff_stats_symmetric (img_a img_b : image) :
  _compute_image_diff_stats img_a img_b = _compute_image_diff_stats img_b img_a.
Proof.
  unfold _compute_image_diff_stats.
  rewrite (Z.min_comm (Z.of_nat (length (data img_b)))).
  rewrite (diff_loop_symmetric (data img_b)). reflexivity.
Qed.

Lemma compute_image_diff_stats_value (img_a img_b : image) :
  let total := common_pixels (data img_a) (data img_b) in
  eight_bit_rgba (data img_a) → eight_bit_rgba (data img_b) →
  0 < total ≤ 2 ^ 40 →
  _compute_image_diff_stats img_a img_b
  = Ok (rnd64 (inject_Z (total_diff (data img_a) (data img_b)) / inject_Z (total * 4)),
        rnd64 (inject_Z (high_pixels (data img_a) (data img_b) * 100) / inject_Z total)).
Proof.
  intros total Ha Hb Ht.
  destruct (totals_range _ _ Ha Hb) as [Hs Hh]. fold total in Hs, Hh.
  unfold _compute_image_diff_stats. fold (common_pixels (data img_a) (data img_b)). fold total.
  destruct (Z.leb_spec total 0); [lia |].
  rewrite diff_loop_totals by (apply eight_bit_four_bands; assumption).
  cbn [mbind result_bind]. rewrite !Z.add_0_l.
  rewrite (py_fdiv_by_float _ (total * 4)) by lia.
  cbn [mbind result_bind].
  rewrite (py_fdiv_by_float _ total) by lia.
  cbn [mbind result_bind]. unfold fdiv.
  rewrite !py_float_exact by lia.
  change 100%Q with (inject_Z 100). rewrite py_fmul_int by lia.
  reflexivity.
Qed.

(** X12. On two rasters of four 8-bit bands, [_compute_image_diff_stats]
    does not raise, and each statistic is the exact quantity rounded once:
    the sum of the absolute band differences over four times the number of
    pixels compared, and a hundred times the number of pixels with a band
    more than 24 apart over the number of pixels compared.  The mean lies
    between 0 and 255 and the percentage between 0 and 100. *)
Theorem compute_image_diff_stats_exact (img_a img_b : image) :
  let total := common_pixels (data img_a) (data img_b) in
  eight_bit_rgba (data img_a) → eight_bit_rgba (data img_b) →
  0 < total ≤ 2 ^ 40 →
  ∃ mae high_pct,
    _compute_image_diff_stats img_a img_b = Ok (mae, high_pct)
    ∧ mae = rnd64 (inject_Z (total_diff (data img_a) (data img_b)) / inject_Z (4 * total))
    ∧ high_pct
      = rnd64 (inject_Z (100 * high_pixels (data img_a) (data img_b)) / inject_Z total)
    ∧ (0 <= mae <= 255)%Q ∧ (0 <= high_pct <= 100)%Q.
Proof.
  intros total Ha Hb Ht.
  destruct (totals_range _ _ Ha Hb) as [Hs Hh]. fold total in Hs, Hh.
  eexists _, _. split; [apply compute_image_diff_stats_value; assumption |].
  fold total. rewrite (Z.mul_comm total 4), (Z.mul_comm _ 100).
  split; [reflexivity |]. split; [reflexivity |]. split; split.
  - apply (rnd64_quotient_ge _ _ 0); lia.
  - apply (rnd64_quotient_le _ _ 255); lia.
  - apply (rnd64_quotient_ge _ _ 0); lia.
  - apply (rnd64_quotient_le _ _ 100); lia.
Qed.

(** X13. On two rasters of four 8-bit bands, the statistics are both
    zero exactly when the pixels compared are the same on both sides. *)
Theorem compute_image_diff_stats_zero (img_a img_b : image) :
  let total := common_pixels (data img_a) (data img_b) in
  eight_bit_rgba (data img_a) → eight_bit_rgba (data img_b) →
  0 < total ≤ 2 ^ 40 →
  _compute_image_diff_stats img_a img_b = Ok (0%Q, 0%Q)
  ↔ take (length (data img_b)) (data img_a) = take (length (data img_a)) (data img_b).
Proof.
  intros total Ha Hb Ht.
  rewrite compute_image_diff_stats_value by assumption. fold total.
  rewrite <- total_diff_zero by (apply eight_bit_four_bands; assumption).
  pose proof (high_pixels_le_total_diff (data img_a) (data img_b)) as Hh.
  pose proof (total_diff_nonneg (data img_a) (data img_b)) as Hs.
  split.
  - intros [= Hm _].
    destruct (Z.eq_dec (total_diff (data img_a) (data img_b)) 0) as [| Hne]; [assumption |].
    exfalso.
    assert (Hpos : (0 < rnd64 (inject_Z (total_diff (data img_a) (data img_b))
                               / inject_Z (total * 4)))%Q).
    { apply rnd64_positive. apply Qlt_shift_div_l; [apply inject_Z_pos; lia |].
      rewrite Qmult_0_l. apply inject_Z_pos. lia. }
    rewrite Hm in Hpos. exact (Qlt_irrefl _ Hpos).
  - intros H0. assert (H1 : high_pixels (data img_a) (data img_b) = 0) by lia.
    rewrite H0, H1. rewrite !rnd64_zero; [reflexivity | reflexivity | reflexivity].
Qed.

(** X14. For two [RGBA] images of one size, no side above 256, the
    roundings never move the verdict: the pair is accepted exactly when the
    sum of the absolute band differences is at most 24 times the number of
    pixels, which is a mean of at most 6, and the pixels with a band more
    than 24 apart are at most one in fifty. *)
Theorem should_accept_png8_exact (original_img png8_img : image) (width height : Z) :
  mode original_img = "RGBA" → mode png8_img = "RGBA" →
  size original_img = (width, height) → size png8_img = (width, height) →
  0 < width ≤ 256 → 0 < height ≤ 256 →
  full_raster original_img → full_raster png8_img →
  eight_bit_rgba (data original_img) → eight_bit_rgba (data png8_img) →
  accept (_should_accept_png8 original_img png8_img)
  = (total_diff (data original_img) (data png8_img) <=? 24 * (width * height))
    && (50 * high_pixels (data original_img) (data png8_img) <=? width * height).
Proof.
  intros Hma Hmb Hsa Hsb Hw Hh Hfa Hfb Ha Hb.
  assert (Ht : common_pixels (data original_img) (data png8_img) = width * height).
  { unfold common_pixels. rewrite Hfa, Hfb, Hsa, Hsb. cbn [fst snd]. nia. }
  assert (Hp : _prepare_compare_images original_img png8_img
               = Ok (original_img, png8_img)).
  { unfold _prepare_compare_images. rewrite Hma, Hmb. cbn [String.eqb negb mbind result_bind].
    simpl. rewrite Hsa, Hsb.
    rewrite bool_decide_eq_false_2 by (intros E; apply E; reflexivity).
    cbn [mbind result_bind].
    destruct (Z.gtb_spec width 256); [lia |]. destruct (Z.gtb_spec height 256); [lia |].
    reflexivity. }
  unfold _should_accept_png8, compare_images. rewrite Hp. cbn [mbind result_bind].
  rewrite compute_image_diff_stats_value by (try assumption; rewrite Ht; nia).
  rewrite Ht. cbn [accept].
  change 6%Q with (inject_Z 6). change 2%Q with (inject_Z 2).
  rewrite !py_lt_rounded_quotient by nia.
  set (s := total_diff _ _). set (h := high_pixels _ _).
  destruct (Z.ltb_spec (6 * (width * height * 4)) s),
           (Z.ltb_spec (2 * (width * height)) (h * 100)),
           (Z.leb_spec s (24 * (width * height))),
           (Z.leb_spec (50 * h) (width * height)); try reflexivity; lia.
Qed.

End Statistics.

(** ** Resizing and sampling *)

Section Scaling.
Context {pil : Pillow}.

(** X15. When [_resize_if_needed] resizes, neither new side is longer
    than the side it replaces, and neither is negative.  Sides are positive
    and below [2^53], bounds are not negative. *)
Theorem resize_if_needed_never_enlarges (img : image) (max_width max_height : Z) :
  let width := fst (size img) in
  let height := snd (size img) in
  0 < width < 2 ^ 53 → 0 < height < 2 ^ 53 →
  0 ≤ max_width → 0 ≤ max_height →
  ¬ (width ≤ max_width ∧ height ≤ max_height) →
  ∃ new_width new_height,
    _resize_if_needed img max_width max_height
    = pil_resize img (new_width, new_height) LANCZOS
    ∧ 0 ≤ new_width ≤ width ∧ 0 ≤ new_height ≤ height.
Proof.
  unfold _resize_if_needed. destruct (size img) as [width height]. simpl.
  intros Hw Hh Hmw Hmh Hbig.
  assert (Hbranch : (width >? max_width) || (height >? max_height) = true).
  { destruct (Z.gtb_spec width max_width), (Z.gtb_spec height max_height);
      simpl; first [reflexivity | lia]. }
  rewrite Hbranch, !py_truediv_nonzero by lia. simpl.
  rewrite py_min_Qmin.
  set (rw := rnd64 (inject_Z max_width / inject_Z width)).
  set (rh := rnd64 (inject_Z max_height / inject_Z height)).
  destruct (rounded_ratio_range width max_width) as [Hrw0 Hrw1]; [lia .. |].
  destruct (rounded_ratio_range height max_height) as [Hrh0 Hrh1]; [lia .. |].
  fold rw in Hrw0, Hrw1. fold rh in Hrh0, Hrh1.
  assert (Hratio : (0 <= Qmin rw rh <= 1)%Q).
  { split; [apply Q.min_glb; assumption |].
    destruct (Z_le_gt_dec width max_width).
    - apply Qle_trans with rh; [apply Q.le_min_r | apply Hrh1; lia].
    - apply Qle_trans with rw; [apply Q.le_min_l | apply Hrw1; lia]. }
  eexists _, _. split; [reflexivity |].
  split; apply scaled_side_shrinks; assumption.
Qed.

(** X16. When the width is the side that binds, that is when
    [max_width/width] is at most [max_height/height], the new width is the
    bound or one pixel less: the roundings cost at most one pixel. *)
Theorem resize_if_needed_binding_width (img : image) (max_width max_height : Z) :
  let width := fst (size img) in
  let height := snd (size img) in
  0 < width < 2 ^ 53 → 0 < height →
  0 ≤ max_width ≤ 2 ^ 51 → 0 ≤ max_height →
  ¬ (width ≤ max_width ∧ height ≤ max_height) →
  max_width * height ≤ max_height * width →
  ∃ new_width new_height,
    _resize_if_needed img max_width max_height
    = pil_resize img (new_width, new_height) LANCZOS
    ∧ max_width - 1 ≤ new_width ≤ max_width.
Proof.
  unfold _resize_if_needed. destruct (size img) as [width height]. simpl.
  intros Hw Hh Hmw Hmh Hbig Hbind.
  assert (Hbranch : (width >? max_width) || (height >? max_height) = true).
  { destruct (Z.gtb_spec width max_width), (Z.gtb_spec height max_height);
      simpl; first [reflexivity | lia]. }
  rewrite Hbranch, !py_truediv_nonzero by lia. simpl.
  set (rw := rnd64 (inject_Z max_width / inject_Z width)).
  set (rh := rnd64 (inject_Z max_height / inject_Z height)).
  assert (Hle : (rw <= rh)%Q).
  { apply rnd64_mono.
    apply Qle_shift_div_l; [apply inject_Z_pos; lia |].
    unfold Qdiv. rewrite <- Qmult_assoc, (Qmult_comm (/ _)), Qmult_assoc.
    apply Qle_shift_div_r; [apply inject_Z_pos; lia |].
    rewrite <- !inject_Z_mult, <- Zle_Qle. lia. }
  assert (Hmin : py_min rw rh = rw).
  { unfold py_min. rewrite (proj2 (py_lt_false rh rw) Hle). reflexivity. }
  rewrite Hmin. eexists _, _. split; [reflexivity |]. split.
  - apply scaled_side_lower; lia.
  - destruct (rounded_ratio_range width max_width) as [Hrw0 _]; [lia .. |].
    destruct (scaled_side_bound width max_width rw) as [Hp0 Hb];
      [lia | lia | exact Hrw0 | apply Qle_refl |].
    rewrite py_int_of_float_floor by exact Hp0. exact Hb.
Qed.

(** X17. Two [RGBA] images of one size are compared as they are when
    no side is above 256.  Otherwise both are resized, with the bilinear
    filter, to one size whose sides are between 1 and 256 and not longer
    than the sides they replace. *)
Theorem prepare_compare_images_sample (original_img png8_img : image) (width height : Z) :
  mode original_img = "RGBA" → mode png8_img = "RGBA" →
  size original_img = (width, height) → size png8_img = (width, height) →
  0 < width < 2 ^ 53 → 0 < height < 2 ^ 53 →
  (width ≤ 256 ∧ height ≤ 256 →
     _prepare_compare_images original_img png8_img = Ok (original_img, png8_img))
  ∧ (¬ (width ≤ 256 ∧ height ≤ 256) →
     ∃ new_width new_height,
       1 ≤ new_width ≤ 256 ∧ 1 ≤ new_height ≤ 256
       ∧ new_width ≤ width ∧ new_height ≤ height
       ∧ _prepare_compare_images original_img png8_img
         = (a ← pil_resize original_img (new_width, new_height) BILINEAR;
            b ← pil_resize png8_img (new_width, new_height) BILINEAR;
            Ok (a, b))).
Proof.
  intros Hma Hmb Hsa Hsb Hw Hh.
  unfold _prepare_compare_images. rewrite Hma, Hmb. cbn [String.eqb negb mbind result_bind].
  simpl. rewrite Hsa, Hsb.
  rewrite bool_decide_eq_false_2 by (intros E; apply E; reflexivity).
  cbn [mbind result_bind]. split.
  - intros [Hw' Hh'].
    destruct (Z.gtb_spec width 256); [lia |]. destruct (Z.gtb_spec height 256); [lia |].
    reflexivity.
  - intros Hbig.
    assert (Hbranch : (width >? 256) || (height >? 256) = true).
    { destruct (Z.gtb_spec width 256), (Z.gtb_spec height 256);
        simpl; first [reflexivity | lia]. }
    rewrite Hbranch, !py_fdiv_by_float by lia. cbn [mbind result_bind].
    unfold fdiv. rewrite !(py_float_exact 256), !(py_float_exact width),
      !(py_float_exact height) by lia.
    rewrite py_min_Qmin.
    set (rw := rnd64 (inject_Z 256 / inject_Z width)).
    set (rh := rnd64 (inject_Z 256 / inject_Z height)).
    destruct (rounded_ratio_range width 256) as [Hrw0 Hrw1]; [lia .. |].
    destruct (rounded_ratio_range height 256) as [Hrh0 Hrh1]; [lia .. |].
    fold rw in Hrw0, Hrw1. fold rh in Hrh0, Hrh1.
    assert (Hratio : (0 <= Qmin rw rh <= 1)%Q).
    { split; [apply Q.min_glb; assumption |].
      destruct (Z_le_gt_dec width 256).
      - apply Qle_trans with rh; [apply Q.le_min_r | apply Hrh1; lia].
      - apply Qle_trans with rw; [apply Q.le_min_l | apply Hrw1; lia]. }
    pose proof (scaled_side_shrinks width _ Hw Hratio) as Hsw.
    pose proof (scaled_side_shrinks height _ Hh Hratio) as Hsh.
    destruct (scaled_side_bound width 256 (Qmin rw rh)) as [Hpw Hbw];
      [lia | lia | apply Hratio | apply Q.le_min_l |].
    destruct (scaled_side_bound height 256 (Qmin rw rh)) as [Hph Hbh];
      [lia | lia | apply Hratio | apply Q.le_min_r |].
    rewrite !py_float_exact in Hsw, Hsh, Hpw, Hbw, Hph, Hbh by lia.
    rewrite py_int_of_float_floor in Hsw, Hsh by assumption.
    rewrite !py_int_of_float_floor by assumption.
    eexists _, _. split; [| split; [| split; [| split; [| reflexivity]]]]; lia.
Qed.

End Scaling.

(** ** What [compress] does with a path *)

Section Paths.
Context {py : Python} {pil : Pillow} {os : Platform}.

Lemma compress_try_rejected_source (cfg : config) (w : world)
    (source_path target_path : string) :
  _normalize_path w source_path = Ok None →
  compress_try cfg w source_path target_path = (w, Raise FileNotFoundError).
Proof. intros H. unfold compress_try. rewrite H. reflexivity. Qed.

Lemma compress_try_no_directory (cfg : config) (w : world)
    (source_path target_path : string) :
  os_path_dirname target_path = "" →
  ∃ e, compress_try cfg w source_path target_path = (w, Raise e).
Proof.
  intros H. unfold compress_try. rewrite H.
  destruct (_normalize_path w source_path) as [[normalized |] | e]; [| eauto ..].
  destruct (_ || _); [eauto |].
  unfold _normalize_path at 1. cbn [String.eqb]. eauto.
Qed.

(** X18. A source path that is empty, or that resolves to a path with
    [..] in it or with two leading backslashes, and a target path without a
    directory part, are never decoded or encoded: [compress] does what the
    copy of the original does, and nothing else. *)
Theorem compress_rejected_path (cfg : config) (w : world)
    (source_path target_path : string) :
  source_path = ""
  ∨ (∃ p, path_resolve w source_path = Ok p
          ∧ (str_contains ".." p = true ∨ String.prefix "\\" p = true))
  ∨ os_path_dirname target_path = "" →
  compress cfg w source_path target_path = copy_original w source_path target_path.
Proof.
  intros [-> | [(p & Hp & Hbad) | Hdir]].
  - eapply compress_handler, compress_try_rejected_source. reflexivity.
  - eapply compress_handler, compress_try_rejected_source.
    unfold _normalize_path. rewrite Hp.
    destruct (String.eqb source_path ""); [reflexivity |].
    destruct Hbad as [-> | ->]; [reflexivity | rewrite orb_true_r; reflexivity].
  - destruct (compress_try_no_directory cfg w source_path target_path Hdir) as [e He].
    eapply compress_handler, He.
Qed.

Lemma save_image_calls_save (w w' : world) (img : image) (target_path target_ext : string)
    (photo_quality : Z) (image_preset : string) :
  _save_image w img target_path target_ext photo_quality image_preset = (w', Ok tt) →
  ∃ save_img options, Image_save w save_img target_path options = (w', Ok tt).
Proof.
  unfold _save_image, _save_jpeg, _save_webp, _save_png.
  repeat match goal with
  | |- context [if ?c then _ else _] => destruct c
  | |- context [match ?c with Ok _ => _ | Raise _ => _ end] => destruct c
  end;
  intros Hr; try discriminate; eauto.
Qed.

(** X19. When [compress] returns [True], the source path was accepted
    and named a file, the target directory was made, the file was opened as
    an image, and the file system is the one a call of [save] on the target
    path left. *)
Theorem compress_true_means_encoded (cfg : config) (w w' : world)
    (source_path target_path : string) :
  compress cfg w source_path target_path = (w', Ok true) →
  ∃ normalized_source w1 img save_img options,
    _normalize_path w source_path = Ok (Some normalized_source)
    ∧ os_path_isfile w normalized_source = true
    ∧ os_makedirs w (os_path_dirname target_path) = (w1, Ok tt)
    ∧ Image_open w1 normalized_source = Ok img
    ∧ Image_save w1 save_img target_path options = (w', Ok tt).
Proof.
  intros Hc.
  destruct (compress_try cfg w source_path target_path) as [w1 [r | e]] eqn:Htry.
  - unfold compress in Hc. rewrite Htry in Hc. injection Hc as -> ->.
    revert Htry. unfold compress_try.
    destruct (_normalize_path w source_path) as [[normalized |] | e]; try discriminate.
    destruct (String.eqb normalized "" || negb (os_path_isfile w normalized)) eqn:Hf;
      try discriminate.
    destruct (_normalize_path w (os_path_dirname target_path)) as [[nt |] | e];
      try discriminate.
    destruct (String.eqb nt ""); try discriminate.
    destruct (os_makedirs w (os_path_dirname target_path)) as [w2 [[] | e]] eqn:Hmk;
      try discriminate.
    destruct (Image_open w2 normalized) as [img | e] eqn:Hopen; try discriminate.
    destruct (_resize_if_needed img _ _) as [img' | e]; try discriminate.
    destruct (_save_image w2 img' _ _ _ _) as [w3 [[] | e]] eqn:Hsave; try discriminate.
    intros [= <-].
    apply save_image_calls_save in Hsave as (save_img & options & Hsave).
    apply orb_false_iff in Hf as [_ Hf]. apply negb_false_iff in Hf.
    eexists _, _, _, _, _.
    do 4 (split; [first [reflexivity | eassumption] |]). exact Hsave.
  - rewrite (compress_handler _ _ _ _ _ _ Htry) in Hc. unfold copy_original in Hc.
    destruct (shutil_copy2 w1 source_path target_path) as [w2 [[] | e']]; discriminate.
Qed.

End Paths.

(** ** The FFmpeg manager: finding an executable *)

Section Detection.
Context {host : Host}.

Lemma find_append {A} (f : A → bool) (l1 l2 : list A) :
  find f (l1 ++ l2)%list = match find f l1 with Some x => Some x | None => find f l2 end.
Proof.
  induction l1 as [| x l1 IH]; [reflexivity |]. simpl. destruct (f x); [reflexivity | exact IH].
Qed.

Lemma find_usable_files (fs : files) (paths : list string) :
  find (usable fs) ((λ path, (path, true)) <$> paths)
  = (λ path, (path, true)) <$> find (λ path, os_isfile fs path && _test_ffmpeg fs path) paths.
Proof.
  induction paths as [| p paths IH]; [reflexivity |]. cbn [fmap list_fmap find].
  unfold usable at 1. cbn [fst snd negb orb].
  destruct (os_isfile fs p && _test_ffmpeg fs p); [reflexivity | exact IH].
Qed.

(** [check_ffmpeg] answers with the first usable one of its candidates. *)
Lemma check_ffmpeg_find (fs : files) (config_path : option string) :
  check_ffmpeg fs config_path
  = match find (usable fs) (candidates fs config_path) with
    | Some candidate => (true, Some (fst candidate))
    | None => (false, None)
    end.
Proof.
  unfold check_ffmpeg, candidates. rewrite !find_append.
  assert (Hc : find (usable fs)
                 (if str_truthy config_path then [(default "" config_path, true)] else [])
               = if str_truthy config_path && os_isfile fs (default "" config_path)
                    && _test_ffmpeg fs (default "" config_path)
                 then Some (default "" config_path, true) else None).
  { destruct (str_truthy config_path); [| reflexivity].
    cbn [find andb]. unfold usable. cbn [fst snd negb orb].
    destruct (_ && _); reflexivity. }
  assert (Hw : ∀ w, find (usable fs)
                 (if str_truthy w then [(default "" w, false)] else [])
               = if str_truthy w && _test_ffmpeg fs (default "" w)
                 then Some (default "" w, false) else None).
  { intros w. destruct (str_truthy w); [| reflexivity].
    cbn [find andb]. unfold usable. cbn [fst snd negb orb andb].
    destruct (_test_ffmpeg fs _); reflexivity. }
  rewrite Hc, Hw. clear Hc Hw.
  destruct (str_truthy config_path && _ && _) eqn:Hcfg.
  { destruct config_path; [reflexivity | discriminate]. }
  cbn [find]. unfold usable at 1. cbn [fst snd negb orb].
  destruct (os_isfile fs default_ffmpeg_path && _test_ffmpeg fs default_ffmpeg_path);
    [reflexivity |].
  destruct (str_truthy (shutil_which fs "ffmpeg") && _) eqn:Hwhich.
  { destruct (shutil_which fs "ffmpeg"); [reflexivity | discriminate]. }
  destruct (String.eqb sys_platform "win32"); [| reflexivity].
  rewrite find_usable_files.
  destruct (find _ common_paths); reflexivity.
Qed.

Lemma find_all_false {A} (f : A → bool) (l : list A) :
  (∀ x, x ∈ l → f x = false) → find f l = None.
Proof.
  induction l as [| x l IH]; [reflexivity |]. intros H. simpl.
  rewrite (H x) by apply list_elem_of_here.
  apply IH. intros y Hy. apply H, list_elem_of_further, Hy.
Qed.

(** X20. [check_ffmpeg] takes its candidates in order, the configured
    path, the bundled executable, the one on [PATH], then on Windows the
    three common places: a usable candidate before which none is usable is
    the one it answers with. *)
Theorem check_ffmpeg_priority (fs : files) (config_path : option string)
    (earlier later : list (string * bool)) (candidate : string * bool) :
  candidates fs config_path = (earlier ++ candidate :: later)%list →
  (∀ c, c ∈ earlier → usable fs c = false) →
  usable fs candidate = true →
  check_ffmpeg fs config_path = (true, Some (fst candidate)).
Proof.
  intros Hc He Hu. rewrite check_ffmpeg_find, Hc, find_append.
  rewrite (find_all_false _ _ He). simpl. rewrite Hu. reflexivity.
Qed.

(** X21. The answer of [check_ffmpeg] is [(True, path)] or
    [(False, None)].  A path it answers with ran [-version] with exit code
    0, and it names a file or is what [shutil.which] found.  When it answers
    [(False, None)] no candidate is usable. *)
Theorem check_ffmpeg_sound (fs : files) (config_path : option string) :
  match check_ffmpeg fs config_path with
  | (true, Some path) =>
      subprocess_run fs [path; "-version"] = Ok 0
      ∧ (os_isfile fs path = true ∨ shutil_which fs "ffmpeg" = Some path)
  | (false, None) =>
      ∀ candidate, candidate ∈ candidates fs config_path → usable fs candidate = false
  | _ => False
  end.
Proof.
  rewrite check_ffmpeg_find.
  destruct (find (usable fs) (candidates fs config_path)) as [[path must_be_file] |] eqn:Hf.
  - apply find_some in Hf as [Hin Hu]. unfold usable in Hu. cbn [fst snd] in *.
    apply andb_true_iff in Hu as [Hfile Htest]. split.
    + unfold _test_ffmpeg in Htest.
      destruct (subprocess_run fs [path; "-version"]) as [rc |]; [| discriminate].
      apply Z.eqb_eq in Htest. congruence.
    + destruct must_be_file; [left; exact Hfile | right].
      unfold candidates in Hin. rewrite !in_app_iff in Hin.
      destruct Hin as [Hin | [Hin | [Hin | Hin]]].
      * destruct (str_truthy config_path); [| destruct Hin].
        destruct Hin as [[=] | []].
      * destruct Hin as [[=] | []].
      * destruct (shutil_which fs "ffmpeg") as [q |]; [| destruct Hin].
        destruct (str_truthy (Some q)); [| destruct Hin].
        destruct Hin as [[= ->] | []]. reflexivity.
      * destruct (String.eqb sys_platform "win32"); [| destruct Hin].
        cbn in Hin. destruct Hin as [[=] | [[=] | [[=] | []]]].
  - intros candidate Hin. apply (find_none _ _ Hf). apply list_elem_of_In, Hin.
Qed.

End Detection.

(** ** The FFmpeg manager: downloading *)

Lemma progress_points_spec (downloaded : Z) (chunks : list (list Z)) :
  Forall (λ chunk : list Z, chunk ≠ []) chunks →
  length (progress_points downloaded chunks) = length chunks
  ∧ Forall (λ d, downloaded < d ≤ downloaded + Z.of_nat (length (concat chunks)))
      (progress_points downloaded chunks)
  ∧ (chunks ≠ [] →
     last (progress_points downloaded chunks)
     = Some (downloaded + Z.of_nat (length (concat chunks)))).
Proof.
  intros Hne. revert downloaded.
  induction Hne as [| chunk chunks Hc Hne IH]; intros downloaded.
  - split; [reflexivity |]. split; [constructor | congruence].
  - cbn [progress_points concat length]. rewrite length_app, Nat2Z.inj_add.
    destruct (IH (downloaded + Z.of_nat (length chunk))) as (Hlen & Hall & Hlast).
    assert (Hpos : 0 < Z.of_nat (length chunk)) by (destruct chunk; [congruence | simpl; lia]).
    split; [simpl; rewrite Hlen; reflexivity |]. split.
    + constructor; [lia |]. eapply List.Forall_impl; [| exact Hall].
      intros d Hd. cbv beta in Hd. lia.
    + intros _. destruct chunks as [| c' chunks'].
      * cbn [progress_points last concat length]. f_equal. simpl. lia.
      * rewrite last_cons. rewrite Hlast by discriminate. f_equal. lia.
Qed.

Section Download.
Context {py : Python} {host : Host}.

Lemma progress_reports_cons callback total_all downloaded (chunk : bytes) chunks :
  progress_reports callback total_all downloaded (chunk :: chunks)
  = (progress_reports callback total_all downloaded [chunk]
     ++ progress_reports callback total_all (downloaded + Z.of_nat (length chunk)) chunks)%list.
Proof.
  unfold progress_reports. destruct callback, total_all as [t |]; try reflexivity.
  destruct (t =? 0); reflexivity.
Qed.

Lemma download_loop_chunks (dst : string) callback total_all
    (chunks : list bytes) (rest : list (result bytes))
    (fs : files) (downloaded : Z) (reports : list (Z * Z)) (old : bytes) :
  (∀ fs chunk, write_error fs dst chunk = None) →
  Forall (λ chunk : bytes, chunk ≠ []) chunks →
  fs !! dst = Some old →
  download_loop dst callback total_all ((Ok <$> chunks) ++ rest)%list fs downloaded reports
  = download_loop dst callback total_all rest
      (<[dst := (old ++ concat chunks)%list]> fs)
      (downloaded + Z.of_nat (length (concat chunks)))
      (reports ++ progress_reports callback total_all downloaded chunks)%list.
Proof.
  intros Hw Hne. revert fs downloaded reports old.
  induction Hne as [| chunk chunks Hc Hne IH]; intros fs downloaded reports old Hold.
  - cbn [fmap list_fmap app concat length]. rewrite !app_nil_r, Z.add_0_r.
    rewrite insert_id by exact Hold.
    f_equal. unfold progress_reports. destruct callback, total_all as [t |];
      try (rewrite app_nil_r; reflexivity).
    destruct (t =? 0); rewrite app_nil_r; reflexivity.
  - cbn [fmap list_fmap app download_loop].
    rewrite bool_decide_eq_false_2 by exact Hc. rewrite Hw, Hold. cbn [default].
    erewrite IH by apply lookup_insert_eq.
    rewrite insert_insert_eq. cbn [concat]. rewrite length_app, Nat2Z.inj_add.
    rewrite (progress_reports_cons _ _ _ chunk chunks).
    rewrite <- !app_assoc, Z.add_assoc, (app_assoc reports).
    f_equal. f_equal.
    unfold progress_reports. cbn [progress_points fmap list_fmap].
    destruct callback as [cb |], total_all as [t |]; try (rewrite app_nil_r; reflexivity).
    destruct (t =? 0); [rewrite app_nil_r; reflexivity |].
    destruct (cb _ _); reflexivity.
Qed.

Lemma existing_size_length (fs : files) (dst : string) :
  disk_accepts dst →
  existing_size fs dst = Z.of_nat (length (default [] (fs !! dst))).
Proof.
  intros Hd. unfold existing_size. destruct (Hd fs) as (-> & _ & _).
  destruct (fs !! dst); reflexivity.
Qed.

Lemma open_for_writing_keeps (fs : files) (dst : string) :
  disk_accepts dst →
  open_for_writing fs dst (existing_size fs dst >? 0)
  = Ok (<[dst := default [] (fs !! dst)]> fs).
Proof.
  intros Hd. unfold open_for_writing. destruct (Hd fs) as (_ & -> & _).
  rewrite existing_size_length by exact Hd.
  destruct (Z.gtb_spec (Z.of_nat (length (default [] (fs !! dst)))) 0) as [Hpos | Hzero];
    [reflexivity |].
  revert Hzero. destruct (fs !! dst) as [[| b content] |]; simpl;
    [reflexivity | lia | reflexivity].
Qed.

(** A transfer whose first reads deliver [chunks]: what the loop is left
    to do after them. *)
Lemma download_with_resume_chunks (fs : files) (nt nt' : net) (url dst : string)
    callback (resp : response) (chunks : list bytes) (rest : list (result bytes)) :
  let old := default [] (fs !! dst) in
  let existing := Z.of_nat (length old) in
  let total_all := (λ total, existing + total) <$> content_length resp in
  disk_accepts dst →
  urlopen nt url (request_headers existing) = (nt', Ok resp) →
  body resp = ((Ok <$> chunks) ++ rest)%list →
  Forall (λ chunk : bytes, chunk ≠ []) chunks →
  _download_with_resume fs nt url dst callback
  = match download_loop dst callback total_all rest
            (<[dst := (old ++ concat chunks)%list]> fs)
            (existing + Z.of_nat (length (concat chunks)))
            (progress_reports callback total_all existing chunks) with
    | (fs, reports, Ok _) => (fs, nt', reports, true)
    | (fs, reports, Raise _) => (fs, nt', reports, false)
    end.
Proof.
  intros old existing total_all Hd Hopen Hbody Hne.
  unfold _download_with_resume.
  rewrite existing_size_length by exact Hd. fold old. fold existing.
  rewrite Hopen. fold total_all.
  pose proof (open_for_writing_keeps fs dst Hd) as Ho.
  rewrite existing_size_length in Ho by exact Hd. fold old in Ho. fold existing in Ho.
  rewrite Ho, Hbody.
  rewrite (download_loop_chunks _ _ _ _ _ _ _ _ old)
    by (first [intros fs' c; apply (Hd fs') | exact Hne | apply lookup_insert_eq]).
  rewrite insert_insert_eq. reflexivity.
Qed.

(** X22. When the server answers and the stream ends after [chunks],
    [_download_with_resume] returns [True] and the file at [dst] holds what
    it held before followed by the chunks; no other file changes. *)
Theorem download_with_resume_completes (fs : files) (nt nt' : net) (url dst : string)
    callback (resp : response) (chunks : list bytes) :
  let old := default [] (fs !! dst) in
  disk_accepts dst →
  urlopen nt url (request_headers (Z.of_nat (length old))) = (nt', Ok resp) →
  body resp = Ok <$> chunks →
  Forall (λ chunk : bytes, chunk ≠ []) chunks →
  ∃ reports,
    _download_with_resume fs nt url dst callback
    = (<[dst := (old ++ concat chunks)%list]> fs, nt', reports, true).
Proof.
  intros old Hd Hopen Hbody Hne.
  rewrite (download_with_resume_chunks fs nt nt' url dst callback resp chunks [])
    by (first [exact Hd | exact Hopen | exact Hne | rewrite app_nil_r; exact Hbody]).
  cbn [download_loop]. eauto.
Qed.

(** X23. When a read raises after [chunks], [_download_with_resume]
    returns [False] and the chunks received so far stay in the file, after
    what it held before. *)
Theorem download_with_resume_interrupted (fs : files) (nt nt' : net) (url dst : string)
    callback (resp : response) (chunks : list bytes) (e : exn) (rest : list (result bytes)) :
  let old := default [] (fs !! dst) in
  disk_accepts dst →
  urlopen nt url (request_headers (Z.of_nat (length old))) = (nt', Ok resp) →
  body resp = ((Ok <$> chunks) ++ Raise e :: rest)%list →
  Forall (λ chunk : bytes, chunk ≠ []) chunks →
  ∃ reports,
    _download_with_resume fs nt url dst callback
    = (<[dst := (old ++ concat chunks)%list]> fs, nt', reports, false).
Proof.
  intros old Hd Hopen Hbody Hne.
  rewrite (download_with_resume_chunks fs nt nt' url dst callback resp chunks (Raise e :: rest))
    by (first [exact Hd | exact Hopen | exact Hne | exact Hbody]).
  cbn [download_loop]. eauto.
Qed.

(** X24. When the request is refused, or the file cannot be opened,
    [_download_with_resume] returns [False], reports no progress and leaves
    every file as it was. *)
Theorem download_with_resume_refused (fs : files) (nt : net) (url dst : string) callback :
  (∃ e, (urlopen nt url (request_headers (existing_size fs dst))).2 = Raise e)
  ∨ (∃ e, open_error fs dst = Some e) →
  ∃ nt',
    _download_with_resume fs nt url dst callback = (fs, nt', [], false).
Proof.
  unfold _download_with_resume, open_for_writing.
  destruct (urlopen nt url (request_headers (existing_size fs dst))) as [nt' [resp | e']].
  - intros [[e He] | [e He]]; [discriminate |]. rewrite He. eauto.
  - eauto.
Qed.

(** X25. A transfer that breaks after [chunks1] and a second call,
    which asks for the range from the size of the file on, together leave
    what one unbroken transfer of [chunks1] and [chunks2] leaves. *)
Theorem download_with_resume_resumes (fs : files) (nt nt1 nt2 : net) (url dst : string)
    callback (resp1 resp2 : response) (chunks1 chunks2 : list bytes)
    (e : exn) (rest : list (result bytes)) :
  let old := default [] (fs !! dst) in
  let partial := (old ++ concat chunks1)%list in
  disk_accepts dst →
  urlopen nt url (request_headers (Z.of_nat (length old))) = (nt1, Ok resp1) →
  body resp1 = ((Ok <$> chunks1) ++ Raise e :: rest)%list →
  Forall (λ chunk : bytes, chunk ≠ []) chunks1 →
  partial ≠ [] →
  urlopen nt1 url {[ "Range" := "bytes=" +:+ pretty (Z.of_nat (length partial)) +:+ "-" ]}
    = (nt2, Ok resp2) →
  body resp2 = Ok <$> chunks2 →
  Forall (λ chunk : bytes, chunk ≠ []) chunks2 →
  ∃ fs1 reports1 reports2,
    _download_with_resume fs nt url dst callback = (fs1, nt1, reports1, false)
    ∧ _download_with_resume fs1 nt1 url dst callback
      = (<[dst := (old ++ concat (chunks1 ++ chunks2))%list]> fs, nt2, reports2, true).
Proof.
  intros old partial Hd Hopen1 Hbody1 Hne1 Hpartial Hopen2 Hbody2 Hne2.
  eexists (<[dst := partial]> fs), _, _. split.
  - rewrite (download_with_resume_chunks fs nt nt1 url dst callback resp1 chunks1
               (Raise e :: rest))
      by (first [exact Hd | exact Hopen1 | exact Hne1 | exact Hbody1]).
    cbn [download_loop]. reflexivity.
  - assert (Hold : default [] (<[dst := partial]> fs !! dst) = partial)
      by (rewrite lookup_insert_eq; reflexivity).
    assert (Hhead : request_headers (Z.of_nat (length partial))
                    = {[ "Range" := "bytes=" +:+ pretty (Z.of_nat (length partial)) +:+ "-" ]}).
    { unfold request_headers.
      destruct (Z.gtb_spec (Z.of_nat (length partial)) 0) as [| Hz]; [reflexivity |].
      destruct partial; [congruence | simpl in Hz; lia]. }
    rewrite (download_with_resume_chunks _ nt1 nt2 url dst callback resp2 chunks2 [])
      by (first [exact Hd | exact Hne2 | rewrite app_nil_r; exact Hbody2
                | rewrite Hold, Hhead; exact Hopen2]).
    cbn [download_loop]. rewrite Hold, insert_insert_eq.
    unfold partial. rewrite concat_app, app_assoc. reflexivity.
Qed.

(** X26. Without a callback or without a [Content-Length] no progress
    is reported.  With both, and a [Content-Length] equal to the number of
    bytes the server then sends, there is one report per chunk, every
    report has the size of the finished file as its total and a count
    above the size resumed from and at most the total, and the last report
    has the count equal to the total. *)
Theorem download_with_resume_progress (fs : files) (nt nt' : net) (url dst : string)
    callback (resp : response) (chunks : list bytes) :
  let existing := Z.of_nat (length (default [] (fs !! dst))) in
  disk_accepts dst →
  urlopen nt url (request_headers existing) = (nt', Ok resp) →
  body resp = Ok <$> chunks →
  Forall (λ chunk : bytes, chunk ≠ []) chunks →
  ∃ fs' reports,
    _download_with_resume fs nt url dst callback = (fs', nt', reports, true)
    ∧ (callback = None ∨ content_length resp = None → reports = [])
    ∧ (∀ total, is_Some callback → content_length resp = Some total →
         Z.of_nat (length (concat chunks)) = total → chunks ≠ [] →
         length reports = length chunks
         ∧ Forall (λ report, report.2 = existing + total
                             ∧ existing < report.1 ≤ existing + total) reports
         ∧ last reports = Some (existing + total, existing + total)).
Proof.
  intros existing Hd Hopen Hbody Hne.
  rewrite (download_with_resume_chunks fs nt nt' url dst callback resp chunks [])
    by (first [exact Hd | exact Hopen | exact Hne | rewrite app_nil_r; exact Hbody]).
  cbn [download_loop]. eexists _, _. split; [reflexivity |]. fold existing. split.
  - intros [-> | ->]; [reflexivity |]. unfold progress_reports. cbn [fmap option_fmap option_map].
    destruct callback; reflexivity.
  - intros total [cb ->] -> Htotal Hchunks. cbn [fmap option_fmap option_map].
    unfold progress_reports.
    destruct (progress_points_spec existing chunks Hne) as (Hlen & Hall & Hlast).
    assert (Hpos : 0 < total).
    { destruct chunks as [| c cs]; [congruence |].
      apply Forall_cons in Hne as [Hc _]. destruct c; [congruence |].
      rewrite <- Htotal. cbn [concat length app]. lia. }
    destruct (Z.eqb_spec (existing + total) 0); [unfold existing in *; lia |].
    rewrite length_fmap, Hlen. split; [reflexivity |]. split.
    + apply Forall_fmap. eapply List.Forall_impl; [| exact Hall].
      intros d Hdl. cbn. rewrite Htotal in Hdl. lia.
    + rewrite fmap_last, Hlast by exact Hchunks. cbn. rewrite Htotal. reflexivity.
Qed.

End Download.

(** ** The FFmpeg manager: scanning the archive *)

Lemma prefix_cons (a b : ascii) (s1 s2 : string) :
  String.prefix (String a s1) (String b s2)
  = if ascii_dec a b then String.prefix s1 s2 else false.
Proof. reflexivity. Qed.

(** A name that ends in [ffmpeg.exe] does not end in [ffprobe.exe]: read
    from the end, the two differ at the fifth character. *)
Lemma endswith_ffmpeg_not_ffprobe (s : string) :
  endswith s "ffmpeg.exe" = true → endswith s "ffprobe.exe" = false.
Proof.
  unfold endswith.
  change (String.rev "ffmpeg.exe") with "exe.gepmff".
  change (String.rev "ffprobe.exe") with "exe.eborpff".
  destruct (String.rev s) as [| c0 [| c1 [| c2 [| c3 [| c4 r]]]]];
    rewrite ?prefix_cons;
    repeat match goal with
           | |- context [ascii_dec ?a ?b] => destruct (ascii_dec a b); try discriminate
           end;
    try reflexivity; try discriminate.
  all: subst; discriminate.
Qed.

Section Archive.
Context {host : Host}.

Lemma find_executables_from (filelist : list zip_info)
    (ffmpeg_found ffprobe_found : option zip_info) :
  find_executables filelist ffmpeg_found ffprobe_found
  = (match last (filter (λ i, names_ffmpeg i = true) filelist) with
     | Some i => Some i
     | None => ffmpeg_found
     end,
     match last (filter (λ i, names_ffprobe i = true) filelist) with
     | Some i => Some i
     | None => ffprobe_found
     end).
Proof.
  revert ffmpeg_found ffprobe_found.
  induction filelist as [| i filelist IH]; intros a b; [reflexivity |].
  cbn [find_executables]. rewrite !filter_cons.
  destruct (names_ffmpeg i) eqn:Hm.
  - assert (Hp : names_ffprobe i = false) by (apply endswith_ffmpeg_not_ffprobe, Hm).
    rewrite Hp, IH.
    rewrite decide_True by reflexivity. rewrite decide_False by discriminate.
    rewrite last_cons. destruct (last (filter _ filelist)); reflexivity.
  - rewrite decide_False by discriminate.
    destruct (names_ffprobe i) eqn:Hp; rewrite IH.
    + rewrite decide_True by reflexivity.
      rewrite last_cons. destruct (last (filter (λ i, names_ffprobe i = true) filelist)); reflexivity.
    + rewrite decide_False by discriminate. reflexivity.
Qed.

(** X27. The scan of an archive keeps the last entry whose name ends
    in [ffmpeg.exe] and the last whose name ends in [ffprobe.exe],
    backslashes read as separators; it finds an [ffmpeg.exe] exactly when
    the test [download_ffmpeg] makes on a cached archive says there is
    one. *)
Theorem find_executables_last (filelist : list zip_info) :
  find_executables filelist None None
  = (last (filter (λ i, names_ffmpeg i = true) filelist),
     last (filter (λ i, names_ffprobe i = true) filelist))
  ∧ (archive_has_ffmpeg filelist = true
     ↔ is_Some (fst (find_executables filelist None None))).
Proof.
  rewrite find_executables_from. split.
  - f_equal; destruct (last _); reflexivity.
  - cbn [fst]. unfold archive_has_ffmpeg. rewrite existsb_exists. split.
    + intros (n & Hin & Hn). apply list_elem_of_In, list_elem_of_fmap in Hin as (i & -> & Hi).
      assert (Hf : i ∈ filter (λ i, names_ffmpeg i = true) filelist)
        by (apply list_elem_of_filter; split; assumption).
      destruct (last (filter _ filelist)) eqn:Hl; [eauto |].
      apply last_None in Hl. rewrite Hl in Hf. inversion Hf.
    + intros [i Hi].
      destruct (last (filter _ filelist)) as [j |] eqn:Hl; [| discriminate].
      assert (Hj : j ∈ filter (λ i, names_ffmpeg i = true) filelist).
      { apply last_Some in Hl as [l' ->]. apply elem_of_app. right. apply list_elem_of_here. }
      apply list_elem_of_filter in Hj as [Hn Hj].
      exists (replace_backslash os_sep (filename j)). split; [| exact Hn].
      apply list_elem_of_In, list_elem_of_fmap. eauto.
Qed.

End Archive.

(** ** The further properties at work on the models *)

Lemma unknown_preset_is_custom_witness :
  "fast" ≠ PRESET_COMPRESSION_FIRST ∧ "fast" ≠ PRESET_CLARITY_FIRST
  ∧ _save_jpeg (pil:=Model.pillow) (os:=Model.platform)
      Model.disk Model.opaque_rgba "out/photo.jpg" 60 "fast"
    = _save_jpeg (pil:=Model.pillow) (os:=Model.platform)
        Model.disk Model.opaque_rgba "out/photo.jpg" 60 PRESET_CUSTOM
  ∧ _save_webp (os:=Model.platform) Model.disk Model.opaque_rgba "out/photo.jpg" 60 "fast"
    = _save_webp (os:=Model.platform)
        Model.disk Model.opaque_rgba "out/photo.jpg" 60 PRESET_CUSTOM
  ∧ _save_png (pil:=Model.pillow) (os:=Model.platform)
      Model.disk Model.opaque_rgba "out/photo.jpg" 60 "fast"
    = _save_png (pil:=Model.pillow) (os:=Model.platform)
        Model.disk Model.opaque_rgba "out/photo.jpg" 60 PRESET_CUSTOM.
Proof.
  split; [discriminate |]. split; [discriminate |].
  apply (unknown_preset_is_custom (pil:=Model.pillow) (os:=Model.platform)); discriminate.
Defined.

Lemma save_image_sane_options_witness :
  0 ≤ 95 ≤ 100
  ∧ _save_image (pil:=Model.pillow) (os:=Model.platform)
      Model.disk Model.opaque_rgba "out/photo.webp" ".webp" 95 PRESET_COMPRESSION_FIRST
    = (<["out/photo.webp" :=
           Model.Encoded Model.opaque_rgba
             {| opt_quality := Some 70; opt_optimize := None; opt_progressive := None;
                opt_method := Some 6; opt_compress_level := None |}]> Model.disk,
       Ok ())
  ∧ ((<["out/photo.webp" :=
           Model.Encoded Model.opaque_rgba
             {| opt_quality := Some 70; opt_optimize := None; opt_progressive := None;
                opt_method := Some 6; opt_compress_level := None |}]> Model.disk
      = Model.disk ∧ ∃ e, Ok () = Raise e)
     ∨ ∃ save_img options,
         Image_save (Platform:=Model.platform) Model.disk save_img "out/photo.webp" options
         = (<["out/photo.webp" :=
                Model.Encoded Model.opaque_rgba
                  {| opt_quality := Some 70; opt_optimize := None; opt_progressive := None;
                     opt_method := Some 6; opt_compress_level := None |}]> Model.disk,
            Ok ())
         ∧ sane_options options).
Proof.
  split; [lia |]. split; [vm_compute; reflexivity |].
  apply (save_image_sane_options (pil:=Model.pillow) (os:=Model.platform)
           Model.disk _ Model.opaque_rgba "out/photo.webp" ".webp" 95
           PRESET_COMPRESSION_FIRST);
    [lia | vm_compute; reflexivity].
Defined.

Lemma png_colors_monotone_witness :
  10 ≤ 20 ∧ 16 ≤ png_colors 10 ≤ png_colors 20 ∧ png_colors 20 ≤ 256.
Proof. split; [lia |]. apply png_colors_monotone. lia. Defined.

Lemma png_colors_below_70_witness : 69 < 70 ∧ 16 ≤ png_colors 69 ≤ 253.
Proof. split; [lia |]. apply png_colors_below_70. lia. Defined.

Lemma maybe_quantize_png_without_quantizer_witness :
  (∀ i c d, ∃ e, pil_convert_adaptive (Pillow:=Machine.bare_pillow) i c d = Raise e)
  ∧ (∀ i c m d, ∃ e, pil_quantize (Pillow:=Machine.bare_pillow) i c m d = Raise e)
  ∧ (mode Model.rgb_image ∈ ["P"; "RGB"; "RGBA"] →
       _maybe_quantize_png (pil:=Machine.bare_pillow) Model.rgb_image 64 NONE
       = Model.rgb_image)
  ∧ (mode Model.rgb_image ∉ ["P"; "RGB"; "RGBA"] →
       _maybe_quantize_png (pil:=Machine.bare_pillow) Model.rgb_image 64 NONE
       = match pil_convert (Pillow:=Machine.bare_pillow) Model.rgb_image "RGBA" with
         | Ok rgba => rgba
         | Raise _ => Model.rgb_image
         end).
Proof.
  split; [intros; eexists; reflexivity |]. split; [intros; eexists; reflexivity |].
  apply (maybe_quantize_png_without_quantizer (pil:=Machine.bare_pillow));
    intros; eexists; reflexivity.
Defined.

Lemma should_quantize_png_colour_count_witness :
  mode Model.opaque_rgba ∈ ["RGB"; "RGBA"]
  ∧ _should_quantize_png (pil:=Model.pillow) Model.opaque_rgba
    = bool_decide (length (remove_dups (data Model.opaque_rgba)) ≤ 256)%nat.
Proof.
  assert (H : mode Model.opaque_rgba ∈ ["RGB"; "RGBA"])
    by (apply (bool_decide_unpack _); vm_compute; exact I).
  split; [exact H |].
  apply (should_quantize_png_colour_count (pil:=Model.pillow)), H.
Defined.

Lemma convert_for_jpeg_png24_agree_witness :
  carries_transparency Model.palette_image = false
  ∧ _convert_for_jpeg (pil:=Model.pillow) Model.palette_image
    = _convert_for_png24 (pil:=Model.pillow) Model.palette_image.
Proof.
  split; [vm_compute; reflexivity |].
  apply (convert_for_jpeg_png24_agree (pil:=Model.pillow)). vm_compute. reflexivity.
Defined.

Lemma sample_rasters_eight_bit :
  eight_bit_rgba (data Model.opaque_rgba) ∧ eight_bit_rgba (data Machine.tinted_rgba).
Proof. split; apply (bool_decide_unpack _); vm_compute; exact I. Qed.

Lemma compute_image_diff_stats_exact_witness :
  eight_bit_rgba (data Model.opaque_rgba) ∧ eight_bit_rgba (data Machine.tinted_rgba)
  ∧ 0 < common_pixels (data Model.opaque_rgba) (data Machine.tinted_rgba) ≤ 2 ^ 40
  ∧ ∃ mae high_pct,
      _compute_image_diff_stats Model.opaque_rgba Machine.tinted_rgba = Ok (mae, high_pct)
      ∧ mae = rnd64 (inject_Z (total_diff (data Model.opaque_rgba) (data Machine.tinted_rgba))
                     / inject_Z (4 * common_pixels (data Model.opaque_rgba)
                                       (data Machine.tinted_rgba)))
      ∧ high_pct
        = rnd64 (inject_Z (100 * high_pixels (data Model.opaque_rgba)
                                   (data Machine.tinted_rgba))
                 / inject_Z (common_pixels (data Model.opaque_rgba)
                               (data Machine.tinted_rgba)))
      ∧ (0 <= mae <= 255)%Q ∧ (0 <= high_pct <= 100)%Q.
Proof.
  destruct sample_rasters_eight_bit as [Ha Hb].
  assert (Ht : 0 < common_pixels (data Model.opaque_rgba) (data Machine.tinted_rgba) ≤ 2 ^ 40)
    by (vm_compute; split; [reflexivity | discriminate]).
  split; [exact Ha |]. split; [exact Hb |]. split; [exact Ht |].
  exact (compute_image_diff_stats_exact Model.opaque_rgba Machine.tinted_rgba Ha Hb Ht).
Defined.

Lemma compute_image_diff_stats_zero_witness :
  eight_bit_rgba (data Model.opaque_rgba)
  ∧ 0 < common_pixels (data Model.opaque_rgba) (data Model.opaque_rgba) ≤ 2 ^ 40
  ∧ (_compute_image_diff_stats Model.opaque_rgba Model.opaque_rgba = Ok (0%Q, 0%Q)
     ↔ take (length (data Model.opaque_rgba)) (data Model.opaque_rgba)
       = take (length (data Model.opaque_rgba)) (data Model.opaque_rgba)).
Proof.
  destruct sample_rasters_eight_bit as [Ha _].
  assert (Ht : 0 < common_pixels (data Model.opaque_rgba) (data Model.opaque_rgba) ≤ 2 ^ 40)
    by (vm_compute; split; [reflexivity | discriminate]).
  split; [exact Ha |]. split; [exact Ht |].
  exact (compute_image_diff_stats_zero Model.opaque_rgba Model.opaque_rgba Ha Ha Ht).
Defined.

Lemma should_accept_png8_exact_witness :
  mode Model.opaque_rgba = "RGBA" ∧ mode Machine.tinted_rgba = "RGBA"
  ∧ size Model.opaque_rgba = (2, 1) ∧ size Machine.tinted_rgba = (2, 1)
  ∧ 0 < 2 ≤ 256 ∧ 0 < 1 ≤ 256
  ∧ full_raster Model.opaque_rgba ∧ full_raster Machine.tinted_rgba
  ∧ eight_bit_rgba (data Model.opaque_rgba) ∧ eight_bit_rgba (data Machine.tinted_rgba)
  ∧ accept (_should_accept_png8 (pil:=Model.pillow) Model.opaque_rgba Machine.tinted_rgba)
    = (total_diff (data Model.opaque_rgba) (data Machine.tinted_rgba) <=? 24 * (2 * 1))
      && (50 * high_pixels (data Model.opaque_rgba) (data Machine.tinted_rgba) <=? 2 * 1).
Proof.
  destruct sample_rasters_eight_bit as [Ha Hb].
  repeat (split; [first [reflexivity | lia | assumption] |]).
  apply (should_accept_png8_exact (pil:=Model.pillow) Model.opaque_rgba Machine.tinted_rgba
           2 1); first [reflexivity | lia | assumption].
Defined.

Lemma prepare_compare_images_sample_witness :
  mode Machine.wide_rgba = "RGBA" ∧ size Machine.wide_rgba = (1000, 400)
  ∧ 0 < 1000 < 2 ^ 53 ∧ 0 < 400 < 2 ^ 53
  ∧ (1000 ≤ 256 ∧ 400 ≤ 256 →
       _prepare_compare_images (pil:=Model.pillow) Machine.wide_rgba Machine.wide_rgba
       = Ok (Machine.wide_rgba, Machine.wide_rgba))
  ∧ (¬ (1000 ≤ 256 ∧ 400 ≤ 256) →
     ∃ new_width new_height,
       1 ≤ new_width ≤ 256 ∧ 1 ≤ new_height ≤ 256
       ∧ new_width ≤ 1000 ∧ new_height ≤ 400
       ∧ _prepare_compare_images (pil:=Model.pillow) Machine.wide_rgba Machine.wide_rgba
         = (a ← pil_resize (Pillow:=Model.pillow) Machine.wide_rgba
                  (new_width, new_height) BILINEAR;
            b ← pil_resize (Pillow:=Model.pillow) Machine.wide_rgba
                  (new_width, new_height) BILINEAR;
            Ok (a, b))).
Proof.
  split; [reflexivity |]. split; [reflexivity |].
  split; [simpl; lia |]. split; [simpl; lia |].
  apply (prepare_compare_images_sample (pil:=Model.pillow)
           Machine.wide_rgba Machine.wide_rgba 1000 400);
    first [reflexivity | simpl; lia].
Defined.

Lemma resize_if_needed_never_enlarges_witness :
  0 < 4000 < 2 ^ 53 ∧ 0 < 3000 < 2 ^ 53 ∧ 0 ≤ 2000
  ∧ ¬ (4000 ≤ 2000 ∧ 3000 ≤ 2000)
  ∧ ∃ new_width new_height,
      _resize_if_needed (pil:=Model.pillow) Model.large_image 2000 2000
      = pil_resize (Pillow:=Model.pillow) Model.large_image
          (new_width, new_height) LANCZOS
      ∧ 0 ≤ new_width ≤ 4000 ∧ 0 ≤ new_height ≤ 3000.
Proof.
  split; [simpl; lia |]. split; [simpl; lia |]. split; [lia |]. split; [lia |].
  apply (resize_if_needed_never_enlarges (pil:=Model.pillow) Model.large_image 2000 2000);
    simpl; lia.
Defined.

Lemma resize_if_needed_binding_width_witness :
  0 < 4000 < 2 ^ 53 ∧ 0 < 3000 ∧ 0 ≤ 2000 ≤ 2 ^ 51
  ∧ ¬ (4000 ≤ 2000 ∧ 3000 ≤ 2000) ∧ 2000 * 3000 ≤ 2000 * 4000
  ∧ ∃ new_width new_height,
      _resize_if_needed (pil:=Model.pillow) Model.large_image 2000 2000
      = pil_resize (Pillow:=Model.pillow) Model.large_image
          (new_width, new_height) LANCZOS
      ∧ 2000 - 1 ≤ new_width ≤ 2000.
Proof.
  split; [simpl; lia |]. split; [lia |]. split; [simpl; lia |]. split; [lia |].
  split; [lia |].
  apply (resize_if_needed_binding_width (pil:=Model.pillow) Model.large_image 2000 2000);
    simpl; lia.
Defined.

Lemma compress_rejected_path_witness :
  os_path_dirname (Platform:=Model.platform) "photo.png" = ""
  ∧ compress (py:=Model.python) (pil:=Model.pillow) (os:=Model.platform)
      Model.settings Model.disk "in/photo.png" "photo.png"
    = copy_original (os:=Model.platform) Model.disk "in/photo.png" "photo.png".
Proof.
  split; [reflexivity |].
  apply (compress_rejected_path (py:=Model.python) (pil:=Model.pillow) (os:=Model.platform)).
  right. right. reflexivity.
Defined.

Lemma compress_true_means_encoded_witness :
  compress (py:=Model.python) (pil:=Model.pillow) (os:=Model.platform)
    Model.settings Model.disk "in/photo.png" "out/photo.png"
  = (<["out/photo.png" :=
         Model.Encoded
           {| mode := "P"; size := (2, 1); info := ∅; data := [[0]; [0]] |}
           (png_options 9)]> Model.disk,
     Ok true)
  ∧ ∃ normalized_source w1 img save_img options,
      _normalize_path (os:=Model.platform) Model.disk "in/photo.png"
      = Ok (Some normalized_source)
      ∧ os_path_isfile (Platform:=Model.platform) Model.disk normalized_source = true
      ∧ os_makedirs (Platform:=Model.platform) Model.disk
          (os_path_dirname (Platform:=Model.platform) "out/photo.png") = (w1, Ok ())
      ∧ Image_open (Platform:=Model.platform) w1 normalized_source = Ok img
      ∧ Image_save (Platform:=Model.platform) w1 save_img "out/photo.png" options
        = (<["out/photo.png" :=
               Model.Encoded
                 {| mode := "P"; size := (2, 1); info := ∅; data := [[0]; [0]] |}
                 (png_options 9)]> Model.disk,
           Ok ()).
Proof.
  split; [vm_compute; reflexivity |].
  apply (compress_true_means_encoded (py:=Model.python) (pil:=Model.pillow)
           (os:=Model.platform) Model.settings).
  vm_compute. reflexivity.
Defined.

Lemma machine_disk_accepts (dst : string) : disk_accepts (host:=Machine.host) dst.
Proof. intros fs. repeat split. Qed.

Lemma check_ffmpeg_priority_witness :
  candidates (host:=Machine.host) Machine.tools None
  = ([("bin\ffmpeg.exe", true)]
     ++ ("C:\ffmpeg\bin\ffmpeg.exe", true)
        :: [("C:\Program Files\ffmpeg\bin\ffmpeg.exe", true);
            ("C:\Program Files (x86)\ffmpeg\bin\ffmpeg.exe", true)])%list
  ∧ usable (host:=Machine.host) Machine.tools ("bin\ffmpeg.exe", true) = false
  ∧ usable (host:=Machine.host) Machine.tools ("C:\ffmpeg\bin\ffmpeg.exe", true) = true
  ∧ check_ffmpeg (host:=Machine.host) Machine.tools None
    = (true, Some "C:\ffmpeg\bin\ffmpeg.exe").
Proof.
  split; [reflexivity |]. split; [vm_compute; reflexivity |].
  split; [vm_compute; reflexivity |].
  apply (check_ffmpeg_priority (host:=Machine.host) Machine.tools None
           [("bin\ffmpeg.exe", true)]
           [("C:\Program Files\ffmpeg\bin\ffmpeg.exe", true);
            ("C:\Program Files (x86)\ffmpeg\bin\ffmpeg.exe", true)]
           ("C:\ffmpeg\bin\ffmpeg.exe", true)).
  - reflexivity.
  - intros c Hc. apply list_elem_of_singleton in Hc. subst c. vm_compute. reflexivity.
  - vm_compute. reflexivity.
Defined.

Lemma download_with_resume_completes_witness :
  disk_accepts (host:=Machine.host) "bin\ffmpeg_temp.zip"
  ∧ urlopen (Host:=Machine.host) Machine.steady_server "https://example.org/ffmpeg.zip"
      (request_headers (Z.of_nat (length (default [] ((∅ : files) !! "bin\ffmpeg_temp.zip")))))
    = ([], Ok (Machine.answer "5" [Ok [1; 2]; Ok [3; 4; 5]]))
  ∧ ∃ reports,
      _download_with_resume (py:=Model.python) (host:=Machine.host)
        ∅ Machine.steady_server "https://example.org/ffmpeg.zip" "bin\ffmpeg_temp.zip" None
      = (<["bin\ffmpeg_temp.zip" := (default [] ((∅ : files) !! "bin\ffmpeg_temp.zip") ++ concat [[1; 2]; [3; 4; 5]])%list]> ∅,
         [], reports, true).
Proof.
  split; [apply machine_disk_accepts |]. split; [reflexivity |].
  apply (download_with_resume_completes (py:=Model.python) (host:=Machine.host)
           ∅ Machine.steady_server [] "https://example.org/ffmpeg.zip" "bin\ffmpeg_temp.zip"
           None (Machine.answer "5" [Ok [1; 2]; Ok [3; 4; 5]]) [[1; 2]; [3; 4; 5]]).
  - apply machine_disk_accepts.
  - reflexivity.
  - reflexivity.
  - repeat constructor; discriminate.
Defined.

Lemma download_with_resume_interrupted_witness :
  disk_accepts (host:=Machine.host) "bin\ffmpeg_temp.zip"
  ∧ body (Machine.answer "5" [Ok [1; 2]; Ok [3]; Raise OSError])
    = ((Ok <$> [[1; 2]; [3]]) ++ Raise OSError :: [])%list
  ∧ ∃ reports,
      _download_with_resume (py:=Model.python) (host:=Machine.host)
        ∅ Machine.flaky_server "https://example.org/ffmpeg.zip" "bin\ffmpeg_temp.zip" None
      = (<["bin\ffmpeg_temp.zip" := (default [] ((∅ : files) !! "bin\ffmpeg_temp.zip") ++ concat [[1; 2]; [3]])%list]> ∅,
         tail Machine.flaky_server, reports, false).
Proof.
  split; [apply machine_disk_accepts |]. split; [reflexivity |].
  apply (download_with_resume_interrupted (py:=Model.python) (host:=Machine.host)
           ∅ Machine.flaky_server (tail Machine.flaky_server)
           "https://example.org/ffmpeg.zip" "bin\ffmpeg_temp.zip"
           None (Machine.answer "5" [Ok [1; 2]; Ok [3]; Raise OSError]) [[1; 2]; [3]]
           OSError []).
  - apply machine_disk_accepts.
  - reflexivity.
  - reflexivity.
  - repeat constructor; discriminate.
Defined.

Lemma download_with_resume_refused_witness :
  (∃ e, (urlopen (Host:=Machine.host) [] "https://example.org/ffmpeg.zip"
           (request_headers (existing_size (host:=Machine.host) ∅ "bin\ffmpeg_temp.zip"))).2
        = Raise e)
  ∧ ∃ nt',
      _download_with_resume (py:=Model.python) (host:=Machine.host)
        ∅ [] "https://example.org/ffmpeg.zip" "bin\ffmpeg_temp.zip" None
      = (∅, nt', [], false).
Proof.
  assert (H : ∃ e, (urlopen (Host:=Machine.host) [] "https://example.org/ffmpeg.zip"
                      (request_headers
                         (existing_size (host:=Machine.host) ∅ "bin\ffmpeg_temp.zip"))).2
                   = Raise e)
    by (exists OSError; reflexivity).
  split; [exact H |].
  apply (download_with_resume_refused (py:=Model.python) (host:=Machine.host)).
  left. exact H.
Defined.

Lemma download_with_resume_resumes_witness :
  disk_accepts (host:=Machine.host) "bin\ffmpeg_temp.zip"
  ∧ (default [] ((∅ : files) !! "bin\ffmpeg_temp.zip") ++ concat [[1; 2]; [3]])%list ≠ []
  ∧ urlopen (Host:=Machine.host) (tail Machine.flaky_server) "https://example.org/ffmpeg.zip"
      {[ "Range" := "bytes=" +:+ pretty (Z.of_nat (length (default [] ((∅ : files) !! "bin\ffmpeg_temp.zip") ++ concat [[1; 2]; [3]])%list))
                    +:+ "-" ]}
    = ([], Ok (Machine.answer "2" [Ok [4; 5]]))
  ∧ ∃ fs1 reports1 reports2,
      _download_with_resume (py:=Model.python) (host:=Machine.host)
        ∅ Machine.flaky_server "https://example.org/ffmpeg.zip" "bin\ffmpeg_temp.zip" None
      = (fs1, tail Machine.flaky_server, reports1, false)
      ∧ _download_with_resume (py:=Model.python) (host:=Machine.host)
          fs1 (tail Machine.flaky_server) "https://example.org/ffmpeg.zip"
          "bin\ffmpeg_temp.zip" None
        = (<["bin\ffmpeg_temp.zip" := (default [] ((∅ : files) !! "bin\ffmpeg_temp.zip") ++ concat ([[1; 2]; [3]] ++ [[4; 5]]))%list]> ∅,
           [], reports2, true).
Proof.
  split; [apply machine_disk_accepts |]. split; [discriminate |].
  split; [vm_compute; reflexivity |].
  apply (download_with_resume_resumes (py:=Model.python) (host:=Machine.host)
           ∅ Machine.flaky_server (tail Machine.flaky_server) []
           "https://example.org/ffmpeg.zip" "bin\ffmpeg_temp.zip" None
           (Machine.answer "5" [Ok [1; 2]; Ok [3]; Raise OSError])
           (Machine.answer "2" [Ok [4; 5]]) [[1; 2]; [3]] [[4; 5]] OSError []).
  - apply machine_disk_accepts.
  - reflexivity.
  - reflexivity.
  - repeat constructor; discriminate.
  - discriminate.
  - vm_compute. reflexivity.
  - reflexivity.
  - repeat constructor; discriminate.
Defined.

Lemma download_with_resume_progress_witness :
  disk_accepts (host:=Machine.host) "bin\ffmpeg_temp.zip"
  ∧ content_length (py:=Model.python) (Machine.answer "5" [Ok [1; 2]; Ok [3; 4; 5]]) = Some 5
  ∧ Z.of_nat (length (concat [[1; 2]; [3; 4; 5]])) = 5
  ∧ _download_with_resume (py:=Model.python) (host:=Machine.host)
      ∅ Machine.steady_server "https://example.org/ffmpeg.zip" "bin\ffmpeg_temp.zip"
      (Some (λ _ _, Ok ()))
    = (<["bin\ffmpeg_temp.zip" := [1; 2; 3; 4; 5]]> ∅, [], [(2, 5); (5, 5)], true)
  ∧ ∃ fs' reports,
      _download_with_resume (py:=Model.python) (host:=Machine.host)
        ∅ Machine.steady_server "https://example.org/ffmpeg.zip" "bin\ffmpeg_temp.zip"
        (Some (λ _ _, Ok ()))
      = (fs', [], reports, true)
      ∧ (Some (λ _ _ : Z, Ok ()) = None
         ∨ content_length (py:=Model.python) (Machine.answer "5" [Ok [1; 2]; Ok [3; 4; 5]])
           = None → reports = [])
      ∧ (∀ total, is_Some (Some (λ _ _ : Z, Ok ())) →
           content_length (py:=Model.python) (Machine.answer "5" [Ok [1; 2]; Ok [3; 4; 5]])
           = Some total →
           Z.of_nat (length (concat [[1; 2]; [3; 4; 5]])) = total →
           [[1; 2]; [3; 4; 5]] ≠ [] →
           length reports = length [[1; 2]; [3; 4; 5]]
           ∧ Forall (λ report,
                       report.2
                       = Z.of_nat (length (default [] ((∅ : files) !! "bin\ffmpeg_temp.zip")))
                         + total
                       ∧ Z.of_nat (length (default [] ((∅ : files) !! "bin\ffmpeg_temp.zip")))
                         < report.1
                         ≤ Z.of_nat (length (default []
                                               ((∅ : files) !! "bin\ffmpeg_temp.zip")))
                           + total) reports
           ∧ last reports
             = Some (Z.of_nat (length (default [] ((∅ : files) !! "bin\ffmpeg_temp.zip")))
                     + total,
                     Z.of_nat (length (default [] ((∅ : files) !! "bin\ffmpeg_temp.zip")))
                     + total)).
Proof.
  split; [apply machine_disk_accepts |]. split; [reflexivity |]. split; [reflexivity |].
  split; [vm_compute; reflexivity |].
  apply (download_with_resume_progress (py:=Model.python) (host:=Machine.host)
           ∅ Machine.steady_server [] "https://example.org/ffmpeg.zip" "bin\ffmpeg_temp.zip"
           (Some (λ _ _, Ok ())) (Machine.answer "5" [Ok [1; 2]; Ok [3; 4; 5]])
           [[1; 2]; [3; 4; 5]]).
  - apply machine_disk_accepts.
  - reflexivity.
  - reflexivity.
  - repeat constructor; discriminate.
Defined.
